(** * CloudCache: the store-and-forward upload buffer of autopi-core

    A shallow embedding of [src/salt/base/ext/_utils/cloud_cache.py]:
    the Redis list store the class talks to, the server-side Lua script
    [DEQUEUE_BATCH_LUA], the uploader [_upload], the batch engine
    [_upload_batch] / [_upload_batch_continuing] and the three drive
    operations [upload_pending], [upload_retrying], [upload_failing].

    Python methods become functions in a state-and-exception monad over a
    [World] (the Redis database, the instance attribute [upload_timer] and
    the history of externally visible events).  Everything the code asks of
    its environment (the HTTP server, the clock, the random generator,
    [json.dumps]) is an oracle of the history so far. *)

From Stdlib Require Import ZArith QArith List Ascii String DecimalString Lia.
From Stdlib Require Import DecimalPos Sorted.
From stdpp Require Import base option list gmap strings.

Local Open Scope string_scope.
Local Open Scope Z_scope.

(** ** Characters and strings *)

Module Str.

Definition chars (s : string) : list ascii := list_ascii_of_string s.
Definition of_chars (l : list ascii) : string := string_of_list_ascii l.

Definition is_digit (c : ascii) : bool :=
  let n := nat_of_ascii c in (48 <=? n)%nat && (n <=? 57)%nat.

Definition newline : ascii := ascii_of_nat 10.

(** Python's [", ".join(entries)]. *)
Fixpoint join (sep : string) (l : list string) : string :=
  match l with
  | [] => ""
  | [x] => x
  | x :: rest => x ++ sep ++ join sep rest
  end.

(** Python's ["{:d}".format(n)] / ["{:}".format(n)] for an integer. *)
Definition of_Z (n : Z) : string := NilZero.string_of_int (Z.to_int n).

(** A decimal field padded with zeros on the left to [width] digits, as
    [strftime] prints the parts of a date. *)
Definition pad0 (width : nat) (n : N) : string :=
  let s := of_Z (Z.of_N n) in
  of_chars (replicate (width - String.length s) "0"%char) ++ s.

(** Python's [int(s)] on a run of ASCII digits. *)
Definition digit_val (c : ascii) : Z := Z.of_nat (nat_of_ascii c) - 48.
Definition int_of_digits (l : list ascii) : Z :=
  fold_left (fun acc c => 10 * acc + digit_val c) l 0.

(** [s.startswith(p)] *)
Fixpoint starts_with (p s : string) : bool :=
  match p, s with
  | EmptyString, _ => true
  | String a p', String b s' => Ascii.eqb a b && starts_with p' s'
  | String _ _, EmptyString => false
  end.

(** Python 2 compares byte strings lexicographically by byte value. *)
Definition le (a b : string) : bool := String.leb a b.

Fixpoint insert_sorted (x : string) (l : list string) : list string :=
  match l with
  | [] => [x]
  | y :: rest => if le x y then x :: l else y :: insert_sorted x rest
  end.

(** [sorted(res)] *)
Definition sorted (l : list string) : list string :=
  fold_right insert_sorted [] l.

End Str.

(** ** The Redis database: list keys and their expiry *)

Module Redis.

Record Db := mkDb {
  lists : gmap string (list string);
  ttls : gmap string Z
}.

Definition empty : Db := mkDb ∅ ∅.

(** A list key holds a non-empty list; a list that becomes empty is removed
    together with its expiry.  All writes go through [set_list]. *)
Definition contents (k : string) (db : Db) : list string :=
  default [] (lists db !! k).

(** [EXISTS key] *)
Definition exists_ (k : string) (db : Db) : bool :=
  match contents k db with [] => false | _ => true end.

Definition set_list (k : string) (l : list string) (db : Db) : Db :=
  match l with
  | [] => mkDb (delete k (lists db)) (delete k (ttls db))
  | _ => mkDb (<[k := l]> (lists db))
              (if exists_ k db then ttls db else delete k (ttls db))
  end.

(** [TTL key], when one is set. *)
Definition ttl (k : string) (db : Db) : option Z :=
  if exists_ k db then ttls db !! k else None.

(** [LRANGE key start stop] with Redis's index arithmetic: negative indices
    count from the tail, the range is clamped to the list. *)
Definition lrange (k : string) (start stop : Z) (db : Db) : list string :=
  let l := contents k db in
  let len := Z.of_nat (length l) in
  let s := if start <? 0 then start + len else start in
  let e := if stop <? 0 then stop + len else stop in
  let s := if s <? 0 then 0 else s in
  if (e <? s) || (len <=? s) then []
  else
    let e := if len <=? e then len - 1 else e in
    take (Z.to_nat (e - s + 1)) (drop (Z.to_nat s) l).

(** [LPUSH key v1 v2 ...]: the values are pushed at the head one after the
    other, so the last one ends up first. *)
Definition lpush (k : string) (vs : list string) (db : Db) : Db :=
  set_list k (rev vs ++ contents k db) db.

(** [DEL key] *)
Definition del (k : string) (db : Db) : bool * Db :=
  (exists_ k db, mkDb (delete k (lists db)) (delete k (ttls db))).

(** [EXPIRE key seconds]: no effect on a missing key; a timeout that is not
    positive removes the key at once. *)
Definition expire (k : string) (seconds : Z) (db : Db) : bool * Db :=
  if exists_ k db then
    (true, if seconds <=? 0 then snd (del k db)
           else mkDb (lists db) (<[k := seconds]> (ttls db)))
  else (false, db).

(** [RENAMENX src dst]: [None] is Redis's "no such key" error; otherwise
    whether the rename took place.  The expiry travels with the key. *)
Definition renamenx (src dst : string) (db : Db) : option (bool * Db) :=
  if exists_ src db then
    Some (if exists_ dst db then (false, db)
          else (true,
                mkDb (<[dst := contents src db]> (delete src (lists db)))
                     (match ttls db !! src with
                      | Some t => <[dst := t]> (delete src (ttls db))
                      | None => delete dst (ttls db)
                      end)))
  else None.

(** [RPOPLPUSH src dst]: the tail of [src] becomes the head of [dst]. *)
Definition rpoplpush (src dst : string) (db : Db) : option string * Db :=
  match rev (contents src db) with
  | [] => (None, db)
  | v :: before =>
      let db1 := set_list src (rev before) db in
      (Some v, set_list dst (v :: contents dst db1) db1)
  end.

(** Redis's glob matching for [KEYS pattern], for patterns made of literal
    characters, [?] and [*] (the class only uses ["retr_*"], ["fail_*"] and
    ["*"]). *)
Fixpoint glob (p s : list ascii) : bool :=
  match p with
  | [] => match s with [] => true | _ => false end
  | c :: p' =>
      if Ascii.eqb c "*" then
        (fix star (s : list ascii) : bool :=
           glob p' s || match s with [] => false | _ :: s' => star s' end) s
      else
        match s with
        | [] => false
        | d :: s' => (Ascii.eqb c "?" || Ascii.eqb c d) && glob p' s'
        end
  end.

Definition all_keys (db : Db) : list string :=
  filter (fun k => exists_ k db = true) (elements (dom (lists db))).

(** [KEYS pattern] *)
Definition keys (pattern : string) (db : Db) : list string :=
  filter (fun k => glob (Str.chars pattern) (Str.chars k) = true) (all_keys db).

(** *** [DEQUEUE_BATCH_LUA]

    [for i = 1, ARGV[1] do ... RPOPLPUSH ... if not val then break end ...] *)
Fixpoint dequeue_loop (i : nat) (src dst : string) (ret : list string) (db : Db)
  : list string * Db :=
  match i with
  | O => (ret, db)
  | S i' =>
      match rpoplpush src dst db with
      | (None, _) => (ret, db)
      | (Some val, db') => dequeue_loop i' src dst (ret ++ [val]) db'
      end
  end.

Definition dequeue_batch (src dst : string) (count : Z) (db : Db)
  : list string * Db :=
  if exists_ dst db then (lrange dst 0 (-1) db, db)
  else if exists_ src db then dequeue_loop (Z.to_nat count) src dst [] db
  else ([], db).

End Redis.

(** ** Python values, configuration, events *)

(** What the code stores under ["error"] / in ["errors"] and returns as the
    second component of [_upload]: [None] or a string. *)
Inductive PyVal := PyNone | PyStr (s : string).

Definition py_str (v : option string) : string := default "None" v.

(** [options["endpoint"]]: a dict read with [.get("url")] and
    [.get("auth_token")]; the empty dict is [None] here. *)
Record Endpoint := mkEndpoint {
  url : option string;
  auth_token : option string
}.

(** [self.options], each key optional; the defaults are those of the
    [options.get(key, default)] calls. *)
Record Options := mkOptions {
  opt_endpoint : option Endpoint;
  opt_batch_size : option Z;
  opt_upload_splay : option Z;
  opt_max_retry : option Z;
  opt_retry_queue_limit : option Z;
  opt_fail_ttl : option Z
}.

Definition batch_size (o : Options) : Z := default 100 (opt_batch_size o).
Definition upload_splay (o : Options) : Z := default 10 (opt_upload_splay o).
Definition max_retry (o : Options) : Z := default 10 (opt_max_retry o).
Definition retry_queue_limit (o : Options) : Z := default 10 (opt_retry_queue_limit o).
Definition fail_ttl (o : Options) : Z := default 604800 (opt_fail_ttl o).

Record DateTime := mkDateTime {
  year : N; month : N; day : N;
  hour : N; minute : N; second : N; microsecond : N
}.

(** [requests.post(url, data=payload, headers=headers)] *)
Record Request := mkRequest {
  req_url : option string;
  req_data : string;
  req_headers : list (string * string)
}.

(** The outcome of [requests.post]: a response with its status code, or an
    exception raised by the call. *)
Inductive PostResult :=
| Responded (status_code : Z)
| PostRaised (ex : string).

Inductive Level := DEBUG | INFO | WARNING | ERROR.

Inductive RedisCmd :=
| LPUSH (key : string) (values : list string)
| LRANGE (key : string) (start stop : Z)
| DEL (key : string)
| KEYS (pattern : string)
| RENAMENX (src dst : string)
| EXPIRE (key : string) (seconds : Z)
| EVALSHA_dequeue_batch (src dst : string) (count : Z).

(** Everything the instance does to the outside, oldest first.  A pipeline
    executed with [execute()] is one [MULTI]/[EXEC] transaction and so one
    event; [EvUpload] marks an entry into [_upload] with its arguments. *)
Inductive Event :=
| EvRedis (c : RedisCmd)
| EvRedisTransaction (cs : list RedisCmd)
| EvUpload (entries : list string) (splay_factor : Z)
| EvRandint (a b r : Z)
| EvTimer (t : Q)
| EvSleep (seconds : Z)
| EvPost (req : Request) (res : PostResult)
| EvUtcnow (now : DateTime)
| EvLog (level : Level) (msg : string).

(** The environment: each oracle answers from the history so far.
    [json_dumps] is [json.dumps(data, separators=(",", ":"))]; [http_post] is
    the server and the network; [http_error_str] is [str] of the [HTTPError]
    that [raise_for_status] builds; [random_draw] feeds [random.randint],
    which reduces it into its range; [timer] is [timeit.default_timer], in
    seconds; [debug_enabled] is [log.isEnabledFor(logging.DEBUG)]. *)
Record Env (Data : Type) := mkEnv {
  json_dumps : Data -> string;
  http_post : list Event -> Request -> PostResult;
  http_error_str : Request -> Z -> string;
  random_draw : list Event -> N;
  timer : list Event -> Q;
  utcnow : list Event -> DateTime;
  debug_enabled : bool
}.
Arguments json_dumps {Data}.
Arguments http_post {Data}.
Arguments http_error_str {Data}.
Arguments random_draw {Data}.
Arguments timer {Data}.
Arguments utcnow {Data}.
Arguments debug_enabled {Data}.

Record World := mkWorld {
  db : Redis.Db;
  upload_timer : option Q;
  trace : list Event
}.

Definition initial : World := mkWorld Redis.empty None [].

(** ** The monad: state, exceptions, and running out of fuel *)

Inductive Exn :=
| RequestException (msg : string)
| OtherException (msg : string).

Inductive Res (A : Type) :=
| Ok (a : A)
| Raised (e : Exn)
| OutOfFuel.
Arguments Ok {A}.
Arguments Raised {A}.
Arguments OutOfFuel {A}.

Definition M (A : Type) : Type := World -> Res A * World.

Definition ret {A} (a : A) : M A := fun w => (Ok a, w).

Definition bind {A B} (m : M A) (k : A -> M B) : M B :=
  fun w =>
    match m w with
    | (Ok a, w') => k a w'
    | (Raised e, w') => (Raised e, w')
    | (OutOfFuel, w') => (OutOfFuel, w')
    end.

Definition raise {A} (e : Exn) : M A := fun w => (Raised e, w).
Definition diverge {A} : M A := fun w => (OutOfFuel, w).

(** [try: a = m; k a  except RequestException as rex: h rex], for a body
    whose part after [m] raises no [RequestException] of its own. *)
Definition try_except {A B} (m : M A) (k : A -> M B) (h : string -> M B) : M B :=
  fun w =>
    match m w with
    | (Ok a, w') => k a w'
    | (Raised (RequestException msg), w') => h msg w'
    | (Raised e, w') => (Raised e, w')
    | (OutOfFuel, w') => (OutOfFuel, w')
    end.

#[global] Instance M_ret : MRet M := @ret.
#[global] Instance M_bind : MBind M := fun A B k m => bind m k.

Definition emit (ev : Event) : M unit :=
  fun w => (Ok tt, mkWorld (db w) (upload_timer w) (trace w ++ [ev])).

Definition log (level : Level) (msg : string) : M unit := emit (EvLog level msg).

Definition when (b : bool) (m : M unit) : M unit := if b then m else ret tt.

Definition get_db : M Redis.Db := fun w => (Ok (db w), w).
Definition get_trace : M (list Event) := fun w => (Ok (trace w), w).

Definition with_db {A} (f : Redis.Db -> A * Redis.Db) : M A :=
  fun w => let (a, d) := f (db w) in (Ok a, mkWorld d (upload_timer w) (trace w)).

(** ** Queue names *)

Definition PENDING_QUEUE : string := "pend".
Definition PENDING_WORK_QUEUE : string := "pend.work".
Definition FAIL_WORK_QUEUE : string := "fail.work".

(** ["{:%Y%m%d%H%M%S%f}"] and ["{:%Y%m%d}"], for a year of four digits: a
    shorter year is padded here, and may be printed as it is by the C
    library's [strftime]. *)
Definition strftime_date (t : DateTime) : string :=
  Str.pad0 4 (year t) ++ Str.pad0 2 (month t) ++ Str.pad0 2 (day t).
Definition strftime_micro (t : DateTime) : string :=
  strftime_date t ++ Str.pad0 2 (hour t) ++ Str.pad0 2 (minute t)
  ++ Str.pad0 2 (second t) ++ Str.pad0 6 (microsecond t).

(** [RETRY_QUEUE.format(t, attempt)] and [FAIL_QUEUE.format(t)] *)
Definition RETRY_QUEUE (t : DateTime) (attempt : Z) : string :=
  "retr_" ++ strftime_micro t ++ "_#" ++ Str.of_Z attempt.
Definition FAIL_QUEUE (t : DateTime) : string := "fail_" ++ strftime_date t.

(** *** [RETRY_QUEUE_REGEX]

    [^(?P<type>.+)_(?P<timestamp>\d+)_#(?P<attempt>\d+)$], matched with
    [re.match].  The name is read from its end: [$] matches at the end of
    the string and also just before a newline that ends it; the attempt is
    the run of digits before that, after ["_#"]; the timestamp is the run of
    digits before that, after ["_"]; what is left is the type, which is not
    empty and, [.] not matching a newline, holds none. *)
Record RetryMatch := mkRetryMatch {
  group_type : list ascii;
  group_timestamp : list ascii;
  group_attempt : list ascii
}.

Fixpoint span_digits (l : list ascii) : list ascii * list ascii :=
  match l with
  | c :: l' =>
      if Str.is_digit c then let (d, r) := span_digits l' in (c :: d, r)
      else ([], l)
  | [] => ([], [])
  end.

(** The reversed name without the newline that may end it, and that newline. *)
Definition strip_final_newline (r : list ascii) : list ascii * list ascii :=
  match r with
  | c :: r' => if Ascii.eqb c Str.newline then (r', [c]) else (r, [])
  | [] => (r, [])
  end.

Definition has_newline (l : list ascii) : bool :=
  existsb (Ascii.eqb Str.newline) l.

Definition match_type_timestamp_attempt (type_required : list ascii -> bool)
    (name : string) : option RetryMatch :=
  let (r, _) := strip_final_newline (rev (Str.chars name)) in
  match span_digits r with
  | ((_ :: _) as a, c1 :: c2 :: r1) =>
      if Ascii.eqb c1 "#" && Ascii.eqb c2 "_" then
        match span_digits r1 with
        | ((_ :: _) as ts, c3 :: ((_ :: _) as ty)) =>
            if Ascii.eqb c3 "_" && negb (has_newline ty) && type_required (rev ty)
            then Some (mkRetryMatch (rev ty) (rev ts) (rev a))
            else None
        | _ => None
        end
      else None
  | _ => None
  end.

Definition RETRY_QUEUE_REGEX_match (name : string) : option RetryMatch :=
  match_type_timestamp_attempt (fun _ => true) name.

(** [re.sub("_#\d+$", "_#{:}".format(attempt), queue)] *)
Definition sub_attempt (attempt : Z) (queue : string) : string :=
  let (r, nl) := strip_final_newline (rev (Str.chars queue)) in
  match span_digits r with
  | (_ :: _, c1 :: c2 :: stem) =>
      if Ascii.eqb c1 "#" && Ascii.eqb c2 "_" then
        Str.of_chars (rev stem) ++ "_#" ++ Str.of_Z attempt ++ Str.of_chars nl
      else queue
  | _ => queue
  end.

(** ** Results of the batch engine and of the drive operations *)

(** [{"count": n}] with or without the key ["error"]. *)
Record BatchRet := mkBatchRet {
  count : Z;
  error : option PyVal
}.

(** ["error" in res] *)
Definition has_error (r : BatchRet) : bool :=
  match error r with Some _ => true | None => false end.

(** [{"total": n}] with or without the keys ["errors"] and ["is_overrun"]. *)
Record DriveRet := mkDriveRet {
  total : Z;
  errors : option (list PyVal);
  is_overrun : option bool
}.

(** [ret["total"] += n] *)
Definition add_total (r : DriveRet) (n : Z) : DriveRet :=
  mkDriveRet (total r + n) (errors r) (is_overrun r).

(** [ret.setdefault("errors", []).append(e)] *)
Definition append_error (r : DriveRet) (e : PyVal) : DriveRet :=
  mkDriveRet (total r) (Some (default [] (errors r) ++ [e])%list) (is_overrun r).

Definition len {A} (l : list A) : Z := Z.of_nat (length l).

(** The truth value of a list: [if queues:] *)
Definition nonempty {A} (l : list A) : bool :=
  match l with [] => false | _ => true end.

(** ** The class *)

Section CloudCache.

Context {Data : Type} (env : Env Data) (opts : Options).

(** *** Calls into the environment *)

Definition redis_lpush (key : string) (values : list string) : M unit :=
  emit (EvRedis (LPUSH key values));;
  match values with
  | [] => raise (OtherException "wrong number of arguments for 'lpush' command")
  | _ => with_db (fun d => (tt, Redis.lpush key values d))
  end.

Definition redis_lrange (key : string) (start stop : Z) : M (list string) :=
  emit (EvRedis (LRANGE key start stop));;
  with_db (fun d => (Redis.lrange key start stop d, d)).

Definition redis_delete (key : string) : M bool :=
  emit (EvRedis (DEL key));;
  with_db (Redis.del key).

Definition redis_keys (pattern : string) : M (list string) :=
  emit (EvRedis (KEYS pattern));;
  with_db (fun d => (Redis.keys pattern d, d)).

Definition redis_renamenx (src dst : string) : M bool :=
  emit (EvRedis (RENAMENX src dst));;
  d ← get_db;
  match Redis.renamenx src dst d with
  | Some (b, d') => with_db (fun _ => (b, d'))
  | None => raise (OtherException "no such key")
  end.

(** [pipeline().lpush(fail_queue, *entries).expire(fail_queue, ttl)
    .delete(queue).execute()]: a command that cannot be queued aborts the
    transaction as a whole. *)
Definition redis_push_expire_delete (fail_queue : string) (entries : list string)
    (seconds : Z) (queue : string) : M unit :=
  emit (EvRedisTransaction
          [LPUSH fail_queue entries; EXPIRE fail_queue seconds; DEL queue]);;
  match entries with
  | [] => raise (OtherException "wrong number of arguments for 'lpush' command")
  | _ =>
      with_db (fun d =>
        let d1 := Redis.lpush fail_queue entries d in
        let d2 := snd (Redis.expire fail_queue seconds d1) in
        (tt, snd (Redis.del queue d2)))
  end.

Definition random_randint (a b : Z) : M Z :=
  if b <? a then raise (OtherException "empty range for randrange()")
  else
    h ← get_trace;
    let r := a + Z.of_N (random_draw env h) mod (b - a + 1) in
    emit (EvRandint a b r);;
    mret r.

Definition read_timer : M Q :=
  h ← get_trace;
  let t := timer env h in
  emit (EvTimer t);;
  mret t.

Definition time_sleep (seconds : Z) : M unit :=
  if seconds <? 0 then raise (OtherException "sleep length must be non-negative")
  else emit (EvSleep seconds).

Definition datetime_utcnow : M DateTime :=
  h ← get_trace;
  let t := utcnow env h in
  emit (EvUtcnow t);;
  mret t.

Definition requests_post (req : Request) : M PostResult :=
  h ← get_trace;
  let r := http_post env h req in
  emit (EvPost req r);;
  mret r.

Definition get_upload_timer : M (option Q) := fun w => (Ok (upload_timer w), w).
Definition set_upload_timer (t : Q) : M unit :=
  fun w => (Ok tt, mkWorld (db w) (Some t) (trace w)).

(** *** [enqueue] *)
Definition enqueue (data : Data) : M unit :=
  redis_lpush PENDING_QUEUE [json_dumps env data].

(** *** [_dequeue_batch] *)
Definition _dequeue_batch (source destination : string) (count : Z)
  : M (list string) :=
  emit (EvRedis (EVALSHA_dequeue_batch source destination count));;
  with_db (Redis.dequeue_batch source destination count).

(** *** [list_queues] *)
Definition list_queues (pattern : string) (reverse : bool) : M (list string) :=
  res ← redis_keys pattern;
  mret (if reverse then rev (Str.sorted res) else Str.sorted res).

(** *** [clear_queue] *)
Definition clear_queue (name : string) : M bool := redis_delete name.

(** *** [_upload]

    [res.raise_for_status()] raises [HTTPError], a [RequestException], for
    the status codes 400 to 599. *)
Definition raise_for_status (req : Request) (status_code : Z) : M unit :=
  if (400 <=? status_code) && (status_code <? 600)
  then raise (RequestException (http_error_str env req status_code))
  else mret tt.

Definition _upload (entries : list string) (endpoint : option Endpoint)
    (splay_factor : Z) : M (bool * PyVal) :=
  emit (EvUpload entries splay_factor);;
  match (match endpoint with Some e => Some e | None => opt_endpoint opts end) with
  | None =>
      log WARNING "Cannot upload data to cloud because no endpoint is configured";;
      mret (false, PyStr "No cloud endpoint configured")
  | Some endpoint =>
      r ← random_randint 0 (upload_splay opts);
      let delay := r * splay_factor in
      t0 ← get_upload_timer;
      too_soon ← match t0 with
                 | None => mret false
                 | Some t0 =>
                     t ← read_timer;
                     mret (negb (Qle_bool (inject_Z delay) (t - t0)))
                 end;
      when too_soon
        (when (1 <? splay_factor)
           (log WARNING ("Increased upload delay of " ++ Str.of_Z delay ++ " seconds..."));;
         time_sleep delay);;
      let payload := "[" ++ Str.join ", " entries ++ "]" in
      let headers := [("authorization", "token " ++ py_str (auth_token endpoint));
                      ("content-type", "application/json")] in
      let req := mkRequest (url endpoint) payload headers in
      res ← requests_post req;
      t ← read_timer;
      set_upload_timer t;;
      match res with
      | PostRaised ex => mret (false, PyStr ex)
      | Responded status_code =>
          raise_for_status req status_code;;
          mret (true, PyNone)
      end
  end.

(** *** [_upload_batch] *)
Definition _upload_batch (source_queue work_queue : string) : M BatchRet :=
  batch ← _dequeue_batch source_queue work_queue (batch_size opts);
  match batch with
  | [] =>
      when (debug_enabled env)
        (log DEBUG ("No batch found to upload from source queue '" ++ source_queue ++ "'"));;
      mret (mkBatchRet 0 None)
  | _ =>
      '(ok, msg) ← _upload batch None 1;
      if ok : bool then
        log INFO ("Uploaded batch with " ++ Str.of_Z (len batch)
                  ++ " entries from source queue '" ++ source_queue ++ "'");;
        redis_delete work_queue;;
        mret (mkBatchRet (len batch) None)
      else
        log WARNING ("Temporarily unable to upload batch with " ++ Str.of_Z (len batch)
                     ++ " entries from source queue '" ++ source_queue ++ "'");;
        mret (mkBatchRet 0 (Some msg))
  end.

(** *** [_upload_batch_continuing]

    The [while] loop, with [res] the result of the last batch and [ret] the
    sum so far; it gives up when [fuel] iterations were not enough. *)
Fixpoint continuing_loop (fuel : nat) (source_queue work_queue : string)
    (res ret : BatchRet) : M BatchRet :=
  if negb (has_error res) && (count res =? batch_size opts) then
    match fuel with
    | O => diverge
    | S fuel' =>
        res ← _upload_batch source_queue work_queue;
        let ret := mkBatchRet (count ret + count res)
                     (match error res with Some e => Some e | None => error ret end) in
        continuing_loop fuel' source_queue work_queue res ret
    end
  else mret ret.

Definition _upload_batch_continuing (fuel : nat) (source_queue work_queue : string)
  : M BatchRet :=
  res ← _upload_batch source_queue work_queue;
  let ret := mkBatchRet (count res) (error res) in
  continuing_loop fuel source_queue work_queue res ret.

(** *** [upload_failing]

    The [for] loop runs inside the [try]; [ret] is the dict as the loop has
    left it so far.  The handler ends the loop, so it is attached to the call
    that can raise. *)
Fixpoint failing_loop (fuel : nat) (queues : list string) (ret : DriveRet)
  : M DriveRet :=
  match queues with
  | [] => mret ret
  | queue :: rest =>
      try_except (_upload_batch_continuing fuel queue FAIL_WORK_QUEUE)
        (fun res =>
           let ret := add_total ret (count res) in
           match error res with
           | Some e => mret (append_error ret e)
           | None => failing_loop fuel rest ret
           end)
        (fun rex =>
           let ret := append_error ret (PyStr rex) in
           log WARNING "Still unable to upload failed batch(es)";;
           mret ret)
  end.

Definition upload_failing (fuel : nat) : M DriveRet :=
  let ret := mkDriveRet 0 None None in
  queues ← list_queues "fail_*" false;
  when (nonempty queues)
    (log WARNING ("Found " ++ Str.of_Z (len queues) ++ " fail queue(s)"));;
  failing_loop fuel queues ret.

(** *** [upload_pending] *)
Definition upload_pending (fuel : nat) : M DriveRet :=
  let ret := mkDriveRet 0 None None in
  try_except (_upload_batch_continuing fuel PENDING_QUEUE PENDING_WORK_QUEUE)
    (fun res =>
       let ret := add_total ret (count res) in
       mret (match error res with
             | Some e => append_error ret e
             | None => ret
             end))
    (fun rex =>
       let ret := append_error ret (PyStr rex) in
       now ← datetime_utcnow;
       let retry_queue := RETRY_QUEUE now 0 in
       log WARNING ("Failed to upload pending batch - transferring to dedicated retry queue '"
                    ++ retry_queue ++ "'");;
       redis_renamenx PENDING_WORK_QUEUE retry_queue;;
       mret ret).

(** *** [upload_retrying]

    The body of the [for] loop, with the locals [remaining_count] and [ret]
    it updates. *)
Fixpoint retrying_loop (queues : list string) (remaining_count : Z)
    (ret : DriveRet) : M DriveRet :=
  match queues with
  | [] => mret ret
  | queue :: rest =>
      match RETRY_QUEUE_REGEX_match queue with
      | None =>
          log ERROR ("Failed to match retry queue name '" ++ queue ++ "'");;
          retrying_loop rest remaining_count ret
      | Some m =>
          let attempt := Str.int_of_digits (group_attempt m) + 1 in
          entries ← redis_lrange queue 0 (-1);
          try_except (_upload entries None remaining_count)
            (fun '(ok, msg) =>
               if ok : bool then
                 log INFO ("Sucessfully uploaded retry queue '" ++ queue ++ "'");;
                 redis_delete queue;;
                 retrying_loop rest (remaining_count - 1) (add_total ret (len entries))
               else
                 log WARNING "Temporarily unable to upload retry queue(s) - skipping remaining if present";;
                 mret (append_error ret msg))
            (fun rex =>
               let ret := append_error ret (PyStr rex) in
               log WARNING ("Failed retry attempt " ++ Str.of_Z attempt ++ "/"
                            ++ Str.of_Z (max_retry opts) ++ " for uploading queue '"
                            ++ queue ++ "'");;
               (if max_retry opts <=? attempt then
                  now ← datetime_utcnow;
                  let fail_queue := FAIL_QUEUE now in
                  log WARNING ("Max retry attempt reached for queue '" ++ queue
                               ++ "' - transferring to fail queue '" ++ fail_queue ++ "'");;
                  redis_push_expire_delete fail_queue entries (fail_ttl opts) queue
                else
                  redis_renamenx queue (sub_attempt attempt queue);;
                  mret tt);;
               retrying_loop rest remaining_count ret)
      end
  end.

Definition upload_retrying : M DriveRet :=
  let ret := mkDriveRet 0 None None in
  let queue_limit := retry_queue_limit opts in
  queues ← list_queues "retr_*" false;
  when (nonempty queues)
    (log WARNING ("Found " ++ Str.of_Z (len queues) ++ "/" ++ Str.of_Z queue_limit
                  ++ " retry queue(s)"));;
  let ret := mkDriveRet (total ret) (errors ret) (Some (queue_limit <=? len queues)) in
  let remaining_count := len queues in
  retrying_loop queues remaining_count ret.

End CloudCache.


(** * Checks on small inputs *)

Example regex_retry_name :
  RETRY_QUEUE_REGEX_match "retr_20240101000000000000_#12"
  = Some (mkRetryMatch (Str.chars "retr") (Str.chars "20240101000000000000")
            (Str.chars "12")).
Proof. reflexivity. Qed.

Example regex_longer_type :
  RETRY_QUEUE_REGEX_match "retr_x_1_#0"
  = Some (mkRetryMatch (Str.chars "retr_x") (Str.chars "1") (Str.chars "0")).
Proof. reflexivity. Qed.

Example regex_no_attempt : RETRY_QUEUE_REGEX_match "retr_not_a_timestamp" = None.
Proof. reflexivity. Qed.

Example sub_attempt_next :
  sub_attempt 10 "retr_20240101000000000000_#9" = "retr_20240101000000000000_#10".
Proof. reflexivity. Qed.

Example retry_queue_name :
  RETRY_QUEUE (mkDateTime 2024 1 2 3 4 5 6) 0 = "retr_20240102030405000006_#0".
Proof. reflexivity. Qed.

Example sorted_names :
  Str.sorted ["retr_9"; "retr_10"; "pend"] = ["pend"; "retr_10"; "retr_9"].
Proof. reflexivity. Qed.

Example lpush_order :
  Redis.contents "q" (Redis.lpush "q" ["a"; "b"; "c"] Redis.empty) = ["c"; "b"; "a"].
Proof. reflexivity. Qed.

Example lrange_inner :
  Redis.lrange "q" 1 (-2) (Redis.lpush "q" ["a"; "b"; "c"; "d"] Redis.empty) = ["c"; "b"].
Proof. reflexivity. Qed.

Example keys_by_pattern :
  Redis.keys "retr_*"
    (Redis.lpush "retr_x" ["a"] (Redis.lpush "pend" ["b"] Redis.empty)) = ["retr_x"].
Proof. vm_compute. reflexivity. Qed.

(** * Properties *)

(** ** The Redis model *)

Module RedisFacts.
Import Redis.

Lemma contents_set_list k k' l d :
  contents k' (set_list k l d) = if decide (k = k') then l else contents k' d.
Proof.
  unfold contents, set_list.
  destruct l; simpl; case_decide; subst;
    rewrite ?lookup_delete_eq, ?lookup_insert_eq; try done.
  - by rewrite lookup_delete_ne.
  - by rewrite lookup_insert_ne.
Qed.

Lemma exists_contents k d : exists_ k d = true <-> contents k d <> [].
Proof. unfold exists_. destruct (contents k d); split; congruence. Qed.

Lemma not_exists_contents k d : exists_ k d = false <-> contents k d = [].
Proof. unfold exists_. destruct (contents k d); split; congruence. Qed.

(** [LRANGE key 0 -1] reads the whole list. *)
Lemma lrange_all k d : lrange k 0 (-1) d = contents k d.
Proof.
  unfold lrange. set (l := contents k d).
  destruct l as [|x l']; [reflexivity|].
  cbn [length]. set (n := length l').
  replace (if 0 <? 0 then 0 + Z.of_nat (S n) else 0) with 0 by reflexivity.
  replace (if -1 <? 0 then -1 + Z.of_nat (S n) else -1) with (Z.of_nat n)
    by (assert (H : (-1 <? 0) = true) by reflexivity; rewrite H; lia).
  replace (if 0 <? 0 then 0 else 0) with 0 by reflexivity.
  assert (H1 : (Z.of_nat n <? 0) = false) by (apply Z.ltb_ge; lia).
  assert (H2 : (Z.of_nat (S n) <=? 0) = false) by (apply Z.leb_gt; lia).
  assert (H3 : (Z.of_nat (S n) <=? Z.of_nat n) = false) by (apply Z.leb_gt; lia).
  rewrite H1, H2, H3. cbn [orb].
  replace (Z.to_nat (Z.of_nat n - 0 + 1)) with (S n) by lia.
  change (Z.to_nat 0) with O. rewrite drop_0.
  apply take_ge. simpl. unfold n. lia.
Qed.

Lemma contents_lpush k k' vs d :
  contents k' (lpush k vs d) = if decide (k = k') then (rev vs ++ contents k d)%list else contents k' d.
Proof. unfold lpush. apply contents_set_list. Qed.

Lemma contents_del k k' d :
  contents k' (snd (del k d)) = if decide (k = k') then [] else contents k' d.
Proof.
  unfold del, contents. simpl. case_decide; subst.
  - by rewrite lookup_delete_eq.
  - by rewrite lookup_delete_ne.
Qed.

Lemma rpoplpush_empty src dst d :
  contents src d = [] -> rpoplpush src dst d = (None, d).
Proof. unfold rpoplpush. intros ->. reflexivity. Qed.

Lemma rpoplpush_snoc src dst d l v :
  contents src d = (l ++ [v])%list ->
  exists d', rpoplpush src dst d = (Some v, d') /\
    (src <> dst -> contents src d' = l /\ contents dst d' = v :: contents dst d) /\
    (forall k, k <> src -> k <> dst -> contents k d' = contents k d).
Proof.
  intros Hs. unfold rpoplpush. rewrite Hs, rev_unit, rev_involutive.
  eexists. split; [reflexivity|]. split.
  - intros Hne. rewrite !contents_set_list.
    repeat case_decide; try congruence. done.
  - intros k Hk1 Hk2. rewrite !contents_set_list.
    repeat case_decide; congruence.
Qed.

Lemma snoc_or_nil {A} (l : list A) : l = [] \/ exists l' x, l = (l' ++ [x])%list.
Proof.
  destruct l as [|a l] using rev_ind; [by left|right; eauto].
Qed.

(** The loop of the script moves [min i (length s)] entries, one
    [RPOPLPUSH] each. *)
Lemma dequeue_loop_spec i : forall src dst ret d,
  src <> dst ->
  let s := contents src d in
  let k := Nat.min i (length s) in
  exists d',
    dequeue_loop i src dst ret d
      = ((ret ++ rev (drop (length s - k) s))%list, d') /\
    d' = Nat.iter k (fun x => snd (rpoplpush src dst x)) d /\
    contents src d' = take (length s - k) s /\
    contents dst d' = (drop (length s - k) s ++ contents dst d)%list /\
    (forall q, q <> src -> q <> dst -> contents q d' = contents q d).
Proof.
  induction i as [|i IH]; intros src dst ret d Hne s k.
  - exists d. subst k. simpl. rewrite Nat.sub_0_r.
    rewrite drop_all, take_ge by lia. simpl. rewrite app_nil_r. done.
  - destruct (snoc_or_nil s) as [Hnil|(l & v & Hsnoc)].
    + exists d. subst k. rewrite Hnil. simpl.
      rewrite rpoplpush_empty by exact Hnil. rewrite app_nil_r. done.
    + destruct (rpoplpush_snoc src dst d l v Hsnoc) as (d1 & Hr & Hc & Ho).
      destruct (Hc Hne) as [Hc1 Hc2].
      destruct (IH src dst (ret ++ [v])%list d1 Hne) as (d' & He & Hit & Hs' & Hd' & Hq').
      rewrite Hc1 in *. rewrite Hc2 in Hd'.
      exists d'.
      assert (Hlen : length s = S (length l))
        by (rewrite Hsnoc, length_app; simpl; lia).
      assert (Hk : k = S (Nat.min i (length l))) by (subst k; rewrite Hlen; reflexivity).
      set (k' := Nat.min i (length l)) in *.
      assert (Hsub : (length s - k = length l - k')%nat) by lia.
      rewrite Hsub, Hsnoc.
      assert (Hk' : (k' <= length l)%nat) by (subst k'; lia).
      split; [|split; [|split; [|split]]].
      * simpl. rewrite Hr, He. f_equal.
        rewrite drop_app_le by lia. rewrite rev_app_distr. simpl.
        by rewrite <- app_assoc.
      * rewrite Hk. rewrite Nat.iter_succ_r. rewrite Hr. exact Hit.
      * rewrite Hs'. rewrite take_app_le by lia. done.
      * rewrite Hd'. rewrite drop_app_le by lia. by rewrite <- app_assoc.
      * intros q Hq1 Hq2. rewrite Hq' by done. by apply Ho.
Qed.

End RedisFacts.

(** ** The atomic batched move *)

Section DequeueBatch.
Import Redis RedisFacts.

(** The three cases of the script: the destination is not empty; it is
    empty and the source is not; both are empty. *)
Lemma dequeue_batch_cases (src dst : string) (n : Z) (d : Db) :
  let s := contents src d in
  let w := contents dst d in
  (w <> [] -> dequeue_batch src dst n d = (w, d)) /\
  (w = [] -> s <> [] ->
     let k := Z.to_nat (Z.min n (len s)) in
     let moved := drop (length s - k) s in
     exists d',
       dequeue_batch src dst n d = (rev moved, d') /\
       length moved = k /\
       d' = Nat.iter k (fun x => snd (rpoplpush src dst x)) d /\
       contents src d' = take (length s - k) s /\
       contents dst d' = moved /\
       (contents src d' ++ contents dst d')%list = s /\
       (forall q, q <> src -> q <> dst -> contents q d' = contents q d)) /\
  (w = [] -> s = [] -> dequeue_batch src dst n d = ([], d)).
Proof.
  intros s w. split; [|split].
  - intros Hw. unfold dequeue_batch. apply exists_contents in Hw. rewrite Hw.
    by rewrite lrange_all.
  - intros Hw Hs k moved. unfold dequeue_batch.
    assert (Hne : src <> dst) by (intros ->; subst s w; congruence).
    pose proof Hw as Hw'. apply not_exists_contents in Hw'. rewrite Hw'.
    pose proof Hs as Hs'. apply exists_contents in Hs'. rewrite Hs'.
    destruct (dequeue_loop_spec (Z.to_nat n) src dst [] d Hne)
      as (d' & He & Hit & Hsrc & Hdst & Hq).
    fold s in He, Hsrc, Hdst, Hit.
    assert (Hk : Nat.min (Z.to_nat n) (length s) = k).
    { subst k. unfold len. rewrite Z2Nat.inj_min, Nat2Z.id. reflexivity. }
    rewrite Hk in *. fold w in Hdst. rewrite Hw, app_nil_r in Hdst.
    exists d'. repeat split; try assumption.
    + subst moved. rewrite length_drop. lia.
    + rewrite Hsrc, Hdst. apply take_drop.
  - intros Hw Hs. unfold dequeue_batch.
    apply not_exists_contents in Hw. apply not_exists_contents in Hs.
    by rewrite Hw, Hs.
Qed.

(** C3. [dequeue_batch(source, destination, n)], for every database:
    (1) a non-empty destination is returned whole and nothing changes, the
    source included; (2) with the destination empty and the source not,
    [min(n, len(source))] entries go one [RPOPLPUSH] at a time from the
    source's tail to the destination's head, the script returns exactly
    these in the order it moved them, source followed by destination is
    afterwards the old source (nothing lost, nothing twice) and no other key
    changes; (3) with both empty it returns the empty list and changes
    nothing.  (A negative [n] moves nothing.) *)
Theorem dequeue_batch_contract (src dst : string) (n : Z) (d : Db) :
  let s := contents src d in
  let w := contents dst d in
  (w <> [] -> dequeue_batch src dst n d = (w, d)) /\
  (w = [] -> s <> [] ->
     let k := Z.to_nat (Z.min n (len s)) in
     let moved := drop (length s - k) s in
     exists d',
       dequeue_batch src dst n d = (rev moved, d') /\
       length moved = k /\
       d' = Nat.iter k (fun x => snd (rpoplpush src dst x)) d /\
       contents src d' = take (length s - k) s /\
       contents dst d' = moved /\
       (contents src d' ++ contents dst d')%list = s /\
       (forall q, q <> src -> q <> dst -> contents q d' = contents q d)) /\
  (w = [] -> s = [] -> dequeue_batch src dst n d = ([], d)).
Proof. apply dequeue_batch_cases. Qed.

Definition demo_db : Db := lpush "pend" ["A"; "B"; "C"] Redis.empty.

Lemma dequeue_batch_contract_witness :
  dequeue_batch "pend.work" "pend" 2 demo_db = (["C"; "B"; "A"], demo_db) /\
  (exists d', dequeue_batch "pend" "pend.work" 2 demo_db = (["A"; "B"], d')) /\
  dequeue_batch "a" "b" 2 demo_db = ([], demo_db).
Proof.
  split; [|split].
  - apply (dequeue_batch_contract "pend.work" "pend" 2 demo_db).
    vm_compute. discriminate.
  - destruct (dequeue_batch_contract "pend" "pend.work" 2 demo_db) as (_ & H & _).
    destruct H as (d' & H & _); [reflexivity | vm_compute; discriminate |].
    exists d'. exact H.
  - apply (dequeue_batch_contract "a" "b" 2 demo_db); reflexivity.
Defined.

End DequeueBatch.

(** ** Running the monad by hand *)

Ltac munfold :=
  cbv [mbind mret M_bind M_ret bind ret raise diverge try_except emit log when
       with_db get_db get_trace get_upload_timer set_upload_timer
       redis_lpush redis_lrange redis_delete redis_keys redis_renamenx
       redis_push_expire_delete random_randint read_timer time_sleep
       datetime_utcnow requests_post raise_for_status
       db upload_timer trace].

Ltac frame_done :=
  cbn [snd fst db trace]; repeat rewrite <- app_assoc; cbn [app];
  eexists; (split; [|split; [reflexivity|split; [reflexivity|]]]);
  [repeat constructor
  |cbn; repeat match goal with H : (_ && _) = _ |- _ => rewrite H end; reflexivity].

Ltac trace_norm := repeat rewrite <- app_assoc; cbn [app].

(** ** The uploader *)

Definition payload_of (entries : list string) : string :=
  "[" ++ Str.join ", " entries ++ "]".

Definition request_of (endpoint : Endpoint) (entries : list string) : Request :=
  mkRequest (url endpoint) (payload_of entries)
    [("authorization", "token " ++ py_str (auth_token endpoint));
     ("content-type", "application/json")].

(** Events of the pacing that precedes the request. *)
Definition is_pacing (ev : Event) : Prop :=
  match ev with
  | EvRandint _ _ _ | EvTimer _ | EvSleep _ | EvLog _ _ => True
  | _ => False
  end.

Section Upload.
Context {Data : Type} (env : Env Data) (opts : Options).

(** What [_upload] makes of the outcome of its request. *)
Definition classify (req : Request) (res : PostResult) : Res (bool * PyVal) :=
  match res with
  | PostRaised ex => Ok (false, PyStr ex)
  | Responded c =>
      if (400 <=? c) && (c <? 600)
      then Raised (RequestException (http_error_str env req c))
      else Ok (true, PyNone)
  end.

(** [endpoint or self.options.get("endpoint", {})] *)
Definition effective_endpoint (endpoint : option Endpoint) : option Endpoint :=
  match endpoint with Some e => Some e | None => opt_endpoint opts end.

Lemma upload_no_endpoint entries endpoint sf w :
  effective_endpoint endpoint = None ->
  _upload env opts entries endpoint sf w =
    (Ok (false, PyStr "No cloud endpoint configured"),
     mkWorld (db w) (upload_timer w)
       (trace w ++ [EvUpload entries sf;
                    EvLog WARNING "Cannot upload data to cloud because no endpoint is configured"])).
Proof.
  unfold effective_endpoint. intros H. unfold _upload. rewrite H.
  munfold. destruct w; simpl. by trace_norm.
Qed.


Lemma upload_configured entries endpoint sf w ep :
  effective_endpoint endpoint = Some ep -> 0 <= upload_splay opts -> 0 <= sf ->
  exists pre, Forall is_pacing pre /\
    let h := (trace w ++ EvUpload entries sf :: pre)%list in
    let req := request_of ep entries in
    let res := http_post env h req in
    let t := timer env (h ++ [EvPost req res]) in
    _upload env opts entries endpoint sf w =
      (classify req res,
       mkWorld (db w) (Some t) (h ++ [EvPost req res; EvTimer t])).
Proof.
  unfold effective_endpoint. intros Hep Hsplay Hsf. unfold _upload. rewrite Hep.
  destruct w as [d ut tr]. munfold.
  destruct (Z.ltb_spec (upload_splay opts) 0) as [?|_]; [lia|].
  set (r := 0 + _ `mod` _).
  assert (Hr : 0 <= r * sf).
  { apply Z.mul_nonneg_nonneg; [|done]. subst r.
    pose proof (Z.mod_pos_bound (Z.of_N (random_draw env (tr ++ [EvUpload entries sf])))
                  (upload_splay opts - 0 + 1)). lia. }
  assert (Hsleep : (r * sf <? 0) = false) by (apply Z.ltb_ge; lia).
  unfold classify, request_of, payload_of.
  destruct ut as [t0|]; cbv beta iota zeta;
    [destruct (negb (Qle_bool _ _)); cbv beta iota zeta;
       [destruct (1 <? sf); cbv beta iota zeta; rewrite Hsleep; cbv beta iota zeta|]|];
    trace_norm;
    match goal with
    | |- context [http_post env (tr ++ EvUpload entries sf :: ?pre)%list _] => exists pre
    end;
    (split; [repeat constructor|]);
    cbv zeta; trace_norm;
    (destruct (http_post env _ _); cbv beta iota zeta; [|reflexivity]);
    destruct (_ && _); reflexivity.
Qed.

(** Whatever happens, [_upload] leaves the database alone, and what it adds
    to the history is its own entry, pacing, and at most requests whose body
    is made of [entries]. *)
Definition upload_event (entries : list string) (ev : Event) : Prop :=
  match ev with
  | EvPost req _ => req_data req = payload_of entries
  | ev => is_pacing ev
  end.

(** A request that was answered, and not with an error status: the upload
    it belongs to returns [ok = True]. *)
Definition post_succeeded (ev : Event) : bool :=
  match ev with
  | EvPost _ (Responded c) => negb ((400 <=? c) && (c <? 600))
  | _ => false
  end.

Fixpoint successes (evs : list Event) : nat :=
  match evs with
  | [] => O
  | ev :: rest => ((if post_succeeded ev then 1 else 0) + successes rest)%nat
  end.

Lemma upload_frame entries ep sf w :
  exists evs, Forall (upload_event entries) evs /\
    db (snd (_upload env opts entries ep sf w)) = db w /\
    trace (snd (_upload env opts entries ep sf w))
      = (trace w ++ EvUpload entries sf :: evs)%list /\
    successes evs = match fst (_upload env opts entries ep sf w) with
                    | Ok (true, _) => 1%nat
                    | _ => O
                    end.
Proof.
  unfold _upload. destruct w as [d ut tr]. munfold.
  destruct (match ep with Some e => Some e | None => opt_endpoint opts end) as [e|];
    cbv beta iota zeta.
  2: { frame_done. }
  destruct (upload_splay opts <? 0); cbv beta iota zeta.
  { exists []. cbn. repeat split. constructor. }
  destruct ut as [t0|]; cbv beta iota zeta;
    [destruct (negb (Qle_bool _ _)); cbv beta iota zeta;
       [destruct (1 <? sf); cbv beta iota zeta;
        (destruct (_ * sf <? 0); cbv beta iota zeta; [frame_done|])|]|];
    (destruct (http_post env _ _); cbv beta iota zeta; [|frame_done]);
    destruct (_ && _) eqn:Hcond; frame_done.
Qed.

(** C5, as the code has it.  [_upload] classifies every outcome: with no
    endpoint configured it returns [(False, "No cloud endpoint configured")]
    and issues no request; otherwise it issues exactly one request, and a
    2xx response returns [(True, None)], a 4xx or 5xx response raises the
    [RequestException] of [raise_for_status], an exception of the request
    itself returns [(False, str(ex))] without raising. *)
Theorem upload_classification entries endpoint sf w :
  0 <= upload_splay opts -> 0 <= sf ->
  match effective_endpoint endpoint with
  | None =>
      _upload env opts entries endpoint sf w =
        (Ok (false, PyStr "No cloud endpoint configured"),
         mkWorld (db w) (upload_timer w)
           (trace w ++ [EvUpload entries sf;
                        EvLog WARNING "Cannot upload data to cloud because no endpoint is configured"]))
  | Some ep =>
      exists pre r w', Forall is_pacing pre /\
        let h := (trace w ++ EvUpload entries sf :: pre)%list in
        let req := request_of ep entries in
        let res := http_post env h req in
        _upload env opts entries endpoint sf w = (r, w') /\
        db w' = db w /\
        (exists t, trace w' = (h ++ [EvPost req res; EvTimer t])%list) /\
        match res with
        | Responded c =>
            (200 <= c < 300 -> r = Ok (true, PyNone)) /\
            (400 <= c < 600 -> r = Raised (RequestException (http_error_str env req c)))
        | PostRaised ex => r = Ok (false, PyStr ex)
        end
  end.
Proof.
  intros Hsplay Hsf.
  destruct (effective_endpoint endpoint) as [ep|] eqn:Hep.
  - destruct (upload_configured entries endpoint sf w ep Hep Hsplay Hsf)
      as (pre & Hpre & Hrun).
    cbv zeta in Hrun.
    exists pre. do 2 eexists. split; [exact Hpre|]. cbv zeta.
    split; [exact Hrun|]. split; [reflexivity|]. split; [eexists; reflexivity|].
    unfold classify. destruct (http_post env _ _) as [c|ex]; [|reflexivity].
    split; intros Hc.
    + assert (H : (400 <=? c) && (c <? 600) = false)
        by (apply andb_false_iff; left; apply Z.leb_gt; lia).
      by rewrite H.
    + assert (H : (400 <=? c) && (c <? 600) = true)
        by (apply andb_true_iff; split; [apply Z.leb_le|apply Z.ltb_lt]; lia).
      by rewrite H.
  - by apply upload_no_endpoint.
Qed.

End Upload.

(** ** Concrete environments *)

Module Demo.

(** A server that always answers [res]; a clock that stands still. *)
Definition env_of (res : PostResult) : Env string :=
  mkEnv string (fun s => s) (fun _ _ => res)
    (fun _ c => Str.of_Z c ++ " Error") (fun _ => 0%N) (fun _ => 0%Q)
    (fun _ => mkDateTime 2024 1 1 0 0 0 0) false.

Definition endpoint0 : Endpoint := mkEndpoint (Some "https://cloud") (Some "secret").

Definition opts0 : Options := mkOptions (Some endpoint0) None None None None None.
Definition opts_no_endpoint : Options := mkOptions None None None None None None.

End Demo.

Lemma upload_classification_witness :
  fst (_upload (Demo.env_of (Responded 200)) Demo.opts0 ["A"] None 1 initial)
    = Ok (true, PyNone) /\
  fst (_upload (Demo.env_of (Responded 500)) Demo.opts0 ["A"] None 1 initial)
    = Raised (RequestException "500 Error") /\
  fst (_upload (Demo.env_of (PostRaised "unreachable")) Demo.opts0 ["A"] None 1 initial)
    = Ok (false, PyStr "unreachable").
Proof.
  assert (H0 : 0 <= upload_splay Demo.opts0) by (vm_compute; discriminate).
  assert (H1 : 0 <= 1) by lia.
  split; [|split].
  - destruct (upload_classification (Demo.env_of (Responded 200)) Demo.opts0
                ["A"] None 1 initial H0 H1) as (pre & r & w' & _ & Hrun & _ & _ & Hc & _).
    rewrite Hrun. apply Hc. lia.
  - destruct (upload_classification (Demo.env_of (Responded 500)) Demo.opts0
                ["A"] None 1 initial H0 H1) as (pre & r & w' & _ & Hrun & _ & _ & _ & Hc).
    rewrite Hrun. apply Hc. lia.
  - destruct (upload_classification (Demo.env_of (PostRaised "unreachable")) Demo.opts0
                ["A"] None 1 initial H0 H1) as (pre & r & w' & _ & Hrun & _ & _ & Hc).
    rewrite Hrun. apply Hc.
Defined.

(** C5 as stated fails twice: the message returned without an endpoint is
    not ["no endpoint configured"], and a response that is not 2xx, here
    304, does not raise. *)
Lemma upload_classification_counterexample :
  fst (_upload (Demo.env_of (Responded 200)) Demo.opts_no_endpoint ["A"] None 1 initial)
    <> Ok (false, PyStr "no endpoint configured") /\
  ~ (200 <= 304 < 300) /\
  fst (_upload (Demo.env_of (Responded 304)) Demo.opts0 ["A"] None 1 initial)
    = Ok (true, PyNone).
Proof.
  split; [|split].
  - vm_compute. discriminate.
  - lia.
  - vm_compute. reflexivity.
Qed.

(** ** The batch engine *)

(** The world with more history, and with another database. *)
Definition extend (w : World) (evs : list Event) : World :=
  mkWorld (db w) (upload_timer w) (trace w ++ evs).
Definition set_db (w : World) (d : Redis.Db) : World :=
  mkWorld d (upload_timer w) (trace w).

Section BatchEngine.
Context {Data : Type} (env : Env Data) (opts : Options).

(** The world right after the script has run. *)
Definition dequeued (src work : string) (w : World) : World :=
  extend (set_db w (snd (Redis.dequeue_batch src work (batch_size opts) (db w))))
    [EvRedis (EVALSHA_dequeue_batch src work (batch_size opts))].

Definition log_no_batch (src : string) : Event :=
  EvLog DEBUG ("No batch found to upload from source queue '" ++ src ++ "'").
Definition log_uploaded (batch : list string) (src : string) : Event :=
  EvLog INFO ("Uploaded batch with " ++ Str.of_Z (len batch)
              ++ " entries from source queue '" ++ src ++ "'").
Definition log_unable (batch : list string) (src : string) : Event :=
  EvLog WARNING ("Temporarily unable to upload batch with " ++ Str.of_Z (len batch)
                 ++ " entries from source queue '" ++ src ++ "'").

(** [_upload_batch], one step after the other. *)
Lemma upload_batch_unfold src work w :
  _upload_batch env opts src work w =
    let batch := fst (Redis.dequeue_batch src work (batch_size opts) (db w)) in
    let w1 := dequeued src work w in
    match batch with
    | [] => (Ok (mkBatchRet 0 None),
             if debug_enabled env then extend w1 [log_no_batch src] else w1)
    | _ =>
        match _upload env opts batch None 1 w1 with
        | (Ok (true, _), w2) =>
            (Ok (mkBatchRet (len batch) None),
             extend (set_db w2 (snd (Redis.del work (db w2))))
               [log_uploaded batch src; EvRedis (DEL work)])
        | (Ok (false, msg), w2) =>
            (Ok (mkBatchRet 0 (Some msg)), extend w2 [log_unable batch src])
        | (Raised e, w2) => (Raised e, w2)
        | (OutOfFuel, w2) => (OutOfFuel, w2)
        end
    end.
Proof.
  unfold _upload_batch, _dequeue_batch, dequeued, extend, set_db.
  destruct w as [d ut tr]. munfold.
  destruct (Redis.dequeue_batch src work (batch_size opts) d) as [batch d1].
  cbv beta iota zeta. cbn [fst snd].
  destruct batch as [|b batch'].
  - destruct (debug_enabled env); reflexivity.
  - destruct (_upload env opts (b :: batch') None 1 _) as [[[[] msg]| |] [d2 ut2 tr2]];
      cbv beta iota zeta; try reflexivity.
    + unfold Redis.del. cbn [fst snd]. by trace_norm.
Qed.

(** The loop of [_upload_batch_continuing] stops at once after an error or
    a batch that is not full. *)
Lemma continuing_loop_stop fuel src work res ret w :
  negb (has_error res) && (count res =? batch_size opts) = false ->
  continuing_loop env opts fuel src work res ret w = (Ok ret, w).
Proof. intros H. destruct fuel; simpl; rewrite H; reflexivity. Qed.

Lemma upload_batch_continuing_unfold fuel src work w :
  _upload_batch_continuing env opts fuel src work w =
    match _upload_batch env opts src work w with
    | (Ok res, w') =>
        continuing_loop env opts fuel src work res (mkBatchRet (count res) (error res)) w'
    | (Raised e, w') => (Raised e, w')
    | (OutOfFuel, w') => (OutOfFuel, w')
    end.
Proof. reflexivity. Qed.

End BatchEngine.

(** ** Transport failure *)

Section TransportFailure.
Context {Data : Type} (env : Env Data) (opts : Options).
Import Redis RedisFacts.

Lemma enqueue_run (a : Data) w :
  enqueue env a w =
    (Ok tt, extend (set_db w (lpush PENDING_QUEUE [json_dumps env a] (db w)))
              [EvRedis (LPUSH PENDING_QUEUE [json_dumps env a])]).
Proof. destruct w. reflexivity. Qed.

(** [_upload_batch] when the upload comes back with [ok = False]. *)
Lemma upload_batch_failed src work w msg w2 :
  fst (dequeue_batch src work (batch_size opts) (db w)) <> [] ->
  _upload env opts (fst (dequeue_batch src work (batch_size opts) (db w))) None 1
    (dequeued opts src work w) = (Ok (false, msg), w2) ->
  _upload_batch env opts src work w =
    (Ok (mkBatchRet 0 (Some msg)),
     extend w2 [log_unable (fst (dequeue_batch src work (batch_size opts) (db w))) src]).
Proof.
  intros Hne Hup. rewrite upload_batch_unfold. cbv zeta.
  destruct (fst (dequeue_batch src work (batch_size opts) (db w))); [done|].
  by rewrite Hup.
Qed.

Lemma upload_pending_failed fuel w msg w2 :
  fst (dequeue_batch PENDING_QUEUE PENDING_WORK_QUEUE (batch_size opts) (db w)) <> [] ->
  _upload env opts
    (fst (dequeue_batch PENDING_QUEUE PENDING_WORK_QUEUE (batch_size opts) (db w))) None 1
    (dequeued opts PENDING_QUEUE PENDING_WORK_QUEUE w) = (Ok (false, msg), w2) ->
  exists ev,
  upload_pending env opts fuel w =
    (Ok (mkDriveRet 0 (Some [msg]) None), extend w2 [ev]).
Proof.
  intros Hne Hup. eexists.
  unfold upload_pending, try_except.
  rewrite upload_batch_continuing_unfold.
  rewrite (upload_batch_failed _ _ _ _ _ Hne Hup).
  rewrite continuing_loop_stop by reflexivity.
  reflexivity.
Qed.


(** The script on an empty work queue and a pending queue of one entry. *)
Lemma dequeue_single src dst n x d :
  0 < n -> contents dst d = [] -> contents src d = [x] ->
  exists d', dequeue_batch src dst n d = ([x], d') /\
    contents src d' = [] /\ contents dst d' = [x] /\
    (forall q, q <> src -> q <> dst -> contents q d' = contents q d).
Proof.
  intros Hn Hd Hs.
  destruct (dequeue_batch_cases src dst n d) as (_ & H & _).
  destruct H as (d' & He & _ & _ & Hsrc & Hdst & _ & Hq); [done|by rewrite Hs|].
  rewrite Hs in *. unfold len in *. cbn [length] in *.
  replace (Z.to_nat (Z.min n (Z.of_nat 1))) with 1%nat in * by lia.
  cbn in He, Hsrc, Hdst. eauto.
Qed.

(** C1, as the code has it.  When the script yields a non-empty batch and
    [_upload] comes back with [ok = False], [_upload_batch] returns
    [{"count": 0, "error": msg}] (the count stays at its initial 0), and the
    database is as the script left it, the work queue holding the batch.
    In particular, with [pend] and [pend.work] empty, enqueueing one entry
    and driving [upload_pending] while the request raises returns
    [{"total": 0, "errors": [msg]}], leaves the entry alone in [pend.work]
    and changes no other queue, so no retry queue is made. *)
Theorem upload_batch_transport_failure :
  (forall src work w msg w2,
     let batch := fst (dequeue_batch src work (batch_size opts) (db w)) in
     batch <> [] ->
     _upload env opts batch None 1 (dequeued opts src work w) = (Ok (false, msg), w2) ->
     exists w',
       _upload_batch env opts src work w = (Ok (mkBatchRet 0 (Some msg)), w') /\
       db w' = snd (dequeue_batch src work (batch_size opts) (db w)) /\
       (contents work (db w') = batch \/ contents work (db w') = rev batch)) /\
  (forall ep msg (a : Data) fuel w,
     opt_endpoint opts = Some ep -> 0 <= upload_splay opts -> 0 < batch_size opts ->
     (forall h req, http_post env h req = PostRaised msg) ->
     contents PENDING_QUEUE (db w) = [] ->
     contents PENDING_WORK_QUEUE (db w) = [] ->
     exists w1 w',
       enqueue env a w = (Ok tt, w1) /\
       upload_pending env opts fuel w1
         = (Ok (mkDriveRet 0 (Some [PyStr msg]) None), w') /\
       contents PENDING_WORK_QUEUE (db w') = [json_dumps env a] /\
       contents PENDING_QUEUE (db w') = [] /\
       (forall q, q <> PENDING_QUEUE -> q <> PENDING_WORK_QUEUE ->
                  contents q (db w') = contents q (db w))).
Proof.
  split.
  - intros src work w msg w2 batch Hne Hup.
    exists (extend w2 [log_unable batch src]).
    split; [exact (upload_batch_failed src work w msg w2 Hne Hup)|].
    destruct (upload_frame env opts batch None 1 (dequeued opts src work w))
      as (evs & _ & Hdb & _).
    fold batch in Hup. rewrite Hup in Hdb. cbn [snd] in Hdb.
    assert (Hd : db (extend w2 [log_unable batch src])
                 = snd (dequeue_batch src work (batch_size opts) (db w)))
      by (cbn [extend db]; rewrite Hdb; reflexivity).
    split; [exact Hd|]. rewrite Hd.
    destruct (dequeue_batch_cases src work (batch_size opts) (db w)) as (H1 & H2 & H3).
    destruct (contents work (db w)) as [|x wl] eqn:Hw.
    + destruct (contents src (db w)) as [|y sl] eqn:Hs.
      * exfalso. apply Hne. subst batch. by rewrite H3.
      * destruct H2 as (d' & He & _ & _ & _ & Hdst & _); [done..|].
        right. subst batch. rewrite He. cbn [fst snd].
        by rewrite rev_involutive.
    + left. subst batch. rewrite H1 by done. cbn [fst snd]. exact Hw.
  - intros ep msg a fuel w Hep Hsplay Hbs Hpost Hpend Hwork.
    rewrite enqueue_run.
    set (w1 := extend _ _).
    assert (Hp1 : contents PENDING_QUEUE (db w1) = [json_dumps env a]).
    { subst w1. cbn [extend set_db db]. rewrite contents_lpush.
      rewrite decide_True by done. by rewrite Hpend. }
    assert (Hw1 : contents PENDING_WORK_QUEUE (db w1) = []).
    { subst w1. cbn [extend set_db db]. rewrite contents_lpush.
      by rewrite decide_False. }
    assert (Ho1 : forall q, q <> PENDING_QUEUE -> contents q (db w1) = contents q (db w)).
    { intros q Hq. subst w1. cbn [extend set_db db]. rewrite contents_lpush.
      by rewrite decide_False. }
    destruct (dequeue_single PENDING_QUEUE PENDING_WORK_QUEUE (batch_size opts)
                (json_dumps env a) (db w1) Hbs Hw1 Hp1) as (d' & He & Hs' & Hd' & Hq').
    destruct (upload_configured env opts [json_dumps env a] None 1
                (dequeued opts PENDING_QUEUE PENDING_WORK_QUEUE w1) ep Hep Hsplay)
      as (pre & _ & Hrun); [lia|].
    cbv zeta in Hrun. rewrite Hpost in Hrun. cbn [classify] in Hrun.
    match type of Hrun with _ = (_, ?w2) =>
      destruct (upload_pending_failed fuel w1 (PyStr msg) w2) as (ev & Hrun');
        [by rewrite He| rewrite He; exact Hrun |]
    end.
    eexists. eexists. split; [reflexivity|].
    rewrite Hrun'. split; [reflexivity|].
    cbn [extend dequeued set_db db]. rewrite He. cbn [snd].
    repeat split; try assumption.
    intros q Hq1 Hq2. rewrite Hq' by done. by apply Ho1.
Qed.

End TransportFailure.

Lemma upload_batch_transport_failure_witness :
  let env := Demo.env_of (PostRaised "unreachable") in
  exists w1 w',
    enqueue env "A" initial = (Ok tt, w1) /\
    upload_pending env Demo.opts0 0 w1
      = (Ok (mkDriveRet 0 (Some [PyStr "unreachable"]) None), w') /\
    Redis.contents PENDING_WORK_QUEUE (db w') = ["A"] /\
    Redis.all_keys (db w') = [PENDING_WORK_QUEUE] /\
    fst (_upload_batch env Demo.opts0 PENDING_QUEUE PENDING_WORK_QUEUE w1)
      = Ok (mkBatchRet 0 (Some (PyStr "unreachable"))).
Proof.
  intros env.
  destruct (upload_batch_transport_failure env Demo.opts0) as [H1 H2].
  destruct (H2 Demo.endpoint0 "unreachable" "A" 0%nat initial)
    as (w1 & w' & He & Hp & Hw & _ & _);
    [reflexivity | vm_compute; discriminate | reflexivity | reflexivity
    | reflexivity | reflexivity |].
  exists w1, w'. split; [exact He|]. split; [exact Hp|]. split; [exact Hw|].
  assert (Hw1 : w1 = snd (enqueue env "A" initial)) by (rewrite He; reflexivity).
  assert (Hw' : w' = snd (upload_pending env Demo.opts0 0 w1)) by (rewrite Hp; reflexivity).
  split.
  - rewrite Hw', Hw1. vm_compute. reflexivity.
  - destruct (H1 PENDING_QUEUE PENDING_WORK_QUEUE w1 (PyStr "unreachable")
                (snd (_upload env Demo.opts0 ["A"] None 1
                        (dequeued Demo.opts0 PENDING_QUEUE PENDING_WORK_QUEUE w1))))
      as (w'' & Hb & _).
    + rewrite Hw1. vm_compute. discriminate.
    + rewrite Hw1. vm_compute. reflexivity.
    + rewrite Hb. reflexivity.
Defined.

(** C1 as stated fails: the count returned with the error is 0, not the
    size of the batch, and so is the total of [upload_pending]. *)
Lemma upload_batch_transport_failure_counterexample :
  let env := Demo.env_of (PostRaised "unreachable") in
  let w1 := snd (enqueue env "A" initial) in
  fst (_upload_batch env Demo.opts0 PENDING_QUEUE PENDING_WORK_QUEUE w1)
    = Ok (mkBatchRet 0 (Some (PyStr "unreachable"))) /\
  fst (upload_pending env Demo.opts0 1 w1)
    = Ok (mkDriveRet 0 (Some [PyStr "unreachable"]) None) /\
  fst (upload_pending env Demo.opts0 1 w1)
    <> Ok (mkDriveRet 1 (Some [PyStr "unreachable"]) None).
Proof.
  repeat split; vm_compute; congruence.
Qed.

(** ** The happy path *)

(** The requests of a stretch of history, oldest first. *)
Definition posts (evs : list Event) : list Request :=
  omap (fun ev => match ev with EvPost req _ => Some req | _ => None end) evs.

(** The arguments of the calls of [_upload]. *)
Definition uploads (evs : list Event) : list (list string * Z) :=
  omap (fun ev => match ev with EvUpload es sf => Some (es, sf) | _ => None end) evs.

Lemma posts_app evs1 evs2 : posts (evs1 ++ evs2) = (posts evs1 ++ posts evs2)%list.
Proof. apply omap_app. Qed.

Lemma uploads_app evs1 evs2 : uploads (evs1 ++ evs2) = (uploads evs1 ++ uploads evs2)%list.
Proof. apply omap_app. Qed.

Lemma posts_pacing evs : Forall is_pacing evs -> posts evs = [].
Proof.
  induction 1 as [|ev evs Hev _ IH]; [reflexivity|].
  destruct ev; try done; exact IH.
Qed.

Lemma uploads_pacing evs : Forall is_pacing evs -> uploads evs = [].
Proof.
  induction 1 as [|ev evs Hev _ IH]; [reflexivity|].
  destruct ev; try done; exact IH.
Qed.

Section HappyPath.
Context {Data : Type} (env : Env Data) (opts : Options).
Import Redis RedisFacts.

(** [_upload_batch] when the upload succeeds. *)
Lemma upload_batch_succeeded src work w v w2 :
  fst (dequeue_batch src work (batch_size opts) (db w)) <> [] ->
  _upload env opts (fst (dequeue_batch src work (batch_size opts) (db w))) None 1
    (dequeued opts src work w) = (Ok (true, v), w2) ->
  let batch := fst (dequeue_batch src work (batch_size opts) (db w)) in
  _upload_batch env opts src work w =
    (Ok (mkBatchRet (len batch) None),
     extend (set_db w2 (snd (del work (db w2))))
       [log_uploaded batch src; EvRedis (DEL work)]).
Proof.
  intros Hne Hup. rewrite upload_batch_unfold. cbv zeta.
  destruct (fst (dequeue_batch src work (batch_size opts) (db w))); [done|].
  by rewrite Hup.
Qed.

(** What a server that answers 2xx makes of [classify]. *)
Lemma classify_2xx req c : 200 <= c < 300 -> classify env req (Responded c) = Ok (true, PyNone).
Proof.
  intros Hc. unfold classify.
  assert (H : (400 <=? c) && (c <? 600) = false)
    by (apply andb_false_iff; left; apply Z.leb_gt; lia).
  by rewrite H.
Qed.

Lemma classify_4xx_5xx req c :
  400 <= c < 600 ->
  classify env req (Responded c) = Raised (RequestException (http_error_str env req c)).
Proof.
  intros Hc. unfold classify.
  assert (H : (400 <=? c) && (c <? 600) = true)
    by (apply andb_true_iff; split; [apply Z.leb_le|apply Z.ltb_lt]; lia).
  by rewrite H.
Qed.

(** C2, as the code has it.  With [pend] and [pend.work] empty, three
    records enqueued in the order A, B, C, a batch size above three and a
    server answering 2xx, [upload_pending] issues exactly one request, whose
    body lists the entries in the order they were enqueued, ["[A, B, C]"],
    returns [{"total": 3}] and leaves [pend] and [pend.work] empty and the
    other queues as they were. *)
Theorem upload_pending_happy_path ep (a b c : Data) fuel w :
  opt_endpoint opts = Some ep -> 0 <= upload_splay opts -> 3 < batch_size opts ->
  (forall h req, exists code, http_post env h req = Responded code /\ 200 <= code < 300) ->
  contents PENDING_QUEUE (db w) = [] ->
  contents PENDING_WORK_QUEUE (db w) = [] ->
  let A := json_dumps env a in
  let B := json_dumps env b in
  let C := json_dumps env c in
  exists w3 w' evs,
    (enqueue env a;; enqueue env b;; enqueue env c) w = (Ok tt, w3) /\
    contents PENDING_QUEUE (db w3) = [C; B; A] /\
    upload_pending env opts fuel w3 = (Ok (mkDriveRet 3 None None), w') /\
    trace w' = (trace w3 ++ evs)%list /\
    posts evs = [request_of ep [A; B; C]] /\
    req_data (request_of ep [A; B; C]) = "[" ++ (A ++ ", " ++ B ++ ", " ++ C) ++ "]" /\
    contents PENDING_QUEUE (db w') = [] /\
    contents PENDING_WORK_QUEUE (db w') = [] /\
    (forall q, q <> PENDING_QUEUE -> q <> PENDING_WORK_QUEUE ->
               contents q (db w') = contents q (db w)).
Proof.
  intros Hep Hsplay Hbs Hpost Hpend Hwork A B C.
  assert (He3 : (enqueue env a;; enqueue env b;; enqueue env c) w
                = (Ok tt,
                   extend (set_db w (lpush PENDING_QUEUE [C]
                                       (lpush PENDING_QUEUE [B]
                                          (lpush PENDING_QUEUE [A] (db w)))))
                     [EvRedis (LPUSH PENDING_QUEUE [A]); EvRedis (LPUSH PENDING_QUEUE [B]);
                      EvRedis (LPUSH PENDING_QUEUE [C])])).
  { destruct w as [d ut tr]. unfold mbind, M_bind, bind. rewrite !enqueue_run.
    unfold extend, set_db. cbn [db upload_timer trace]. by trace_norm. }
  rewrite He3. set (w3 := extend _ _).
  assert (Hp3 : contents PENDING_QUEUE (db w3) = [C; B; A]).
  { subst w3. cbn [extend set_db db]. rewrite !contents_lpush.
    rewrite !decide_True by done. by rewrite Hpend. }
  assert (Hw3 : contents PENDING_WORK_QUEUE (db w3) = []).
  { subst w3. cbn [extend set_db db]. rewrite !contents_lpush.
    by rewrite !decide_False. }
  assert (Ho3 : forall q, q <> PENDING_QUEUE -> contents q (db w3) = contents q (db w)).
  { intros q Hq. subst w3. cbn [extend set_db db]. rewrite !contents_lpush.
    by rewrite !decide_False. }
  destruct (dequeue_batch_cases PENDING_QUEUE PENDING_WORK_QUEUE
              (batch_size opts) (db w3)) as (_ & H & _).
  destruct H as (d' & He & _ & _ & Hsrc & Hdst & _ & Hq); [done|by rewrite Hp3|].
  rewrite Hp3 in *. unfold len in *. cbn [length] in *.
  replace (Z.to_nat (Z.min (batch_size opts) (Z.of_nat 3))) with 3%nat in * by lia.
  cbn [length drop take rev app Nat.sub] in He, Hsrc, Hdst.
  set (w4 := dequeued opts PENDING_QUEUE PENDING_WORK_QUEUE w3).
  destruct (upload_configured env opts [A; B; C] None 1 w4 ep Hep Hsplay)
    as (pre & Hpre & Hrun); [lia|].
  cbv zeta in Hrun.
  destruct (Hpost (trace w4 ++ EvUpload [A; B; C] 1 :: pre)%list (request_of ep [A; B; C]))
    as (code & Hcode & Hrange).
  rewrite Hcode in Hrun. rewrite (classify_2xx _ _ Hrange) in Hrun.
  match type of Hrun with _ = (_, ?w2) => set (w5 := w2) in * end.
  assert (Hb : _upload_batch env opts PENDING_QUEUE PENDING_WORK_QUEUE w3
               = (Ok (mkBatchRet 3 None),
                  extend (set_db w5 (snd (del PENDING_WORK_QUEUE (db w5))))
                    [log_uploaded [A; B; C] PENDING_QUEUE; EvRedis (DEL PENDING_WORK_QUEUE)])).
  { pose proof (upload_batch_succeeded PENDING_QUEUE PENDING_WORK_QUEUE w3 PyNone w5) as H.
    rewrite He in H. cbn [fst] in H. apply H; [done|exact Hrun]. }
  set (w' := extend (set_db w5 _) _) in Hb.
  assert (Hp : upload_pending env opts fuel w3 = (Ok (mkDriveRet 3 None None), w')).
  { unfold upload_pending, try_except.
    rewrite upload_batch_continuing_unfold, Hb.
    rewrite continuing_loop_stop; [reflexivity|].
    cbn [has_error error count negb andb]. apply Z.eqb_neq. lia. }
  exists w3, w'.
  exists ([EvRedis (EVALSHA_dequeue_batch PENDING_QUEUE PENDING_WORK_QUEUE (batch_size opts));
           EvUpload [A; B; C] 1] ++ pre ++
          [EvPost (request_of ep [A; B; C]) (Responded code);
           EvTimer (timer env ((trace w4 ++ EvUpload [A; B; C] 1 :: pre)
                               ++ [EvPost (request_of ep [A; B; C]) (Responded code)]));
           log_uploaded [A; B; C] PENDING_QUEUE; EvRedis (DEL PENDING_WORK_QUEUE)])%list.
  split; [reflexivity|]. split; [exact Hp3|]. split; [exact Hp|].
  assert (Hdb : db w' = snd (del PENDING_WORK_QUEUE d')).
  { subst w' w5 w4. unfold dequeued. unfold extend, set_db. cbn [db]. by rewrite He. }
  split.
  { subst w' w5 w4. unfold dequeued. unfold extend, set_db.
    cbn [db upload_timer trace]. by trace_norm. }
  split.
  { rewrite !posts_app. rewrite (posts_pacing pre Hpre). reflexivity. }
  split; [reflexivity|].
  rewrite Hdb. rewrite !contents_del.
  split; [by rewrite decide_False|]. split; [by rewrite decide_True|].
  intros q Hq1 Hq2. rewrite contents_del, decide_False by done.
  rewrite Hq by done. by apply Ho3.
Qed.

End HappyPath.

Lemma upload_pending_happy_path_witness :
  let env := Demo.env_of (Responded 200) in
  exists w3 w',
    (enqueue env "A";; enqueue env "B";; enqueue env "C") initial = (Ok tt, w3) /\
    upload_pending env Demo.opts0 0 w3 = (Ok (mkDriveRet 3 None None), w') /\
    map req_data (posts (trace w')) = ["[A, B, C]"] /\
    Redis.all_keys (db w') = [].
Proof.
  intros env.
  destruct (upload_pending_happy_path env Demo.opts0 Demo.endpoint0 "A" "B" "C" 0%nat initial)
    as (w3 & w' & evs & He & _ & Hp & _);
    [reflexivity | vm_compute; discriminate | reflexivity
    | intros h req; exists 200; split; [reflexivity|lia]
    | reflexivity | reflexivity |].
  exists w3, w'. split; [exact He|]. split; [exact Hp|].
  assert (Hw3 : w3 = snd ((enqueue env "A";; enqueue env "B";; enqueue env "C") initial))
    by (rewrite He; reflexivity).
  assert (Hw' : w' = snd (upload_pending env Demo.opts0 0 w3)) by (rewrite Hp; reflexivity).
  rewrite Hw', Hw3. split; vm_compute; reflexivity.
Defined.

(** C2 as stated fails: the body of the request is ["[A, B, C]"], the order
    of the enqueues, not ["[C, B, A]"]. *)
Lemma upload_pending_happy_path_counterexample :
  let env := Demo.env_of (Responded 200) in
  let w3 := snd ((enqueue env "A";; enqueue env "B";; enqueue env "C") initial) in
  batch_size Demo.opts0 = 100 /\
  map req_data (posts (trace (snd (upload_pending env Demo.opts0 1 w3)))) = ["[A, B, C]"] /\
  map req_data (posts (trace (snd (upload_pending env Demo.opts0 1 w3)))) <> ["[C, B, A]"].
Proof.
  split; [reflexivity|]. split; vm_compute; congruence.
Qed.

(** ** Resuming a batch *)

Section Resume.
Context {Data : Type} (env : Env Data) (opts : Options).
Import Redis RedisFacts.

(** With an endpoint, [_upload_batch] on a non-empty batch calls [_upload]
    once and issues one request, whatever comes of it. *)
Lemma upload_batch_trace src work w ep :
  opt_endpoint opts = Some ep -> 0 <= upload_splay opts ->
  let batch := fst (dequeue_batch src work (batch_size opts) (db w)) in
  batch <> [] ->
  exists evs,
    trace (snd (_upload_batch env opts src work w)) = (trace w ++ evs)%list /\
    uploads evs = [(batch, 1)] /\
    posts evs = [request_of ep batch].
Proof.
  intros Hep Hsplay batch Hne.
  destruct (upload_configured env opts batch None 1 (dequeued opts src work w) ep Hep Hsplay)
    as (pre & Hpre & Hrun); [lia|].
  cbv zeta in Hrun.
  rewrite upload_batch_unfold. cbv zeta. fold batch.
  destruct batch as [|b batch'] eqn:Hb; [done|]. rewrite Hrun.
  set (req := request_of ep (b :: batch')).
  set (res := http_post env _ req).
  assert (Hshape : forall tail, uploads tail = [] -> posts tail = [] ->
    let evs := ([EvRedis (EVALSHA_dequeue_batch src work (batch_size opts));
                 EvUpload (b :: batch') 1] ++ pre ++
                [EvPost req res;
                 EvTimer (timer env ((trace (dequeued opts src work w)
                                      ++ EvUpload (b :: batch') 1 :: pre) ++ [EvPost req res]))]
                ++ tail)%list in
    uploads evs = [(b :: batch', 1)] /\ posts evs = [req]).
  { intros tail Hu Hp evs. subst evs.
    rewrite !uploads_app, !posts_app, Hu, Hp.
    rewrite (uploads_pacing pre Hpre), (posts_pacing pre Hpre). done. }
  destruct (classify env req res) as [[[] v]| |];
    eexists; (split; [|eapply Hshape]);
    try (unfold dequeued; unfold extend, set_db; cbn [snd db upload_timer trace];
         trace_norm; reflexivity);
    reflexivity.
Qed.

(** C10.  When the work queue is empty and the script moves a batch, what
    it returns on the next call, the work queue from head to tail, is the
    same entries in the reverse order.  So, with an endpoint configured, the
    request of a resumed [_upload_batch] lists the entries of the batch in
    the reverse of the order of the first attempt. *)
Theorem resumed_batch_reversed src work w wr n' ep :
  contents work (db w) = [] ->
  let batch := fst (dequeue_batch src work (batch_size opts) (db w)) in
  let d' := snd (dequeue_batch src work (batch_size opts) (db w)) in
  batch <> [] ->
  db wr = d' ->
  opt_endpoint opts = Some ep -> 0 <= upload_splay opts ->
  contents work d' = rev batch /\
  dequeue_batch src work n' d' = (rev batch, d') /\
  exists evs evs',
    trace (snd (_upload_batch env opts src work w)) = (trace w ++ evs)%list /\
    uploads evs = [(batch, 1)] /\
    map req_data (posts evs) = [payload_of batch] /\
    trace (snd (_upload_batch env opts src work wr)) = (trace wr ++ evs')%list /\
    uploads evs' = [(rev batch, 1)] /\
    map req_data (posts evs') = [payload_of (rev batch)].
Proof.
  intros Hwork batch d' Hne Hwr Hep Hsplay.
  destruct (dequeue_batch_cases src work (batch_size opts) (db w)) as (_ & H2 & H3).
  destruct (contents src (db w)) as [|y sl] eqn:Hs.
  { exfalso. apply Hne. subst batch. by rewrite H3. }
  destruct H2 as (d1 & He & _ & _ & _ & Hdst & _); [done..|].
  assert (Hd' : d' = d1) by (subst d'; by rewrite He).
  assert (Hbatch : contents work d' = rev batch).
  { rewrite Hd', Hdst. subst batch. rewrite He. cbn [fst]. by rewrite rev_involutive. }
  assert (Hrevne : rev batch <> []).
  { intros Hr. apply Hne. apply (f_equal (@rev string)) in Hr.
    by rewrite rev_involutive in Hr. }
  assert (Hre : forall n, dequeue_batch src work n d' = (rev batch, d')).
  { intros n. destruct (dequeue_batch_cases src work n d') as (H1 & _).
    rewrite <- Hbatch. apply H1. by rewrite Hbatch. }
  split; [exact Hbatch|]. split; [apply Hre|].
  destruct (upload_batch_trace src work w ep Hep Hsplay Hne) as (evs & Ht & Hu & Hp).
  destruct (upload_batch_trace src work wr ep Hep Hsplay) as (evs' & Ht' & Hu' & Hp').
  { rewrite Hwr, Hre. exact Hrevne. }
  rewrite Hwr, Hre in Hu', Hp'. cbn [fst] in Hu', Hp'.
  exists evs, evs'. fold batch in Hu, Hp.
  rewrite Hp, Hp'. done.
Qed.

End Resume.

Lemma resumed_batch_reversed_witness :
  let env := Demo.env_of (PostRaised "unreachable") in
  let w3 := snd ((enqueue env "A";; enqueue env "B";; enqueue env "C") initial) in
  let w4 := snd (_upload_batch env Demo.opts0 PENDING_QUEUE PENDING_WORK_QUEUE w3) in
  exists evs evs',
    trace w4 = (trace w3 ++ evs)%list /\
    map req_data (posts evs) = ["[A, B, C]"] /\
    trace (snd (_upload_batch env Demo.opts0 PENDING_QUEUE PENDING_WORK_QUEUE w4))
      = (trace w4 ++ evs')%list /\
    map req_data (posts evs') = ["[C, B, A]"].
Proof.
  intros env w3 w4.
  destruct (resumed_batch_reversed env Demo.opts0 PENDING_QUEUE PENDING_WORK_QUEUE
              w3 w4 100 Demo.endpoint0)
    as (_ & _ & evs & evs' & Ht & _ & Hp & Ht' & _ & Hp');
    [reflexivity | vm_compute; discriminate | vm_compute; reflexivity
    | reflexivity | vm_compute; discriminate |].
  exists evs, evs'. split; [exact Ht|]. split; [exact Hp|]. split; [exact Ht'|exact Hp'].
Defined.

(** ** One pass over the retry queues *)

Section Retrying.
Context {Data : Type} (env : Env Data) (opts : Options).
Import Redis RedisFacts.

(** The world in which [_upload] is called for [queue]. *)
Definition read_queue (queue : string) (w : World) : World :=
  extend w [EvRedis (LRANGE queue 0 (-1))].

Definition log_no_match (queue : string) : Event :=
  EvLog ERROR ("Failed to match retry queue name '" ++ queue ++ "'").
Definition log_retried (queue : string) : Event :=
  EvLog INFO ("Sucessfully uploaded retry queue '" ++ queue ++ "'").
Definition log_skipping : Event :=
  EvLog WARNING "Temporarily unable to upload retry queue(s) - skipping remaining if present".
Definition log_failed_attempt (attempt : Z) (queue : string) : Event :=
  EvLog WARNING ("Failed retry attempt " ++ Str.of_Z attempt ++ "/"
                 ++ Str.of_Z (max_retry opts) ++ " for uploading queue '"
                 ++ queue ++ "'").
Definition log_max_retry (queue fail_queue : string) : Event :=
  EvLog WARNING ("Max retry attempt reached for queue '" ++ queue
                 ++ "' - transferring to fail queue '" ++ fail_queue ++ "'").

(** The attempt the code computes from a name: the suffix plus one. *)
Definition next_attempt (m : RetryMatch) : Z := Str.int_of_digits (group_attempt m) + 1.

Lemma retrying_loop_no_match queue rest remaining ret w :
  RETRY_QUEUE_REGEX_match queue = None ->
  retrying_loop env opts (queue :: rest) remaining ret w
    = retrying_loop env opts rest remaining ret (extend w [log_no_match queue]).
Proof.
  intros Hm. cbn [retrying_loop]. rewrite Hm. destruct w. reflexivity.
Qed.

Lemma retrying_loop_success queue rest remaining ret w m v w2 :
  RETRY_QUEUE_REGEX_match queue = Some m ->
  _upload env opts (contents queue (db w)) None remaining (read_queue queue w)
    = (Ok (true, v), w2) ->
  retrying_loop env opts (queue :: rest) remaining ret w
    = retrying_loop env opts rest (remaining - 1)
        (add_total ret (len (contents queue (db w))))
        (extend (set_db w2 (snd (del queue (db w2))))
           [log_retried queue; EvRedis (DEL queue)]).
Proof.
  intros Hm Hup. cbn [retrying_loop]. rewrite Hm.
  unfold redis_lrange, read_queue, extend in *. destruct w as [d ut tr].
  munfold. rewrite lrange_all. cbn [db upload_timer trace] in Hup. rewrite Hup.
  destruct w2 as [d2 ut2 tr2]. cbv beta iota zeta.
  unfold set_db, del. cbn [snd db upload_timer trace]. by trace_norm.
Qed.

Lemma retrying_loop_transport_failure queue rest remaining ret w m msg w2 :
  RETRY_QUEUE_REGEX_match queue = Some m ->
  _upload env opts (contents queue (db w)) None remaining (read_queue queue w)
    = (Ok (false, msg), w2) ->
  retrying_loop env opts (queue :: rest) remaining ret w
    = (Ok (append_error ret msg), extend w2 [log_skipping]).
Proof.
  intros Hm Hup. cbn [retrying_loop]. rewrite Hm.
  unfold redis_lrange, read_queue, extend in *. destruct w as [d ut tr].
  munfold. rewrite lrange_all. cbn [db upload_timer trace] in Hup. rewrite Hup.
  destruct w2 as [d2 ut2 tr2]. reflexivity.
Qed.

(** The world after the fail-queue transaction. *)
Definition promoted (queue : string) (attempt : Z) (entries : list string) (w2 : World) : World :=
  let now := utcnow env (trace w2 ++ [log_failed_attempt attempt queue]) in
  let fail_queue := FAIL_QUEUE now in
  extend
    (set_db w2
       (snd (del queue
          (snd (expire fail_queue (fail_ttl opts)
             (lpush fail_queue entries (db w2)))))))
    [log_failed_attempt attempt queue; EvUtcnow now; log_max_retry queue fail_queue;
     EvRedisTransaction
       [LPUSH fail_queue entries; EXPIRE fail_queue (fail_ttl opts); DEL queue]].

Lemma retrying_loop_promote queue rest remaining ret w m rex w2 :
  RETRY_QUEUE_REGEX_match queue = Some m ->
  contents queue (db w) <> [] ->
  _upload env opts (contents queue (db w)) None remaining (read_queue queue w)
    = (Raised (RequestException rex), w2) ->
  max_retry opts <= next_attempt m ->
  retrying_loop env opts (queue :: rest) remaining ret w
    = retrying_loop env opts rest remaining (append_error ret (PyStr rex))
        (promoted queue (next_attempt m) (contents queue (db w)) w2).
Proof.
  intros Hm Hne Hup Hmax. cbn [retrying_loop]. rewrite Hm.
  unfold redis_lrange, read_queue, extend in *. destruct w as [d ut tr].
  munfold. rewrite lrange_all. cbn [db upload_timer trace] in Hup, Hne. rewrite Hup.
  destruct w2 as [d2 ut2 tr2]. cbv beta iota zeta.
  fold (next_attempt m).
  assert (H : (max_retry opts <=? next_attempt m) = true) by (apply Z.leb_le; lia).
  rewrite H. cbv beta iota zeta.
  destruct (contents queue d) as [|e es] eqn:He; [done|].
  cbv beta iota zeta. unfold promoted, extend, set_db.
  cbn [snd fst db upload_timer trace]. by trace_norm.
Qed.

(** The world after the rename to the next attempt. *)
Definition renamed (queue : string) (attempt : Z) (w2 : World) : World :=
  let target := sub_attempt attempt queue in
  extend
    (set_db w2
       (match renamenx queue target (db w2) with
        | Some (_, d') => d'
        | None => db w2
        end))
    [log_failed_attempt attempt queue; EvRedis (RENAMENX queue target)].

Lemma retrying_loop_rename queue rest remaining ret w m rex w2 :
  RETRY_QUEUE_REGEX_match queue = Some m ->
  contents queue (db w2) <> [] ->
  _upload env opts (contents queue (db w)) None remaining (read_queue queue w)
    = (Raised (RequestException rex), w2) ->
  next_attempt m < max_retry opts ->
  retrying_loop env opts (queue :: rest) remaining ret w
    = retrying_loop env opts rest remaining (append_error ret (PyStr rex))
        (renamed queue (next_attempt m) w2).
Proof.
  intros Hm Hne Hup Hmax. cbn [retrying_loop]. rewrite Hm.
  unfold redis_lrange, read_queue, extend in *. destruct w as [d ut tr].
  munfold. rewrite lrange_all. cbn [db upload_timer trace] in Hup. rewrite Hup.
  destruct w2 as [d2 ut2 tr2]. cbv beta iota zeta.
  fold (next_attempt m).
  assert (H : (max_retry opts <=? next_attempt m) = false) by (apply Z.leb_gt; lia).
  rewrite H. cbv beta iota zeta.
  unfold renamed, extend, set_db. cbn [snd fst db upload_timer trace] in *.
  unfold renamenx. apply exists_contents in Hne. rewrite Hne.
  destruct (exists_ (sub_attempt (next_attempt m) queue) d2);
    cbv beta iota zeta; by trace_norm.
Qed.

End Retrying.

(** ** Names of retry queues *)

Section Names.

Lemma span_digits_app l : forall d r, span_digits l = (d, r) -> l = (d ++ r)%list.
Proof.
  induction l as [|c l IH]; intros d r H; simpl in H.
  - by inversion H.
  - destruct (Str.is_digit c).
    + destruct (span_digits l) as [d' r'] eqn:Hs. inversion H; subst.
      simpl. f_equal. by apply IH.
    + by inversion H.
Qed.

Lemma strip_final_newline_app r0 r nl :
  strip_final_newline r0 = (r, nl) ->
  r0 = (nl ++ r)%list /\ (nl = [] \/ nl = [Str.newline]).
Proof.
  unfold strip_final_newline. destruct r0 as [|c r']; intros H.
  - inversion H. auto.
  - destruct (Ascii.eqb_spec c Str.newline) as [->|_]; inversion H; subst; auto.
Qed.

Lemma of_chars_chars s : Str.of_chars (Str.chars s) = s.
Proof. apply string_of_list_ascii_of_string. Qed.

Lemma chars_of_chars l : Str.chars (Str.of_chars l) = l.
Proof. apply list_ascii_of_string_of_list_ascii. Qed.

Lemma of_chars_app l1 l2 : Str.of_chars (l1 ++ l2) = Str.of_chars l1 ++ Str.of_chars l2.
Proof.
  induction l1 as [|c l1 IH]; [reflexivity|].
  unfold Str.of_chars in *. simpl. rewrite IH. reflexivity.
Qed.

Lemma append_assoc (a b c : string) : (a ++ b) ++ c = a ++ b ++ c.
Proof.
  induction a as [|x a IH]; [reflexivity|].
  change (String x ((a ++ b) ++ c) = String x (a ++ b ++ c)). by rewrite IH.
Qed.

(** The name made of the type and the timestamp of [m], the attempt
    [attempt], and [nl] after it. *)
Definition retry_name (m : RetryMatch) (attempt : string) (nl : list ascii) : string :=
  Str.of_chars (group_type m) ++ "_" ++ Str.of_chars (group_timestamp m)
  ++ "_#" ++ attempt ++ Str.of_chars nl.

(** A name that [RETRY_QUEUE_REGEX] matches is its three groups, joined by
    ["_"] and ["_#"], with at most a final newline after them; and the
    [re.sub] of [upload_retrying] keeps all of it but the attempt. *)
Lemma retry_name_structure queue m :
  RETRY_QUEUE_REGEX_match queue = Some m ->
  exists nl, (nl = [] \/ nl = [Str.newline]) /\
    queue = retry_name m (Str.of_chars (group_attempt m)) nl /\
    forall n, sub_attempt n queue = retry_name m (Str.of_Z n) nl.
Proof.
  unfold retry_name, RETRY_QUEUE_REGEX_match, match_type_timestamp_attempt, sub_attempt.
  destruct (strip_final_newline (rev (Str.chars queue))) as [r nl] eqn:Hstrip.
  apply strip_final_newline_app in Hstrip as [Hr0 Hnl].
  destruct (span_digits r) as [a rest] eqn:Ha.
  apply span_digits_app in Ha.
  destruct a as [|a0 a']; [done|].
  destruct rest as [|c1 [|c2 r1]]; [done..|].
  destruct (Ascii.eqb_spec c1 "#") as [->|]; [|done].
  destruct (Ascii.eqb_spec c2 "_") as [->|]; [|done].
  cbn [andb].
  destruct (span_digits r1) as [ts rest1] eqn:Hts.
  pose proof (span_digits_app _ _ _ Hts) as Hr1.
  destruct ts as [|t0 ts']; [done|].
  destruct rest1 as [|c3 [|y0 ty']]; [done..|].
  destruct (Ascii.eqb_spec c3 "_") as [->|]; [|done].
  cbn [andb].
  destruct (negb (has_newline (y0 :: ty'))); cbn [andb]; [|done].
  remember (y0 :: ty') as ty. remember (t0 :: ts') as ts. remember (a0 :: a') as a.
  intros H.
  assert (Hm : m = mkRetryMatch (rev ty) (rev ts) (rev a)) by congruence.
  subst m. clear H. cbn [group_type group_timestamp group_attempt].
  exists (rev nl). split.
  { destruct Hnl as [->| ->]; auto. }
  assert (Hstem : rev r1 = (rev ty ++ ["_"%char] ++ rev ts)%list).
  { rewrite Hr1. rewrite !rev_app_distr. cbn [rev app].
    by repeat rewrite <- app_assoc. }
  assert (Hq : Str.chars queue
               = (rev r1 ++ ["_"%char; "#"%char] ++ rev a ++ rev nl)%list).
  { rewrite <- (rev_involutive (Str.chars queue)), Hr0, Ha.
    rewrite !rev_app_distr. cbn [rev app].
    by repeat rewrite <- app_assoc. }
  assert (Hnl' : Str.of_chars nl = Str.of_chars (rev nl))
    by (destruct Hnl as [->| ->]; reflexivity).
  split.
  - rewrite <- (of_chars_chars queue), Hq, Hstem.
    rewrite !of_chars_app. rewrite !append_assoc. reflexivity.
  - intros n. rewrite Hstem, Hnl'. rewrite !of_chars_app.
    rewrite !append_assoc. reflexivity.
Qed.

(** The name of a fail queue is not the name of a retry queue. *)
Lemma fail_queue_not_retry now queue :
  Str.starts_with "retr_" queue = true -> FAIL_QUEUE now <> queue.
Proof.
  intros Hp <-. unfold FAIL_QUEUE in Hp. simpl in Hp. discriminate.
Qed.

End Names.

(** ** What a command leaves alone *)

Module Frame.
Import Redis RedisFacts.

(** Key [q] reads the same in [d'] as in [d]: contents and expiry. *)
Definition same_at (q : string) (d d' : Db) : Prop :=
  contents q d' = contents q d /\ ttls d' !! q = ttls d !! q.

Lemma same_at_refl q d : same_at q d d.
Proof. by split. Qed.

Lemma same_at_trans q d1 d2 d3 : same_at q d1 d2 -> same_at q d2 d3 -> same_at q d1 d3.
Proof. intros [H1 H2] [H3 H4]. split; congruence. Qed.

Lemma same_at_ttl q d d' : same_at q d d' -> ttl q d' = ttl q d.
Proof. intros [H1 H2]. unfold ttl, exists_. by rewrite H1, H2. Qed.

Lemma set_list_other k l q d : k <> q -> same_at q d (set_list k l d).
Proof.
  intros Hne. split; [by rewrite contents_set_list, decide_False|].
  unfold set_list. destruct l; cbn [ttls].
  - by rewrite lookup_delete_ne.
  - destruct (exists_ k d); [done|]. by rewrite lookup_delete_ne.
Qed.

Lemma lpush_other k vs q d : k <> q -> same_at q d (lpush k vs d).
Proof. apply set_list_other. Qed.

Lemma del_other k q d : k <> q -> same_at q d (snd (del k d)).
Proof.
  intros Hne. split; [by rewrite contents_del, decide_False|].
  unfold del. cbn [snd ttls]. by rewrite lookup_delete_ne.
Qed.

Lemma expire_other k s q d : k <> q -> same_at q d (snd (expire k s d)).
Proof.
  intros Hne. unfold expire. destruct (exists_ k d); [|apply same_at_refl].
  cbn [snd]. destruct (s <=? 0); [by apply del_other|].
  split; [reflexivity|]. cbn [ttls]. by rewrite lookup_insert_ne.
Qed.

Lemma expire_contents k s q d : 0 < s -> contents q (snd (expire k s d)) = contents q d.
Proof.
  intros Hs. unfold expire. destruct (exists_ k d); [|reflexivity].
  cbn [snd]. assert (H : (s <=? 0) = false) by (apply Z.leb_gt; lia). by rewrite H.
Qed.

(** A [RENAMENX] that happens moves the list of [src] to [dst]. *)
Lemma renamenx_moved src dst d :
  contents src d <> [] -> contents dst d = [] ->
  exists d', renamenx src dst d = Some (true, d') /\
    contents dst d' = contents src d /\ contents src d' = [] /\
    (forall q, q <> src -> q <> dst -> same_at q d d').
Proof.
  intros Hs Hd.
  assert (Hne : src <> dst) by (intros ->; congruence).
  unfold renamenx.
  apply exists_contents in Hs. rewrite Hs.
  pose proof Hd as Hd'. apply not_exists_contents in Hd'. rewrite Hd'.
  eexists. split; [reflexivity|]. unfold contents. cbn [lists ttls].
  split; [by rewrite lookup_insert_eq|].
  split; [by rewrite lookup_insert_ne, lookup_delete_eq|].
  intros q Hq1 Hq2. split; unfold contents; cbn [lists ttls].
  - by rewrite lookup_insert_ne, lookup_delete_ne.
  - destruct (ttls d !! src).
    + by rewrite lookup_insert_ne, lookup_delete_ne.
    + by rewrite lookup_delete_ne.
Qed.

(** A [RENAMENX] onto a key that exists changes nothing. *)
Lemma renamenx_blocked src dst d :
  contents src d <> [] -> contents dst d <> [] ->
  renamenx src dst d = Some (false, d).
Proof.
  intros Hs Hd. unfold renamenx.
  apply exists_contents in Hs, Hd. by rewrite Hs, Hd.
Qed.

End Frame.

(** ** Server errors and transport failures in a retry pass *)

Section RetryErrors.
Context {Data : Type} (env : Env Data) (opts : Options).
Import Redis RedisFacts Frame.

Lemma upload_db entries ep sf w r w2 :
  _upload env opts entries ep sf w = (r, w2) -> db w2 = db w.
Proof.
  intros H. destruct (upload_frame env opts entries ep sf w) as (evs & _ & Hdb & _).
  by rewrite H in Hdb.
Qed.

(** C4.  In [upload_retrying], a retry queue whose name carries the attempt
    [a] and whose upload meets a server error is handled, and the pass goes
    on with the next queue.  If [a + 1 >= max_retry], one transaction pushes
    its entries at the head of the dated fail queue, sets the expiry of the
    fail queue to [fail_ttl] and deletes the retry queue.  Otherwise one
    [RENAMENX] renames it to the same name with the attempt [a + 1], which
    happens unless that name is taken.  So a queue at attempt
    [max_retry - 1] is in its last retry state. *)
Theorem retry_server_error queue rest remaining ret w m rex w2 :
  Str.starts_with "retr_" queue = true ->
  RETRY_QUEUE_REGEX_match queue = Some m ->
  contents queue (db w) <> [] ->
  _upload env opts (contents queue (db w)) None remaining (read_queue queue w)
    = (Raised (RequestException rex), w2) ->
  let a := Str.int_of_digits (group_attempt m) in
  let entries := contents queue (db w) in
  exists w3,
    retrying_loop env opts (queue :: rest) remaining ret w
      = retrying_loop env opts rest remaining (append_error ret (PyStr rex)) w3 /\
    (max_retry opts <= a + 1 ->
       let now := utcnow env (trace w2 ++ [log_failed_attempt opts (a + 1) queue]) in
       let fail_queue := FAIL_QUEUE now in
         trace w3 = (trace w2 ++
                     [log_failed_attempt opts (a + 1) queue; EvUtcnow now;
                      log_max_retry queue fail_queue;
                      EvRedisTransaction
                        [LPUSH fail_queue entries; EXPIRE fail_queue (fail_ttl opts);
                         DEL queue]])%list /\
         contents queue (db w3) = [] /\
         (0 < fail_ttl opts ->
            contents fail_queue (db w3) = (rev entries ++ contents fail_queue (db w))%list /\
            ttl fail_queue (db w3) = Some (fail_ttl opts)) /\
         (forall q, q <> queue -> q <> fail_queue -> same_at q (db w) (db w3))) /\
    (a + 1 < max_retry opts ->
       exists nl,
         let target := retry_name m (Str.of_Z (a + 1)) nl in
         (nl = [] \/ nl = [Str.newline]) /\
         queue = retry_name m (Str.of_chars (group_attempt m)) nl /\
         trace w3 = (trace w2 ++
                     [log_failed_attempt opts (a + 1) queue;
                      EvRedis (RENAMENX queue target)])%list /\
         (contents target (db w) = [] ->
            contents target (db w3) = entries /\ contents queue (db w3) = [] /\
            (forall q, q <> queue -> q <> target -> same_at q (db w) (db w3))) /\
         (contents target (db w) <> [] -> db w3 = db w)).
Proof.
  intros Hprefix Hm Hne Hup a entries.
  pose proof (upload_db _ _ _ _ _ _ Hup) as Hdb. cbn [read_queue extend db] in Hdb.
  destruct (Z.le_gt_cases (max_retry opts) (a + 1)) as [Hmax|Hmax].
  - exists (promoted env opts queue (next_attempt m) entries w2).
    split; [by apply retrying_loop_promote|].
    split; [|intros; exfalso; lia].
    intros _. unfold promoted, next_attempt. cbv zeta. fold a.
    set (fq := FAIL_QUEUE _).
    assert (Hfq : fq <> queue) by (by apply fail_queue_not_retry).
    split; [reflexivity|].
    cbn [extend set_db db]. rewrite Hdb.
    split; [by rewrite contents_del, decide_True|].
    split.
    + intros Httl. split.
      * rewrite contents_del, decide_False by done.
        rewrite expire_contents by done.
        by rewrite contents_lpush, decide_True.
      * unfold ttl, exists_.
        rewrite contents_del, decide_False by done.
        rewrite expire_contents by done.
        rewrite contents_lpush, decide_True by done.
        destruct (rev entries ++ contents fq (db w))%list eqn:Hl.
        { apply app_eq_nil in Hl as [Hl _].
          apply (f_equal (@rev string)) in Hl. rewrite rev_involutive in Hl. done. }
        unfold del. cbn [snd ttls]. rewrite lookup_delete_ne by done.
        unfold expire.
        assert (Hex : exists_ fq (lpush fq entries (db w)) = true).
        { apply exists_contents. rewrite contents_lpush, decide_True by done.
          by rewrite Hl. }
        rewrite Hex. cbn [snd].
        assert (H : (fail_ttl opts <=? 0) = false) by (apply Z.leb_gt; lia).
        rewrite H. cbn [ttls]. by rewrite lookup_insert_eq.
    + intros q Hq1 Hq2.
      eapply same_at_trans; [|by apply del_other].
      eapply same_at_trans; [|by apply expire_other].
      by apply lpush_other.
  - exists (renamed opts queue (next_attempt m) w2).
    split; [apply retrying_loop_rename; [done|by rewrite Hdb|done|unfold next_attempt; lia]|].
    split; [intros; exfalso; lia|]. intros _.
    destruct (retry_name_structure queue m Hm) as (nl & Hnl & Hq & Hsub).
    exists nl. cbv zeta. split; [exact Hnl|]. split; [exact Hq|].
    unfold renamed, next_attempt. cbv zeta. fold a. rewrite (Hsub (a + 1)).
    set (target := retry_name m (Str.of_Z (a + 1)) nl).
    cbn [extend set_db db trace]. rewrite Hdb.
    split; [reflexivity|]. split.
    + intros Ht. destruct (renamenx_moved queue target (db w) Hne Ht)
        as (d' & Hr & H1 & H2 & H3).
      rewrite Hr. done.
    + intros Ht. by rewrite (renamenx_blocked queue target (db w) Hne Ht).
Qed.

(** C6.  In the pass over the retry queues, an upload that comes back with
    [ok = False] appends the error and ends the pass there: the result is
    the one so far with the message added at the end of its errors, nothing
    is done after the upload but the log line, no queue is changed, and
    neither depends on the queues that were left.  A server error is
    handled and the pass goes on with the next queue: its message is added
    at the end of the errors, and the queue goes to the dated fail queue in
    one transaction when the attempt has reached [max_retry], and is
    renamed to the next attempt otherwise; the queues still to come are not
    touched. *)
Theorem retry_pass_errors queue rest remaining ret w m w2 :
  RETRY_QUEUE_REGEX_match queue = Some m ->
  (forall msg,
     _upload env opts (contents queue (db w)) None remaining (read_queue queue w)
       = (Ok (false, msg), w2) ->
     exists r w',
       retrying_loop env opts (queue :: rest) remaining ret w = (Ok r, w') /\
       total r = total ret /\
       errors r = Some (default [] (errors ret) ++ [msg])%list /\
       is_overrun r = is_overrun ret /\
       trace w' = (trace w2 ++ [log_skipping])%list /\
       uploads (trace w') = uploads (trace w2) /\
       db w' = db w) /\
  (forall rex,
     contents queue (db w) <> [] ->
     _upload env opts (contents queue (db w)) None remaining (read_queue queue w)
       = (Raised (RequestException rex), w2) ->
     let entries := contents queue (db w) in
     let attempt := next_attempt m in
     exists r w3,
       retrying_loop env opts (queue :: rest) remaining ret w
         = retrying_loop env opts rest remaining r w3 /\
       total r = total ret /\
       errors r = Some (default [] (errors ret) ++ [PyStr rex])%list /\
       is_overrun r = is_overrun ret /\
       (max_retry opts <= attempt ->
          let now := utcnow env (trace w2 ++ [log_failed_attempt opts attempt queue]) in
          let fail_queue := FAIL_QUEUE now in
          trace w3 = (trace w2 ++
                      [log_failed_attempt opts attempt queue; EvUtcnow now;
                       log_max_retry queue fail_queue;
                       EvRedisTransaction
                         [LPUSH fail_queue entries; EXPIRE fail_queue (fail_ttl opts);
                          DEL queue]])%list /\
          contents queue (db w3) = [] /\
          (forall q, q <> queue -> q <> fail_queue -> same_at q (db w) (db w3))) /\
       (attempt < max_retry opts ->
          let target := sub_attempt attempt queue in
          trace w3 = (trace w2 ++
                      [log_failed_attempt opts attempt queue;
                       EvRedis (RENAMENX queue target)])%list /\
          (contents target (db w) = [] ->
             contents target (db w3) = entries /\ contents queue (db w3) = [] /\
             (forall q, q <> queue -> q <> target -> same_at q (db w) (db w3))) /\
          (contents target (db w) <> [] -> db w3 = db w))).
Proof.
  intros Hm. split.
  - intros msg Hup.
    exists (append_error ret msg), (extend w2 [log_skipping]).
    split; [by eapply retrying_loop_transport_failure|].
    do 4 (split; [reflexivity|]). split.
    + cbn [extend trace]. rewrite uploads_app. cbn. by rewrite app_nil_r.
    + cbn [extend db]. by rewrite (upload_db _ _ _ _ _ _ Hup).
  - intros rex Hne Hup entries attempt.
    pose proof (upload_db _ _ _ _ _ _ Hup) as Hdb. cbn [read_queue extend db] in Hdb.
    exists (append_error ret (PyStr rex)).
    destruct (Z.le_gt_cases (max_retry opts) attempt) as [Hmax|Hmax].
    + exists (promoted env opts queue attempt entries w2).
      split; [by apply retrying_loop_promote|].
      do 3 (split; [reflexivity|]).
      split; [|intros; exfalso; lia].
      intros _. unfold promoted. cbv zeta.
      set (fq := FAIL_QUEUE _).
      split; [reflexivity|].
      cbn [extend set_db db]. rewrite Hdb.
      split; [by rewrite contents_del, decide_True|].
      intros q Hq1 Hq2.
      eapply same_at_trans; [|by apply del_other].
      eapply same_at_trans; [|by apply expire_other].
      by apply lpush_other.
    + exists (renamed opts queue attempt w2).
      split; [apply retrying_loop_rename; [done|by rewrite Hdb|done|lia]|].
      do 3 (split; [reflexivity|]).
      split; [intros; exfalso; lia|]. intros _.
      unfold renamed. cbv zeta.
      set (target := sub_attempt attempt queue).
      cbn [extend set_db db trace]. rewrite Hdb.
      split; [reflexivity|]. split.
      * intros Ht. destruct (renamenx_moved queue target (db w) Hne Ht)
          as (d' & Hr & H1 & H2 & H3).
        rewrite Hr. done.
      * intros Ht. by rewrite (renamenx_blocked queue target (db w) Hne Ht).
Qed.

End RetryErrors.

Module DemoRetry.
Import Demo.

Definition world_of (d : Redis.Db) : World := mkWorld d None [].

Definition queue9 : string := "retr_20240101000000000000_#9".
Definition queue0 : string := "retr_20240101000000000000_#0".

Definition match_of (queue : string) : RetryMatch :=
  default (mkRetryMatch [] [] []) (RETRY_QUEUE_REGEX_match queue).

Definition m9 : RetryMatch := Eval vm_compute in match_of queue9.
Definition m0 : RetryMatch := Eval vm_compute in match_of queue0.

Definition w9 : World := world_of (Redis.lpush queue9 ["A"] Redis.empty).
Definition w0 : World := world_of (Redis.lpush queue0 ["A"] Redis.empty).

Definition ret0 : DriveRet := mkDriveRet 0 None (Some false).

End DemoRetry.

Lemma retry_server_error_witness :
  let env := Demo.env_of (Responded 500) in
  (exists w3,
     retrying_loop env Demo.opts0 [DemoRetry.queue9] 1 DemoRetry.ret0 DemoRetry.w9
       = (Ok (append_error DemoRetry.ret0 (PyStr "500 Error")), w3) /\
     Redis.contents DemoRetry.queue9 (db w3) = [] /\
     Redis.contents "fail_20240101" (db w3) = ["A"] /\
     Redis.ttl "fail_20240101" (db w3) = Some 604800) /\
  (exists w3,
     retrying_loop env Demo.opts0 [DemoRetry.queue0] 1 DemoRetry.ret0 DemoRetry.w0
       = (Ok (append_error DemoRetry.ret0 (PyStr "500 Error")), w3) /\
     Redis.contents DemoRetry.queue0 (db w3) = [] /\
     Redis.contents "retr_20240101000000000000_#1" (db w3) = ["A"]).
Proof.
  intros env. split.
  - destruct (retry_server_error env Demo.opts0 DemoRetry.queue9 [] 1 DemoRetry.ret0
                DemoRetry.w9 DemoRetry.m9 "500 Error"
                (snd (_upload env Demo.opts0 ["A"] None 1
                        (read_queue DemoRetry.queue9 DemoRetry.w9))))
      as (w3 & Hloop & Hpromote & _);
      [reflexivity | reflexivity | vm_compute; discriminate | vm_compute; reflexivity |].
    destruct Hpromote as (Htrace & Hgone & Hfail & _); [vm_compute; discriminate|].
    destruct Hfail as [Hc Ht]; [reflexivity|].
    exists w3. split; [exact Hloop|]. split; [exact Hgone|].
    split; [exact Hc|exact Ht].
  - destruct (retry_server_error env Demo.opts0 DemoRetry.queue0 [] 1 DemoRetry.ret0
                DemoRetry.w0 DemoRetry.m0 "500 Error"
                (snd (_upload env Demo.opts0 ["A"] None 1
                        (read_queue DemoRetry.queue0 DemoRetry.w0))))
      as (w3 & Hloop & _ & Hrename);
      [reflexivity | reflexivity | vm_compute; discriminate | vm_compute; reflexivity |].
    destruct Hrename as (nl & Hnl & Hq & _ & Hmoved & _); [vm_compute; reflexivity|].
    assert (Hnl0 : nl = []).
    { destruct Hnl as [->| ->]; [done|]. vm_compute in Hq. discriminate. }
    subst nl.
    destruct Hmoved as (Hc & Hgone & _); [reflexivity|].
    exists w3. split; [exact Hloop|]. split; [exact Hgone|exact Hc].
Defined.

Lemma retry_pass_errors_witness :
  let down := Demo.env_of (PostRaised "unreachable") in
  let refusing := Demo.env_of (Responded 500) in
  let queue1 := "retr_20240102000000000000_#0" in
  let w := DemoRetry.world_of
             (Redis.lpush queue1 ["B"]
                (Redis.lpush DemoRetry.queue0 ["A"] Redis.empty)) in
  (exists r w',
     retrying_loop down Demo.opts0 [DemoRetry.queue0; queue1] 2 DemoRetry.ret0 w
       = (Ok r, w') /\
     total r = 0 /\ errors r = Some [PyStr "unreachable"] /\
     is_overrun r = Some false /\
     uploads (trace w') = [(["A"], 2)] /\ db w' = db w) /\
  (exists r w3,
     retrying_loop refusing Demo.opts0 [DemoRetry.queue0; queue1] 2 DemoRetry.ret0 w
       = retrying_loop refusing Demo.opts0 [queue1] 2 r w3 /\
     total r = 0 /\ errors r = Some [PyStr "500 Error"] /\
     is_overrun r = Some false /\
     Redis.contents DemoRetry.queue0 (db w3) = [] /\
     Redis.contents "retr_20240101000000000000_#1" (db w3) = ["A"] /\
     Redis.contents queue1 (db w3) = ["B"]).
Proof.
  intros down refusing queue1 w. split.
  - destruct (retry_pass_errors down Demo.opts0 DemoRetry.queue0 [queue1] 2
                DemoRetry.ret0 w DemoRetry.m0
                (snd (_upload down Demo.opts0 ["A"] None 2 (read_queue DemoRetry.queue0 w))))
      as [Hfail _]; [reflexivity|].
    destruct (Hfail (PyStr "unreachable"))
      as (r & w' & Hloop & Htot & Herr & Hover & _ & Hup & Hdb);
      [vm_compute; reflexivity|].
    exists r, w'. split; [exact Hloop|]. split; [exact Htot|].
    split; [exact Herr|]. split; [exact Hover|]. split; [|exact Hdb].
    rewrite Hup. vm_compute. reflexivity.
  - destruct (retry_pass_errors refusing Demo.opts0 DemoRetry.queue0 [queue1] 2
                DemoRetry.ret0 w DemoRetry.m0
                (snd (_upload refusing Demo.opts0 ["A"] None 2 (read_queue DemoRetry.queue0 w))))
      as [_ Herr]; [reflexivity|].
    destruct (Herr "500 Error")
      as (r & w3 & Hloop & Htot & Herrs & Hover & _ & Hrename);
      [vm_compute; discriminate | vm_compute; reflexivity |].
    destruct Hrename as (_ & Hmoved & _); [vm_compute; reflexivity|].
    destruct Hmoved as (Hc & Hgone & Hframe); [vm_compute; reflexivity|].
    exists r, w3. split; [exact Hloop|]. split; [exact Htot|].
    split; [exact Herrs|]. split; [exact Hover|]. split; [exact Hgone|].
    split; [exact Hc|].
    destruct (Hframe queue1) as [Hq _]; [discriminate|discriminate|].
    rewrite Hq. vm_compute. reflexivity.
Defined.

(** ** The pass over the retry queues, as a relation between worlds *)

Section RetryPass.
Context {Data : Type} (env : Env Data) (opts : Options).
Import Redis RedisFacts Frame.

(** The world after a handler that found its queue gone: the command was
    sent and refused. *)
Definition refused (queue : string) (attempt : Z) (w2 : World) : World :=
  if max_retry opts <=? attempt then
    let now := utcnow env (trace w2 ++ [log_failed_attempt opts attempt queue]) in
    let fail_queue := FAIL_QUEUE now in
    extend w2
      [log_failed_attempt opts attempt queue; EvUtcnow now; log_max_retry queue fail_queue;
       EvRedisTransaction [LPUSH fail_queue []; EXPIRE fail_queue (fail_ttl opts); DEL queue]]
  else
    extend w2
      [log_failed_attempt opts attempt queue;
       EvRedis (RENAMENX queue (sub_attempt attempt queue))].

(** [retry_pass queues remaining w w']: the loop of [upload_retrying] over
    [queues], entered in [w] with [remaining_count = remaining], ends in
    [w']. *)
Inductive retry_pass : list string -> Z -> World -> World -> Prop :=
| pass_done remaining w :
    retry_pass [] remaining w w
| pass_skip queue rest remaining w w' :
    RETRY_QUEUE_REGEX_match queue = None ->
    retry_pass rest remaining (extend w [log_no_match queue]) w' ->
    retry_pass (queue :: rest) remaining w w'
| pass_uploaded queue rest remaining w m v w2 w' :
    RETRY_QUEUE_REGEX_match queue = Some m ->
    _upload env opts (contents queue (db w)) None remaining (read_queue queue w)
      = (Ok (true, v), w2) ->
    retry_pass rest (remaining - 1)
      (extend (set_db w2 (snd (del queue (db w2)))) [log_retried queue; EvRedis (DEL queue)])
      w' ->
    retry_pass (queue :: rest) remaining w w'
| pass_unreachable queue rest remaining w m msg w2 :
    RETRY_QUEUE_REGEX_match queue = Some m ->
    _upload env opts (contents queue (db w)) None remaining (read_queue queue w)
      = (Ok (false, msg), w2) ->
    retry_pass (queue :: rest) remaining w (extend w2 [log_skipping])
| pass_promoted queue rest remaining w m rex w2 w' :
    RETRY_QUEUE_REGEX_match queue = Some m ->
    contents queue (db w) <> [] ->
    _upload env opts (contents queue (db w)) None remaining (read_queue queue w)
      = (Raised (RequestException rex), w2) ->
    max_retry opts <= next_attempt m ->
    retry_pass rest remaining
      (promoted env opts queue (next_attempt m) (contents queue (db w)) w2) w' ->
    retry_pass (queue :: rest) remaining w w'
| pass_renamed queue rest remaining w m rex w2 w' :
    RETRY_QUEUE_REGEX_match queue = Some m ->
    contents queue (db w) <> [] ->
    _upload env opts (contents queue (db w)) None remaining (read_queue queue w)
      = (Raised (RequestException rex), w2) ->
    next_attempt m < max_retry opts ->
    retry_pass rest remaining (renamed opts queue (next_attempt m) w2) w' ->
    retry_pass (queue :: rest) remaining w w'
| pass_refused queue rest remaining w m rex w2 :
    RETRY_QUEUE_REGEX_match queue = Some m ->
    contents queue (db w) = [] ->
    _upload env opts (contents queue (db w)) None remaining (read_queue queue w)
      = (Raised (RequestException rex), w2) ->
    retry_pass (queue :: rest) remaining w (refused queue (next_attempt m) w2)
| pass_raised queue rest remaining w m e w2 :
    RETRY_QUEUE_REGEX_match queue = Some m ->
    _upload env opts (contents queue (db w)) None remaining (read_queue queue w)
      = (Raised (OtherException e), w2) ->
    retry_pass (queue :: rest) remaining w w2
| pass_out_of_fuel queue rest remaining w m w2 :
    RETRY_QUEUE_REGEX_match queue = Some m ->
    _upload env opts (contents queue (db w)) None remaining (read_queue queue w)
      = (OutOfFuel, w2) ->
    retry_pass (queue :: rest) remaining w w2.

Lemma retrying_loop_refused queue rest remaining ret w m rex w2 :
  RETRY_QUEUE_REGEX_match queue = Some m ->
  contents queue (db w) = [] ->
  _upload env opts (contents queue (db w)) None remaining (read_queue queue w)
    = (Raised (RequestException rex), w2) ->
  snd (retrying_loop env opts (queue :: rest) remaining ret w)
    = refused queue (next_attempt m) w2.
Proof.
  intros Hm He Hup.
  pose proof (upload_db _ _ _ _ _ _ _ _ Hup) as Hdb. cbn [read_queue extend db] in Hdb.
  cbn [retrying_loop]. rewrite Hm.
  unfold redis_lrange, read_queue, extend in *. destruct w as [d ut tr].
  munfold. rewrite lrange_all. cbn [db upload_timer trace] in Hup, He, Hdb. rewrite Hup.
  destruct w2 as [d2 ut2 tr2]. cbv beta iota zeta.
  fold (next_attempt m). unfold refused, extend. cbn [db upload_timer trace] in *.
  destruct (max_retry opts <=? next_attempt m); cbv beta iota zeta.
  - rewrite He. cbv beta iota zeta. cbn [snd]. by trace_norm.
  - subst d2. unfold renamenx.
    apply not_exists_contents in He. rewrite He. cbv beta iota zeta.
    cbn [snd]. by trace_norm.
Qed.

Lemma retrying_loop_other queue rest remaining ret w m r w2 :
  RETRY_QUEUE_REGEX_match queue = Some m ->
  _upload env opts (contents queue (db w)) None remaining (read_queue queue w) = (r, w2) ->
  (exists e, r = Raised (OtherException e)) \/ r = OutOfFuel ->
  snd (retrying_loop env opts (queue :: rest) remaining ret w) = w2.
Proof.
  intros Hm Hup Hr. cbn [retrying_loop]. rewrite Hm.
  unfold redis_lrange, read_queue, extend in *. destruct w as [d ut tr].
  munfold. rewrite lrange_all. cbn [db upload_timer trace] in Hup. rewrite Hup.
  destruct Hr as [[e ->]| ->]; reflexivity.
Qed.

(** The loop of the code runs as the relation says. *)
Lemma retrying_loop_pass queues : forall remaining ret w,
  retry_pass queues remaining w (snd (retrying_loop env opts queues remaining ret w)).
Proof.
  induction queues as [|queue rest IH]; intros remaining ret w.
  - apply pass_done.
  - destruct (RETRY_QUEUE_REGEX_match queue) as [m|] eqn:Hm.
    2: { rewrite retrying_loop_no_match by done. apply pass_skip; [done|apply IH]. }
    destruct (_upload env opts (contents queue (db w)) None remaining (read_queue queue w))
      as [[[[] v]|[rex|e]|] w2] eqn:Hup.
    + rewrite (retrying_loop_success env opts _ _ _ _ _ _ _ _ Hm Hup).
      eapply pass_uploaded; [done..|apply IH].
    + rewrite (retrying_loop_transport_failure env opts _ _ _ _ _ _ _ _ Hm Hup).
      eapply pass_unreachable; done.
    + pose proof (upload_db _ _ _ _ _ _ _ _ Hup) as Hdb. cbn [read_queue extend db] in Hdb.
      destruct (contents queue (db w)) as [|x xs] eqn:Hc.
      * rewrite <- Hc in Hup.
        rewrite (retrying_loop_refused _ _ _ _ _ _ _ _ Hm Hc Hup).
        eapply pass_refused; done.
      * rewrite <- Hc in Hup.
        assert (Hne : contents queue (db w) <> []) by (by rewrite Hc).
        destruct (Z.le_gt_cases (max_retry opts) (next_attempt m)) as [Hmax|Hmax].
        -- rewrite (retrying_loop_promote env opts _ _ _ _ _ _ _ _ Hm Hne Hup Hmax).
           eapply pass_promoted; [done..|apply IH].
        -- rewrite (retrying_loop_rename env opts queue rest remaining ret w m rex w2 Hm);
             [|by rewrite Hdb|done|lia].
           eapply pass_renamed; [done..|apply IH].
    + rewrite (retrying_loop_other _ _ _ _ _ _ _ _ Hm Hup) by eauto.
      eapply pass_raised; done.
    + rewrite (retrying_loop_other _ _ _ _ _ _ _ _ Hm Hup) by eauto.
      eapply pass_out_of_fuel; done.
Qed.

End RetryPass.

(** ** The splay factor of the retry pass *)

(** The splay factors a stretch of history should show, if every call of
    [_upload] is given the count [remaining] as it stands then, and the
    count goes down by one with each upload that succeeds. *)
Fixpoint splays_from (remaining : Z) (evs : list Event) : list Z :=
  match evs with
  | [] => []
  | EvUpload _ _ :: rest => remaining :: splays_from remaining rest
  | ev :: rest =>
      splays_from (if post_succeeded ev then remaining - 1 else remaining) rest
  end.

(** Events that are neither a call of [_upload] nor a request. *)
Definition is_quiet (ev : Event) : Prop :=
  match ev with
  | EvUpload _ _ | EvPost _ _ => False
  | _ => True
  end.

Lemma quiet_front l : Forall is_quiet l ->
  forall r rest, uploads (l ++ rest) = uploads rest /\
                 splays_from r (l ++ rest) = splays_from r rest.
Proof.
  induction 1 as [|ev l Hev _ IH]; intros r rest; [done|].
  destruct ev; try done; cbn; apply IH.
Qed.

Lemma upload_events_front entries l : Forall (upload_event entries) l ->
  forall r rest, uploads (l ++ rest) = uploads rest /\
                 splays_from r (l ++ rest)
                   = splays_from (r - Z.of_nat (successes l)) rest.
Proof.
  induction 1 as [|ev l Hev _ IH]; intros r rest.
  - cbn. by rewrite Z.sub_0_r.
  - destruct ev; try done;
      try (cbn; replace (r - Z.of_nat (successes l)) with (r - Z.of_nat (successes l))
             by lia; apply IH).
    cbn [app uploads omap splays_from successes]. destruct (post_succeeded (EvPost req res)).
    + destruct (IH (r - 1) rest) as [H1 H2]. split; [exact H1|].
      rewrite H2. f_equal. lia.
    + destruct (IH r rest) as [H1 H2]. split; [exact H1|by rewrite H2].
Qed.

Lemma uploads_redis c l : uploads (EvRedis c :: l) = uploads l.
Proof. reflexivity. Qed.

Lemma uploads_upload es sf l : uploads (EvUpload es sf :: l) = (es, sf) :: uploads l.
Proof. reflexivity. Qed.

Section Splay.
Context {Data : Type} (env : Env Data) (opts : Options).
Import Redis RedisFacts.

(** One iteration that calls [_upload]: the history it adds, before what
    the rest of the pass adds. *)
Lemma splay_step queue remaining w r w2 tail evs_rest w' :
  _upload env opts (contents queue (db w)) None remaining (read_queue queue w) = (r, w2) ->
  Forall is_quiet tail ->
  trace w' = ((trace w2 ++ tail) ++ evs_rest)%list ->
  map snd (uploads evs_rest)
    = splays_from (match r with Ok (true, _) => remaining - 1 | _ => remaining end) evs_rest ->
  exists evs, trace w' = (trace w ++ evs)%list /\
    map snd (uploads evs) = splays_from remaining evs.
Proof.
  intros Hup Htail Htr IH.
  destruct (upload_frame env opts (contents queue (db w)) None remaining (read_queue queue w))
    as (evs_u & Hevs & _ & Htr2 & Hsucc).
  rewrite Hup in Htr2, Hsucc. cbn [fst snd] in Htr2, Hsucc.
  exists ([EvRedis (LRANGE queue 0 (-1)); EvUpload (contents queue (db w)) remaining]
          ++ evs_u ++ tail ++ evs_rest)%list.
  split.
  { rewrite Htr, Htr2. cbn [read_queue extend trace]. by trace_norm. }
  change (map snd ((contents queue (db w), remaining)
                   :: uploads (evs_u ++ tail ++ evs_rest))
          = remaining :: splays_from remaining (evs_u ++ tail ++ evs_rest)).
  cbn [map snd].
  destruct (upload_events_front _ _ Hevs remaining (tail ++ evs_rest)%list) as [H1 H2].
  destruct (quiet_front _ Htail (remaining - Z.of_nat (successes evs_u)) evs_rest) as [H3 H4].
  rewrite H1, H2, H3, H4, IH. f_equal. f_equal.
  rewrite Hsucc. destruct r as [[[] ?]| |]; lia.
Qed.

Lemma retry_pass_splay queues remaining w w' :
  retry_pass env opts queues remaining w w' ->
  exists evs, trace w' = (trace w ++ evs)%list /\
    map snd (uploads evs) = splays_from remaining evs.
Proof.
  induction 1 as
    [ r w
    | queue rest r w w' Hm _ IH
    | queue rest r w m v w2 w' Hm Hup _ IH
    | queue rest r w m msg w2 Hm Hup
    | queue rest r w m rex w2 w' Hm Hne Hup Hmax _ IH
    | queue rest r w m rex w2 w' Hm Hne Hup Hmax _ IH
    | queue rest r w m rex w2 Hm He Hup
    | queue rest r w m e w2 Hm Hup
    | queue rest r w m w2 Hm Hup ].
  - exists []. by rewrite app_nil_r.
  - destruct IH as (evs & Htr & Hs).
    exists (log_no_match queue :: evs). split.
    + rewrite Htr. cbn [extend trace]. by trace_norm.
    + exact Hs.
  - destruct IH as (evs & Htr & Hs).
    eapply (splay_step queue r w _ w2 [log_retried queue; EvRedis (DEL queue)] evs);
      [exact Hup|repeat constructor|exact Htr|exact Hs].
  - eapply (splay_step queue r w _ w2 [log_skipping] []);
      [exact Hup|repeat constructor|by rewrite app_nil_r|reflexivity].
  - destruct IH as (evs & Htr & Hs).
    eapply (splay_step queue r w _ w2 _ evs);
      [exact Hup| |exact Htr|exact Hs]. repeat constructor.
  - destruct IH as (evs & Htr & Hs).
    eapply (splay_step queue r w _ w2 _ evs);
      [exact Hup| |exact Htr|exact Hs]. repeat constructor.
  - unfold refused. destruct (max_retry opts <=? next_attempt m).
    + eapply (splay_step queue r w _ w2 _ []);
        [exact Hup| |cbn [extend trace]; by rewrite app_nil_r|reflexivity].
      repeat constructor.
    + eapply (splay_step queue r w _ w2 _ []);
        [exact Hup| |cbn [extend trace]; by rewrite app_nil_r|reflexivity].
      repeat constructor.
  - eapply (splay_step queue r w _ w2 [] []);
      [exact Hup|constructor|by rewrite !app_nil_r|reflexivity].
  - eapply (splay_step queue r w _ w2 [] []);
      [exact Hup|constructor|by rewrite !app_nil_r|reflexivity].
Qed.

Definition log_found (queues : list string) : Event :=
  EvLog WARNING ("Found " ++ Str.of_Z (len queues) ++ "/"
                 ++ Str.of_Z (retry_queue_limit opts) ++ " retry queue(s)").

(** [upload_retrying]: the listing, then the loop. *)
Lemma upload_retrying_unfold w :
  let queues := Str.sorted (keys "retr_*" (db w)) in
  upload_retrying env opts w =
    retrying_loop env opts queues (len queues)
      (mkDriveRet 0 None (Some (retry_queue_limit opts <=? len queues)))
      (extend w (EvRedis (KEYS "retr_*")
                 :: if nonempty queues then [log_found queues] else [])).
Proof.
  cbv zeta. unfold upload_retrying, list_queues, log_found, extend.
  destruct w as [d ut tr]. munfold. cbn [fst snd].
  destruct (nonempty (Str.sorted (keys "retr_*" d))); cbv beta iota zeta;
    trace_norm; reflexivity.
Qed.


Lemma retrying_loop_nil remaining ret w :
  retrying_loop env opts [] remaining ret w = (Ok ret, w).
Proof. reflexivity. Qed.

(** An iteration whose upload succeeds. *)
Lemma success_iteration queue rest remaining ret w ep :
  RETRY_QUEUE_REGEX_match queue <> None ->
  opt_endpoint opts = Some ep -> 0 <= upload_splay opts -> 0 <= remaining ->
  (forall h req, exists c, http_post env h req = Responded c /\ 200 <= c < 300) ->
  exists w3 evs,
    retrying_loop env opts (queue :: rest) remaining ret w
      = retrying_loop env opts rest (remaining - 1)
          (add_total ret (len (contents queue (db w)))) w3 /\
    trace w3 = (trace w ++ evs)%list /\
    uploads evs = [(contents queue (db w), remaining)].
Proof.
  intros Hm Hep Hsplay Hr Hpost.
  destruct (RETRY_QUEUE_REGEX_match queue) as [m|] eqn:Hmatch; [|done].
  destruct (upload_configured env opts (contents queue (db w)) None remaining
              (read_queue queue w) ep Hep Hsplay Hr) as (pre & Hpre & Hrun).
  cbv zeta in Hrun.
  match type of Hrun with context [classify env ?req (http_post env ?h ?req)] =>
    destruct (Hpost h req) as (c & Hc & Hrange)
  end.
  rewrite Hc in Hrun. rewrite (classify_2xx env _ _ Hrange) in Hrun.
  rewrite (retrying_loop_success env opts queue rest remaining ret w m PyNone _ Hmatch Hrun).
  eexists. eexists. split; [reflexivity|].
  cbn [extend set_db read_queue trace]. split.
  - trace_norm. reflexivity.
  - rewrite uploads_redis, uploads_upload, uploads_app, (uploads_pacing pre Hpre).
    reflexivity.
Qed.

(** C7.  In [upload_retrying] every call of [_upload] is given as
    [splay_factor] the count of retry queues that remain, that is the number
    of queues listed less the uploads that have succeeded so far (the count
    goes down on a successful upload only).  With exactly three retry
    queues, all of them matched and all uploads succeeding, the three calls
    are given 3, 2 and 1, in this order. *)
Theorem retry_splay_factors w :
  let queues := Str.sorted (keys "retr_*" (db w)) in
  let w' := snd (upload_retrying env opts w) in
  (exists evs, trace w' = (trace w ++ evs)%list /\
     map snd (uploads evs) = splays_from (len queues) evs) /\
  (forall ep q1 q2 q3,
     queues = [q1; q2; q3] ->
     RETRY_QUEUE_REGEX_match q1 <> None ->
     RETRY_QUEUE_REGEX_match q2 <> None ->
     RETRY_QUEUE_REGEX_match q3 <> None ->
     opt_endpoint opts = Some ep -> 0 <= upload_splay opts ->
     (forall h req, exists c, http_post env h req = Responded c /\ 200 <= c < 300) ->
     exists evs, trace w' = (trace w ++ evs)%list /\
       map snd (uploads evs) = [3; 2; 1]).
Proof.
  intros queues w'. subst w'. rewrite upload_retrying_unfold. fold queues.
  set (w1 := extend w _).
  set (ret := mkDriveRet 0 None _).
  assert (Hw1 : exists pre, trace w1 = (trace w ++ pre)%list /\ Forall is_quiet pre).
  { subst w1. cbn [extend trace]. eexists. split; [reflexivity|].
    destruct (nonempty queues); repeat constructor. }
  destruct Hw1 as (pre & Hw1 & Hpre).
  split.
  - destruct (retry_pass_splay queues (len queues) w1 _
                (retrying_loop_pass env opts queues (len queues) ret w1))
      as (evs & Htr & Hs).
    exists (pre ++ evs)%list. split.
    + rewrite Htr, Hw1. by rewrite app_assoc.
    + destruct (quiet_front pre Hpre (len queues) evs) as [H1 H2].
      by rewrite H1, H2.
  - intros ep q1 q2 q3 Hq Hm1 Hm2 Hm3 Hep Hsplay Hpost.
    rewrite Hq. unfold len. cbn [length]. change (Z.of_nat 3) with 3.
    destruct (success_iteration q1 [q2; q3] 3 ret w1 ep Hm1 Hep Hsplay ltac:(lia) Hpost)
      as (w2 & e1 & Hl1 & Ht1 & Hu1).
    rewrite Hl1.
    destruct (success_iteration q2 [q3] (3 - 1) (add_total ret (len (contents q1 (db w1))))
                w2 ep Hm2 Hep Hsplay ltac:(lia) Hpost)
      as (w3 & e2 & Hl2 & Ht2 & Hu2).
    rewrite Hl2.
    destruct (success_iteration q3 [] (3 - 1 - 1)
                (add_total (add_total ret (len (contents q1 (db w1))))
                   (len (contents q2 (db w2))))
                w3 ep Hm3 Hep Hsplay ltac:(lia) Hpost)
      as (w4 & e3 & Hl3 & Ht3 & Hu3).
    rewrite Hl3. rewrite retrying_loop_nil. cbn [snd].
    exists (pre ++ e1 ++ e2 ++ e3)%list. split.
    + rewrite Ht3, Ht2, Ht1, Hw1. by repeat rewrite <- app_assoc.
    + destruct (quiet_front pre Hpre 0 (e1 ++ e2 ++ e3)%list) as [H1 _].
      rewrite H1, !uploads_app, Hu1, Hu2, Hu3. reflexivity.
Qed.

End Splay.

Module DemoSplay.
Import Demo DemoRetry.

Definition three_queues : World :=
  world_of
    (Redis.lpush "retr_20240103000000000000_#2" ["C"]
       (Redis.lpush "retr_20240102000000000000_#0" ["B"]
          (Redis.lpush "retr_20240101000000000000_#5" ["A"] Redis.empty))).

End DemoSplay.

Lemma retry_splay_factors_witness :
  let env := Demo.env_of (Responded 200) in
  let w' := snd (upload_retrying env Demo.opts0 DemoSplay.three_queues) in
  exists evs, trace w' = evs /\ map snd (uploads evs) = [3; 2; 1].
Proof.
  intros env w'.
  destruct (retry_splay_factors env Demo.opts0 DemoSplay.three_queues) as [_ H].
  destruct (H Demo.endpoint0 "retr_20240101000000000000_#5"
              "retr_20240102000000000000_#0" "retr_20240103000000000000_#2")
    as (evs & Htr & Hs);
    [vm_compute; reflexivity | vm_compute; discriminate | vm_compute; discriminate
    | vm_compute; discriminate | reflexivity | vm_compute; discriminate
    | intros h req; exists 200; split; [reflexivity|lia] |].
  exists evs. split; [exact Htr|exact Hs].
Defined.

(** ** Retry queues whose name does not parse *)

(** The pattern of the specification, [^retr_(\d+)_#(\d+)$]: the pattern
    of the code with the type fixed to ["retr"]. *)
Definition spec_retry_regex_match (name : string) : option RetryMatch :=
  match_type_timestamp_attempt (fun ty => bool_decide (ty = Str.chars "retr")) name.

(** The queues read with [LRANGE] in a stretch of history: those for which
    an upload is attempted. *)
Definition attempted (evs : list Event) : list string :=
  omap (fun ev => match ev with EvRedis (LRANGE q _ _) => Some q | _ => None end) evs.

Lemma attempted_app evs1 evs2 :
  attempted (evs1 ++ evs2) = (attempted evs1 ++ attempted evs2)%list.
Proof. apply omap_app. Qed.

(** Events that are neither a call of [_upload] nor a read of a queue. *)
Definition no_attempt (ev : Event) : Prop :=
  match ev with
  | EvUpload _ _ | EvRedis (LRANGE _ _ _) => False
  | _ => True
  end.

Lemma no_attempt_nil evs : Forall no_attempt evs -> attempted evs = [] /\ uploads evs = [].
Proof.
  induction 1 as [|ev evs Hev _ IH]; [done|].
  destruct ev as [[]| | | | | | | |]; try done; exact IH.
Qed.

Lemma upload_event_no_attempt entries evs :
  Forall (upload_event entries) evs -> Forall no_attempt evs.
Proof.
  intros H. eapply Forall_impl; [exact H|].
  intros ev. by destruct ev as [[]| | | | | | | |].
Qed.

Section Unparsed.
Context {Data : Type} (env : Env Data) (opts : Options).
Import Redis RedisFacts Frame.

Lemma spec_regex_is_matched name :
  spec_retry_regex_match name <> None -> RETRY_QUEUE_REGEX_match name <> None.
Proof.
  unfold spec_retry_regex_match, RETRY_QUEUE_REGEX_match, match_type_timestamp_attempt.
  destruct (strip_final_newline _) as [r nl].
  destruct (span_digits r) as [[|a0 a] [|c1 [|c2 r1]]]; try done.
  destruct (Ascii.eqb c1 "#" && Ascii.eqb c2 "_"); [|done].
  destruct (span_digits r1) as [[|t0 ts] [|c3 [|y0 ty]]]; try done.
  destruct (Ascii.eqb c3 "_" && negb (has_newline (y0 :: ty))); [|done].
  cbn [andb]. done.
Qed.

(** The pass leaves alone a queue it cannot parse. *)
Lemma retry_pass_other q queues remaining w w' :
  RETRY_QUEUE_REGEX_match q = None ->
  Str.starts_with "retr_" q = true ->
  retry_pass env opts queues remaining w w' ->
  contents q (db w) <> [] ->
  same_at q (db w) (db w').
Proof.
  intros Hq Hprefix.
  induction 1 as
    [ r w
    | queue rest r w w' Hm _ IH
    | queue rest r w m v w2 w' Hm Hup _ IH
    | queue rest r w m msg w2 Hm Hup
    | queue rest r w m rex w2 w' Hm Hne Hup Hmax _ IH
    | queue rest r w m rex w2 w' Hm Hne Hup Hmax _ IH
    | queue rest r w m rex w2 Hm He Hup
    | queue rest r w m e w2 Hm Hup
    | queue rest r w m w2 Hm Hup ]; intros Hex;
    try (pose proof (upload_db _ _ _ _ _ _ _ _ Hup) as Hdb;
         cbn [read_queue extend db] in Hdb);
    try (assert (Hqueue : queue <> q) by (intros ->; congruence)).
  - apply same_at_refl.
  - by apply IH.
  - assert (Hs : same_at q (db w) (snd (del queue (db w2))))
      by (rewrite Hdb; by apply del_other).
    eapply same_at_trans; [exact Hs|]. apply IH.
    cbn [extend set_db db]. destruct Hs as [-> _]. exact Hex.
  - cbn [extend db]. rewrite Hdb. apply same_at_refl.
  - set (fq := FAIL_QUEUE (utcnow env (trace w2 ++ [log_failed_attempt opts (next_attempt m) queue]))).
    assert (Hfq : fq <> q) by (by apply fail_queue_not_retry).
    assert (Hs : same_at q (db w)
                   (db (promoted env opts queue (next_attempt m) (contents queue (db w)) w2))).
    { unfold promoted. cbv zeta. fold fq. cbn [extend set_db db]. rewrite Hdb.
      eapply same_at_trans; [|by apply del_other].
      eapply same_at_trans; [|by apply expire_other].
      by apply lpush_other. }
    eapply same_at_trans; [exact Hs|]. apply IH.
    destruct Hs as [-> _]. exact Hex.
  - assert (Hs : same_at q (db w) (db (renamed opts queue (next_attempt m) w2))).
    { unfold renamed. cbv zeta. cbn [extend set_db db]. rewrite Hdb.
      set (target := sub_attempt _ _).
      destruct (contents target (db w)) as [|t ts] eqn:Ht.
      - destruct (renamenx_moved queue target (db w) Hne Ht) as (d' & -> & _ & _ & Ho).
        apply Ho; [done|]. intros ->. congruence.
      - rewrite (renamenx_blocked queue target (db w) Hne) by (by rewrite Ht).
        apply same_at_refl. }
    eapply same_at_trans; [exact Hs|]. apply IH.
    destruct Hs as [-> _]. exact Hex.
  - unfold refused. destruct (_ <=? _); cbn [extend db]; rewrite Hdb; apply same_at_refl.
  - rewrite Hdb. apply same_at_refl.
  - rewrite Hdb. apply same_at_refl.
Qed.

Lemma attempt_step queue rest r w res w2 tail evs_rest w' m :
  RETRY_QUEUE_REGEX_match queue = Some m ->
  _upload env opts (contents queue (db w)) None r (read_queue queue w) = (res, w2) ->
  Forall no_attempt tail ->
  trace w' = ((trace w2 ++ tail) ++ evs_rest)%list ->
  Forall (fun q => q ∈ rest /\ RETRY_QUEUE_REGEX_match q <> None) (attempted evs_rest) ->
  length (uploads evs_rest) = length (attempted evs_rest) ->
  exists evs, trace w' = (trace w ++ evs)%list /\
    Forall (fun q => q ∈ queue :: rest /\ RETRY_QUEUE_REGEX_match q <> None)
      (attempted evs) /\
    length (uploads evs) = length (attempted evs).
Proof.
  intros Hm Hup Htail Htr Hall Hlen.
  destruct (upload_frame env opts (contents queue (db w)) None r (read_queue queue w))
    as (evs_u & Hevs & _ & Htr2 & _).
  rewrite Hup in Htr2. cbn [snd] in Htr2.
  apply upload_event_no_attempt in Hevs.
  destruct (no_attempt_nil _ Hevs) as [Ha1 Hu1].
  destruct (no_attempt_nil _ Htail) as [Ha2 Hu2].
  exists ([EvRedis (LRANGE queue 0 (-1)); EvUpload (contents queue (db w)) r]
          ++ evs_u ++ tail ++ evs_rest)%list.
  split; [|split].
  - rewrite Htr, Htr2. cbn [read_queue extend trace]. by trace_norm.
  - rewrite !attempted_app, Ha1, Ha2. cbn. constructor.
    + split; [left|congruence].
    + eapply Forall_impl; [exact Hall|]. intros q [H1 H2]. split; [by right|done].
  - rewrite !attempted_app, !uploads_app, Ha1, Ha2, Hu1, Hu2. cbn. by rewrite Hlen.
Qed.

(** The pass reads, and uploads, matched queues only. *)
Lemma retry_pass_attempts queues remaining w w' :
  retry_pass env opts queues remaining w w' ->
  exists evs, trace w' = (trace w ++ evs)%list /\
    Forall (fun q => q ∈ queues /\ RETRY_QUEUE_REGEX_match q <> None) (attempted evs) /\
    length (uploads evs) = length (attempted evs).
Proof.
  induction 1 as
    [ r w
    | queue rest r w w' Hm _ IH
    | queue rest r w m v w2 w' Hm Hup _ IH
    | queue rest r w m msg w2 Hm Hup
    | queue rest r w m rex w2 w' Hm Hne Hup Hmax _ IH
    | queue rest r w m rex w2 w' Hm Hne Hup Hmax _ IH
    | queue rest r w m rex w2 Hm He Hup
    | queue rest r w m e w2 Hm Hup
    | queue rest r w m w2 Hm Hup ].
  - exists []. rewrite app_nil_r. repeat split. constructor.
  - destruct IH as (evs & Htr & Hall & Hlen).
    exists (log_no_match queue :: evs). split; [|split].
    + rewrite Htr. cbn [extend trace]. by trace_norm.
    + cbn. eapply Forall_impl; [exact Hall|]. intros q [H1 H2]. split; [by right|done].
    + exact Hlen.
  - destruct IH as (evs & Htr & Hall & Hlen).
    eapply (attempt_step queue rest r w _ w2 [log_retried queue; EvRedis (DEL queue)] evs);
      [exact Hm|exact Hup|repeat constructor|exact Htr|exact Hall|exact Hlen].
  - eapply (attempt_step queue rest r w _ w2 [log_skipping] []);
      [exact Hm|exact Hup|repeat constructor|by rewrite app_nil_r|constructor|reflexivity].
  - destruct IH as (evs & Htr & Hall & Hlen).
    eapply (attempt_step queue rest r w _ w2 _ evs);
      [exact Hm|exact Hup| |exact Htr|exact Hall|exact Hlen]. repeat constructor.
  - destruct IH as (evs & Htr & Hall & Hlen).
    eapply (attempt_step queue rest r w _ w2 _ evs);
      [exact Hm|exact Hup| |exact Htr|exact Hall|exact Hlen]. repeat constructor.
  - unfold refused. destruct (max_retry opts <=? next_attempt m).
    + eapply (attempt_step queue rest r w _ w2 _ []);
        [exact Hm|exact Hup| |cbn [extend trace]; by rewrite app_nil_r|constructor|reflexivity].
      repeat constructor.
    + eapply (attempt_step queue rest r w _ w2 _ []);
        [exact Hm|exact Hup| |cbn [extend trace]; by rewrite app_nil_r|constructor|reflexivity].
      repeat constructor.
  - eapply (attempt_step queue rest r w _ w2 [] []);
      [exact Hm|exact Hup|constructor|by rewrite !app_nil_r|constructor|reflexivity].
  - eapply (attempt_step queue rest r w _ w2 [] []);
      [exact Hm|exact Hup|constructor|by rewrite !app_nil_r|constructor|reflexivity].
Qed.


Lemma glob_literal c p s :
  Ascii.eqb c "*" = false -> Ascii.eqb c "?" = false ->
  glob (c :: p) s = true -> exists s', s = c :: s' /\ glob p s' = true.
Proof.
  intros H1 H2. cbn [glob]. rewrite H1. destruct s as [|x s']; [done|].
  rewrite H2. cbn [orb]. intros [Hc Hg]%andb_true_iff.
  apply Ascii.eqb_eq in Hc as <-. eauto.
Qed.

(** What [KEYS "retr_*"] lists exists and starts with ["retr_"]. *)
Lemma keys_retr q d :
  q ∈ keys "retr_*" d -> contents q d <> [] /\ Str.starts_with "retr_" q = true.
Proof.
  unfold keys, all_keys. rewrite !list_elem_of_filter.
  intros (Hglob & Hex & _). split; [by apply exists_contents|].
  change (Str.chars "retr_*") with ["r"; "e"; "t"; "r"; "_"; "*"]%char in Hglob.
  apply glob_literal in Hglob as (s1 & Hq & Hglob); [|done..].
  do 4 (apply glob_literal in Hglob as (? & -> & Hglob); [|done..]).
  rewrite <- (of_chars_chars q), Hq. reflexivity.
Qed.

Lemma sorted_elem q l : q ∈ Str.sorted l -> q ∈ l.
Proof.
  assert (Hins : forall x l', q ∈ Str.insert_sorted x l' -> q = x \/ q ∈ l').
  { intros x l'. induction l' as [|y l' IH]; cbn.
    - rewrite list_elem_of_singleton. auto.
    - destruct (Str.le x y).
      + rewrite elem_of_cons. intros [H|H]; auto.
      + rewrite !elem_of_cons. intros [H|H]; [auto|].
        destruct (IH H); auto. }
  induction l as [|x l IH]; cbn; [done|].
  intros H. apply Hins in H as [->|H]; [left|right; by apply IH].
Qed.

(** C8, as the code has it.  [upload_retrying] attempts an upload for a
    listed queue only if its name matches [RETRY_QUEUE_REGEX], which is
    [^(.+)_(\d+)_#(\d+)$] and matches every name that
    [^retr_(\d+)_#(\d+)$] matches.  When the pass comes to a queue whose
    name does not match, it logs the name and goes on with the next queue,
    counters unchanged.  A listed queue whose name does not match is never
    read, uploaded or deleted: after the pass it is still there, contents
    and expiry unchanged. *)
Theorem unparsed_retry_queue :
  (forall queue rest remaining ret w,
     RETRY_QUEUE_REGEX_match queue = None ->
     retrying_loop env opts (queue :: rest) remaining ret w
       = retrying_loop env opts rest remaining ret (extend w [log_no_match queue])) /\
  (forall w,
     let w' := snd (upload_retrying env opts w) in
     (exists evs, trace w' = (trace w ++ evs)%list /\
        Forall (fun q => q ∈ keys "retr_*" (db w) /\ RETRY_QUEUE_REGEX_match q <> None)
          (attempted evs) /\
        length (uploads evs) = length (attempted evs)) /\
     (forall q, q ∈ keys "retr_*" (db w) -> RETRY_QUEUE_REGEX_match q = None ->
        contents q (db w') = contents q (db w) /\
        ttl q (db w') = ttl q (db w) /\
        contents q (db w') <> [])) /\
  (forall name,
     spec_retry_regex_match name <> None -> RETRY_QUEUE_REGEX_match name <> None).
Proof.
  split; [|split].
  - intros. by apply retrying_loop_no_match.
  - intros w w'. subst w'. rewrite upload_retrying_unfold.
    set (queues := Str.sorted (keys "retr_*" (db w))).
    set (w1 := extend w _). set (ret := mkDriveRet 0 None _).
    pose proof (retrying_loop_pass env opts queues (len queues) ret w1) as Hpass.
    split.
    + destruct (retry_pass_attempts _ _ _ _ Hpass) as (evs & Htr & Hall & Hlen).
      exists (EvRedis (KEYS "retr_*")
              :: (if nonempty queues then [log_found opts queues] else []) ++ evs)%list.
      split; [|split].
      * rewrite Htr. subst w1. cbn [extend trace]. by trace_norm.
      * assert (Ha : attempted (EvRedis (KEYS "retr_*")
                       :: (if nonempty queues then [log_found opts queues] else []) ++ evs)
                     = attempted evs) by (destruct (nonempty queues); reflexivity).
        rewrite Ha. eapply Forall_impl; [exact Hall|].
        intros q [H1 H2]. split; [by apply sorted_elem|done].
      * destruct (nonempty queues); exact Hlen.
    + intros q Hq Hm. apply keys_retr in Hq as [Hex Hprefix].
      destruct (retry_pass_other q _ _ _ _ Hm Hprefix Hpass) as [Hc Ht'];
        [subst w1; exact Hex|].
      assert (Hs : same_at q (db w) (db (snd (retrying_loop env opts queues
                                              (len queues) ret w1))))
        by (split; [exact Hc|exact Ht']).
      split; [exact Hc|]. split; [by apply same_at_ttl|]. by rewrite Hc.
  - apply spec_regex_is_matched.
Qed.

End Unparsed.

Module DemoUnparsed.
Import Demo DemoRetry.

Definition odd_type : World :=
  world_of (Redis.lpush "retr_x_1_#0" ["A"] Redis.empty).

Definition no_timestamp : World :=
  world_of
    (Redis.lpush "retr_not_a_timestamp" ["B"]
       (Redis.lpush queue0 ["A"] Redis.empty)).

End DemoUnparsed.

Lemma unparsed_retry_queue_witness :
  let env := Demo.env_of (Responded 200) in
  let w := DemoUnparsed.no_timestamp in
  let w' := snd (upload_retrying env Demo.opts0 w) in
  retrying_loop env Demo.opts0 ["retr_not_a_timestamp"] 1 DemoRetry.ret0 w
    = (Ok DemoRetry.ret0,
       extend w [EvLog ERROR "Failed to match retry queue name 'retr_not_a_timestamp'"]) /\
  Redis.contents "retr_not_a_timestamp" (db w') = ["B"] /\
  Redis.contents DemoRetry.queue0 (db w') = [] /\
  RETRY_QUEUE_REGEX_match DemoRetry.queue0 <> None.
Proof.
  intros env w w'.
  destruct (unparsed_retry_queue env Demo.opts0) as (Hskip & H & Hspec).
  split.
  { rewrite (Hskip "retr_not_a_timestamp" [] 1 DemoRetry.ret0 w); reflexivity. }
  destruct (H w) as [_ Hkeep].
  destruct (Hkeep "retr_not_a_timestamp") as (Hc & _ & _);
    [vm_compute; repeat constructor | reflexivity |].
  split; [exact Hc|]. split; [vm_compute; reflexivity|].
  apply Hspec. vm_compute. discriminate.
Defined.

(** C8 as stated fails: ["retr_x_1_#0"] does not match
    [^retr_(\d+)_#(\d+)$], and yet it is listed, uploaded and deleted. *)
Lemma unparsed_retry_queue_counterexample :
  let env := Demo.env_of (Responded 200) in
  let w := DemoUnparsed.odd_type in
  let w' := snd (upload_retrying env Demo.opts0 w) in
  spec_retry_regex_match "retr_x_1_#0" = None /\
  Redis.keys "retr_*" (db w) = ["retr_x_1_#0"] /\
  uploads (trace w') = [(["A"], 1)] /\
  Redis.contents "retr_x_1_#0" (db w') = [].
Proof.
  repeat split; vm_compute; reflexivity.
Qed.

(** ** The batch cap *)

Section BatchCap.
Context {Data : Type} (env : Env Data) (opts : Options).
Import Redis RedisFacts Frame.

(** The queues that may grow past a batch: [pend] and the fail queues. *)
Definition capped (k : string) : Prop :=
  k <> PENDING_QUEUE /\ Str.starts_with "fail_" k = false.

(** A list that fits in a request. *)
Definition fits (l : list string) : Prop := l = [] \/ len l <= batch_size opts.

(** Every other queue holds at most a batch. *)
Definition capped_db (d : Db) : Prop := forall k, capped k -> fits (contents k d).

(** Every call of [_upload] was given at most a batch, and every request
    carries at most a batch. *)
Definition capped_event (ev : Event) : Prop :=
  match ev with
  | EvUpload entries _ => len entries <= batch_size opts
  | EvPost req _ =>
      exists entries, req_data req = payload_of entries /\ len entries <= batch_size opts
  | _ => True
  end.

Definition cap_inv (w : World) : Prop :=
  capped_db (db w) /\ Forall capped_event (trace w).

Lemma cap_inv_extend w evs :
  cap_inv w -> Forall capped_event evs -> cap_inv (extend w evs).
Proof.
  intros [Hd Ht] Hevs. split; [exact Hd|]. cbn [extend trace].
  apply Forall_app. by split.
Qed.

Lemma cap_inv_set_db w d : cap_inv w -> capped_db d -> cap_inv (set_db w d).
Proof. intros [_ Ht] Hd. by split. Qed.

Lemma fits_nil : fits [].
Proof. by left. Qed.

Lemma capped_db_same d d' :
  capped_db d -> (forall k, capped k -> fits (contents k d') \/ contents k d' = contents k d) ->
  capped_db d'.
Proof.
  intros Hd H k Hk. destruct (H k Hk) as [Hf| ->]; [exact Hf|by apply Hd].
Qed.

Lemma capped_del k d : capped_db d -> capped_db (snd (del k d)).
Proof.
  intros Hd. apply (capped_db_same d); [exact Hd|]. intros q _.
  rewrite contents_del. case_decide; [left; apply fits_nil|by right].
Qed.

Lemma capped_expire k s d : capped_db d -> capped_db (snd (expire k s d)).
Proof.
  intros Hd. unfold expire. destruct (exists_ k d); [|exact Hd].
  cbn [snd]. destruct (s <=? 0); [by apply capped_del|exact Hd].
Qed.

Lemma capped_lpush k vs d :
  ~ capped k -> capped_db d -> capped_db (lpush k vs d).
Proof.
  intros Hk Hd. apply (capped_db_same d); [exact Hd|]. intros q Hq. right.
  rewrite contents_lpush. rewrite decide_False; [done|]. intros ->. done.
Qed.

Lemma capped_renamenx src dst d b d' :
  capped_db d -> fits (contents src d) ->
  renamenx src dst d = Some (b, d') -> capped_db d'.
Proof.
  intros Hd Hsrc. unfold renamenx.
  destruct (exists_ src d) eqn:Hes; [|done].
  destruct (exists_ dst d) eqn:Hed; intros [= <- <-]; [exact Hd|].
  intros k Hk. unfold contents. cbn [lists].
  destruct (decide (dst = k)) as [->|Hne1].
  { rewrite lookup_insert_eq. exact Hsrc. }
  rewrite lookup_insert_ne by done.
  destruct (decide (src = k)) as [->|Hne2].
  { rewrite lookup_delete_eq. apply fits_nil. }
  rewrite lookup_delete_ne by done. by apply Hd.
Qed.

(** The script keeps the cap when the work queue is a capped one, and what
    it returns fits in a request. *)
Lemma capped_dequeue src work d :
  capped work -> capped_db d ->
  capped_db (snd (dequeue_batch src work (batch_size opts) d)) /\
  fits (fst (dequeue_batch src work (batch_size opts) d)).
Proof.
  intros Hwork Hd.
  destruct (dequeue_batch_cases src work (batch_size opts) d) as (H1 & H2 & H3).
  destruct (contents work d) as [|x wl] eqn:Hw.
  - destruct (contents src d) as [|y sl] eqn:Hs.
    + rewrite H3 by done. split; [exact Hd|apply fits_nil].
    + destruct H2 as (d' & -> & Hlen & _ & Hsrc & Hdst & _ & Ho); [done..|].
      cbn [fst snd].
      set (k := Z.to_nat (Z.min (batch_size opts) (len (y :: sl)))) in *.
      set (moved := drop (length (y :: sl) - k) (y :: sl)) in *.
      assert (Hmoved : fits moved).
      { destruct moved as [|m0 ms] eqn:Hm; [apply fits_nil|]. right.
        unfold len. rewrite Hlen. subst k. cbn [length] in Hlen. lia. }
      split.
      * intros q Hq.
        destruct (decide (q = work)) as [->|Hne1]; [by rewrite Hdst|].
        destruct (decide (q = src)) as [->|Hne2].
        -- rewrite Hsrc. destruct (Hd src Hq) as [Hnil|Hle]; [by rewrite Hs in Hnil|].
           rewrite Hs in Hle. right. unfold len in *. rewrite length_take. lia.
        -- rewrite Ho by done. by apply Hd.
      * destruct Hmoved as [->|Hle]; [left; reflexivity|].
        right. unfold len in *. by rewrite length_rev.
  - rewrite H1 by done. cbn [fst snd]. split; [exact Hd|].
    rewrite <- Hw. by apply Hd.
Qed.

Lemma fail_queue_exempt now : ~ capped (FAIL_QUEUE now).
Proof. intros [_ H]. unfold FAIL_QUEUE in H. cbn in H. discriminate. Qed.

Lemma pending_exempt : ~ capped PENDING_QUEUE.
Proof. by intros [H _]. Qed.

Lemma pending_work_capped : capped PENDING_WORK_QUEUE.
Proof. split; [done|reflexivity]. Qed.

Lemma fail_work_capped : capped FAIL_WORK_QUEUE.
Proof. split; [done|reflexivity]. Qed.

Lemma retry_queue_capped q : Str.starts_with "retr_" q = true -> capped q.
Proof.
  intros H. split; [by intros ->|].
  destruct q as [|c q]; [done|]. cbn [Str.starts_with] in H |- *.
  destruct (Ascii.eqb_spec "r" c) as [<-|]; [reflexivity|done].
Qed.


(** *** The methods keep the cap *)

Lemma upload_keeps entries ep sf w :
  cap_inv w -> len entries <= batch_size opts ->
  cap_inv (snd (_upload env opts entries ep sf w)).
Proof.
  intros [Hd Ht] Hlen.
  destruct (upload_frame env opts entries ep sf w) as (evs & Hevs & Hdb & Htr & _).
  split; [by rewrite Hdb|]. rewrite Htr.
  apply Forall_app. split; [exact Ht|]. constructor; [exact Hlen|].
  eapply Forall_impl; [exact Hevs|].
  intros ev Hev. destruct ev; try done. cbn in Hev |- *. eauto.
Qed.

Lemma dequeued_keeps src work w :
  capped work -> cap_inv w ->
  cap_inv (dequeued opts src work w) /\
  fits (fst (dequeue_batch src work (batch_size opts) (db w))).
Proof.
  intros Hwork Hw. destruct (capped_dequeue src work (db w) Hwork (proj1 Hw)) as [Hd Hf].
  split; [|exact Hf]. unfold dequeued.
  apply cap_inv_extend; [by apply cap_inv_set_db|repeat constructor].
Qed.

Lemma upload_batch_keeps src work w :
  capped work -> cap_inv w -> cap_inv (snd (_upload_batch env opts src work w)).
Proof.
  intros Hwork Hw. rewrite upload_batch_unfold. cbv zeta.
  destruct (dequeued_keeps src work w Hwork Hw) as [Hw1 Hfits].
  destruct (fst (dequeue_batch src work (batch_size opts) (db w))) as [|b batch] eqn:Hb.
  - cbn [snd]. destruct (debug_enabled env); [|exact Hw1].
    apply cap_inv_extend; [exact Hw1|repeat constructor].
  - destruct Hfits as [Hnil|Hlen]; [done|].
    pose proof (upload_keeps (b :: batch) None 1 _ Hw1 Hlen) as Hw2.
    destruct (_upload env opts (b :: batch) None 1 (dequeued opts src work w))
      as [[[[] msg]| |] w2]; cbn [snd] in Hw2 |- *; try exact Hw2.
    + apply cap_inv_extend; [|repeat constructor].
      apply cap_inv_set_db; [exact Hw2|]. apply capped_del. exact (proj1 Hw2).
    + apply cap_inv_extend; [exact Hw2|repeat constructor].
Qed.

Lemma continuing_loop_keeps fuel src work : forall res ret w,
  capped work -> cap_inv w ->
  cap_inv (snd (continuing_loop env opts fuel src work res ret w)).
Proof.
  induction fuel as [|fuel IH]; intros res ret w Hwork Hw; cbn [continuing_loop].
  - destruct (negb (has_error res) && (count res =? batch_size opts)); exact Hw.
  - destruct (negb (has_error res) && (count res =? batch_size opts)); [|exact Hw].
    unfold mbind, M_bind, bind.
    pose proof (upload_batch_keeps src work w Hwork Hw) as Hw1.
    destruct (_upload_batch env opts src work w) as [[res'| |] w1];
      cbn [snd] in Hw1 |- *; try exact Hw1.
    by apply IH.
Qed.

Lemma upload_batch_continuing_keeps fuel src work w :
  capped work -> cap_inv w ->
  cap_inv (snd (_upload_batch_continuing env opts fuel src work w)).
Proof.
  intros Hwork Hw. rewrite upload_batch_continuing_unfold.
  pose proof (upload_batch_keeps src work w Hwork Hw) as Hw1.
  destruct (_upload_batch env opts src work w) as [[res'| |] w1];
    cbn [snd] in Hw1 |- *; try exact Hw1.
  by apply continuing_loop_keeps.
Qed.

Lemma failing_loop_keeps fuel queues : forall ret w,
  cap_inv w -> cap_inv (snd (failing_loop env opts fuel queues ret w)).
Proof.
  induction queues as [|queue rest IH]; intros ret w Hw; [exact Hw|].
  cbn [failing_loop]. unfold try_except.
  pose proof (upload_batch_continuing_keeps fuel queue FAIL_WORK_QUEUE w
                fail_work_capped Hw) as Hw1.
  destruct (_upload_batch_continuing env opts fuel queue FAIL_WORK_QUEUE w)
    as [[res|[rex|e]|] w1]; cbn [snd] in Hw1 |- *; try exact Hw1.
  - destruct (error res); [exact Hw1|by apply IH].
  - destruct w1. munfold. cbn [snd].
    change (cap_inv (extend (mkWorld db0 upload_timer0 trace0)
                       [EvLog WARNING "Still unable to upload failed batch(es)"])).
    apply cap_inv_extend; [exact Hw1|repeat constructor].
Qed.

Lemma upload_failing_keeps fuel w :
  cap_inv w -> cap_inv (snd (upload_failing env opts fuel w)).
Proof.
  intros Hw. unfold upload_failing, list_queues. destruct w as [d ut tr].
  munfold. cbn [fst snd].
  set (queues := Str.sorted (keys "fail_*" d)).
  assert (H1 : cap_inv (extend (mkWorld d ut tr) [EvRedis (KEYS "fail_*")]))
    by (apply cap_inv_extend; [exact Hw|repeat constructor]).
  destruct (nonempty queues); cbv beta iota zeta.
  - apply failing_loop_keeps.
    change (cap_inv (extend (extend (mkWorld d ut tr) [EvRedis (KEYS "fail_*")])
                       [EvLog WARNING ("Found " ++ Str.of_Z (len queues) ++ " fail queue(s)")])).
    apply cap_inv_extend; [exact H1|repeat constructor].
  - apply failing_loop_keeps. exact H1.
Qed.

Lemma upload_pending_keeps fuel w :
  cap_inv w -> cap_inv (snd (upload_pending env opts fuel w)).
Proof.
  intros Hw. unfold upload_pending, try_except.
  pose proof (upload_batch_continuing_keeps fuel PENDING_QUEUE PENDING_WORK_QUEUE w
                pending_work_capped Hw) as Hw1.
  destruct (_upload_batch_continuing env opts fuel PENDING_QUEUE PENDING_WORK_QUEUE w)
    as [[res|[rex|e]|] w1]; cbn [snd] in Hw1 |- *; try exact Hw1.
  destruct w1 as [d1 ut1 tr1]. munfold.
  set (now := utcnow env tr1).
  set (evs := [EvUtcnow now;
               EvLog WARNING ("Failed to upload pending batch - transferring to dedicated retry queue '"
                              ++ RETRY_QUEUE now 0 ++ "'");
               EvRedis (RENAMENX PENDING_WORK_QUEUE (RETRY_QUEUE now 0))]).
  assert (H1 : cap_inv (extend (mkWorld d1 ut1 tr1) evs))
    by (apply cap_inv_extend; [exact Hw1|repeat constructor]).
  destruct (renamenx PENDING_WORK_QUEUE (RETRY_QUEUE now 0) d1) as [[b d']|] eqn:Hr;
    cbv beta iota zeta; cbn [snd].
  - assert (Hd' : capped_db d').
    { eapply capped_renamenx; [exact (proj1 Hw1)| |exact Hr].
      apply (proj1 Hw1). apply pending_work_capped. }
    split; [exact Hd'|]. destruct H1 as [_ H1]. cbn [extend trace] in H1 |- *.
    by repeat rewrite <- app_assoc.
  - destruct H1 as [H0 H1]. split; [exact H0|]. cbn [extend trace] in H1 |- *.
    by repeat rewrite <- app_assoc.
Qed.

Lemma enqueue_keeps (a : Data) w : cap_inv w -> cap_inv (snd (enqueue env a w)).
Proof.
  intros Hw. rewrite enqueue_run. cbn [snd].
  apply cap_inv_extend; [|repeat constructor].
  apply cap_inv_set_db; [exact Hw|].
  apply capped_lpush; [apply pending_exempt|exact (proj1 Hw)].
Qed.


Lemma retry_pass_keeps queues remaining w w' :
  0 <= batch_size opts ->
  retry_pass env opts queues remaining w w' ->
  Forall capped queues -> cap_inv w -> cap_inv w'.
Proof.
  intros Hbs.
  assert (Hread : forall queue r w res w2,
    capped queue -> cap_inv w ->
    _upload env opts (contents queue (db w)) None r (read_queue queue w) = (res, w2) ->
    cap_inv w2 /\ fits (contents queue (db w)) /\ db w2 = db w).
  { intros queue r w0 res w2 Hq Hw0 Hup.
    pose proof (proj1 Hw0 queue Hq) as Hfits.
    assert (Hlen : len (contents queue (db w0)) <= batch_size opts).
    { destruct Hfits as [->|H]; [exact Hbs|exact H]. }
    assert (Hw1 : cap_inv (read_queue queue w0))
      by (apply cap_inv_extend; [exact Hw0|repeat constructor]).
    pose proof (upload_keeps _ None r _ Hw1 Hlen) as Hw2. rewrite Hup in Hw2.
    split; [exact Hw2|]. split; [exact Hfits|].
    by rewrite (upload_db _ _ _ _ _ _ _ _ Hup). }
  induction 1 as
    [ r w
    | queue rest r w w' Hm _ IH
    | queue rest r w m v w2 w' Hm Hup _ IH
    | queue rest r w m msg w2 Hm Hup
    | queue rest r w m rex w2 w' Hm Hne Hup Hmax _ IH
    | queue rest r w m rex w2 w' Hm Hne Hup Hmax _ IH
    | queue rest r w m rex w2 Hm He Hup
    | queue rest r w m e w2 Hm Hup
    | queue rest r w m w2 Hm Hup ]; intros Hall Hw;
    try (apply Forall_cons in Hall as [Hq Hrest]);
    try (destruct (Hread _ _ _ _ _ Hq Hw Hup) as (Hw2 & Hfits & Hdb)).
  - exact Hw.
  - apply IH; [exact Hrest|]. apply cap_inv_extend; [exact Hw|repeat constructor].
  - apply IH; [exact Hrest|].
    apply cap_inv_extend; [|repeat constructor].
    apply cap_inv_set_db; [exact Hw2|]. apply capped_del. exact (proj1 Hw2).
  - apply cap_inv_extend; [exact Hw2|repeat constructor].
  - apply IH; [exact Hrest|]. unfold promoted. cbv zeta.
    apply cap_inv_extend; [|repeat constructor].
    apply cap_inv_set_db; [exact Hw2|].
    apply capped_del, capped_expire, capped_lpush; [apply fail_queue_exempt|].
    exact (proj1 Hw2).
  - apply IH; [exact Hrest|]. unfold renamed. cbv zeta.
    apply cap_inv_extend; [|repeat constructor].
    apply cap_inv_set_db; [exact Hw2|].
    destruct (renamenx queue _ (db w2)) as [[b d']|] eqn:Hr; [|exact (proj1 Hw2)].
    eapply capped_renamenx; [exact (proj1 Hw2)| |exact Hr]. by rewrite Hdb.
  - unfold refused. destruct (_ <=? _);
      (apply cap_inv_extend; [exact Hw2|repeat constructor]).
  - exact Hw2.
  - exact Hw2.
Qed.

Lemma upload_retrying_keeps w :
  cap_inv w -> cap_inv (snd (upload_retrying env opts w)).
Proof.
  intros Hw. rewrite upload_retrying_unfold. cbv zeta.
  set (queues := Str.sorted (keys "retr_*" (db w))).
  set (w1 := extend w _).
  assert (Hw1 : cap_inv w1).
  { apply cap_inv_extend; [exact Hw|].
    destruct (nonempty queues); repeat constructor. }
  assert (Hlisted : forall q, q ∈ queues -> capped q /\ contents q (db w) <> []).
  { intros q Hq. apply sorted_elem, keys_retr in Hq as [Hne Hp].
    split; [by apply retry_queue_capped|exact Hne]. }
  destruct (Z.le_gt_cases 0 (batch_size opts)) as [Hbs|Hbs].
  - eapply retry_pass_keeps; [exact Hbs|apply retrying_loop_pass| |exact Hw1].
    apply Forall_forall. intros q Hq. by apply Hlisted.
  - destruct queues as [|q rest] eqn:Hqs; [exact Hw1|].
    exfalso. destruct (Hlisted q) as [Hc Hne]; [left|].
    destruct (proj1 Hw q Hc) as [Hnil|Hlen]; [done|].
    unfold len in Hlen. lia.
Qed.

End BatchCap.

(** *** Reachable worlds *)

Section Reachable.
Context {Data : Type} (env : Env Data) (opts : Options).

(** What happens to the instance: a record is enqueued, one of the drive
    operations runs (with some fuel for its loops), or the process starts
    anew on the same database. *)
Inductive Op :=
| OpEnqueue (data : Data)
| OpUploadPending (fuel : nat)
| OpUploadRetrying
| OpUploadFailing (fuel : nat)
| OpRestart.

Definition perform (op : Op) (w : World) : World :=
  match op with
  | OpEnqueue data => snd (enqueue env data w)
  | OpUploadPending fuel => snd (upload_pending env opts fuel w)
  | OpUploadRetrying => snd (upload_retrying env opts w)
  | OpUploadFailing fuel => snd (upload_failing env opts fuel w)
  | OpRestart => mkWorld (db w) None (trace w)
  end.

Inductive reachable : World -> Prop :=
| reach_initial : reachable initial
| reach_step w op : reachable w -> reachable (perform op w).

Lemma reachable_capped w : reachable w -> cap_inv opts w.
Proof.
  induction 1 as [|w op _ IH].
  - split; [|constructor]. intros k _. left. reflexivity.
  - destruct op; cbn [perform].
    + by apply enqueue_keeps.
    + by apply upload_pending_keeps.
    + by apply upload_retrying_keeps.
    + by apply upload_failing_keeps.
    + destruct IH as [Hd Ht]. by split.
Qed.

(** C9.  In every world reachable from the empty database by enqueues,
    drive operations and restarts, no request carries more than
    [batch_size] entries and no call of [_upload] was given more.  In
    particular a retry queue, made by renaming [pend.work], and the two work
    queues never hold more than [batch_size] entries, so what
    [upload_retrying] reads from a retry queue fits in a request. *)
Theorem batch_cap w :
  reachable w ->
  (forall req res, EvPost req res ∈ trace w ->
     exists entries, req_data req = payload_of entries /\ len entries <= batch_size opts) /\
  (forall entries sf, EvUpload entries sf ∈ trace w -> len entries <= batch_size opts) /\
  (forall q, Str.starts_with "retr_" q = true \/ q = PENDING_WORK_QUEUE \/ q = FAIL_WORK_QUEUE ->
     Redis.contents q (db w) <> [] ->
     len (Redis.contents q (db w)) <= batch_size opts).
Proof.
  intros Hr. destruct (reachable_capped w Hr) as [Hd Ht].
  rewrite Forall_forall in Ht.
  split; [|split].
  - intros req res Hin. exact (Ht _ Hin).
  - intros entries sf Hin. exact (Ht _ Hin).
  - intros q Hq Hne.
    assert (Hc : capped q).
    { destruct Hq as [Hq|[->| ->]];
        [by apply retry_queue_capped|apply pending_work_capped|apply fail_work_capped]. }
    destruct (Hd q Hc) as [Hnil|Hlen]; [done|exact Hlen].
Qed.

End Reachable.

Lemma batch_cap_witness :
  let env := Demo.env_of (Responded 500) in
  let opts := mkOptions (Some Demo.endpoint0) (Some 2) None None None None in
  let w := perform env opts OpUploadRetrying
             (perform env opts (OpUploadPending 3)
                (perform env opts (OpEnqueue "C")
                   (perform env opts (OpEnqueue "B")
                      (perform env opts (OpEnqueue "A") initial)))) in
  map req_data (posts (trace w)) = ["[A, B]"; "[B, A]"] /\
  (forall req res, EvPost req res ∈ trace w ->
     exists entries, req_data req = payload_of entries /\ len entries <= 2).
Proof.
  intros env opts w. split; [vm_compute; reflexivity|].
  apply (batch_cap env opts w). subst w. repeat apply reach_step. apply reach_initial.
Defined.

(** * Further properties *)

(** ** Decimal numbers in queue names *)

Section Decimals.

Definition all_digits (l : list ascii) : Prop :=
  l <> [] /\ forallb Str.is_digit l = true.

Lemma uint_digits d : forallb Str.is_digit (Str.chars (NilEmpty.string_of_uint d)) = true.
Proof. induction d; cbn [NilEmpty.string_of_uint Str.chars list_ascii_of_string forallb]; try done;
  unfold Str.chars in IHd; rewrite IHd; reflexivity. Qed.

Lemma uint_value_acc d : forall p,
  fold_left (fun acc c => 10 * acc + Str.digit_val c)
    (Str.chars (NilEmpty.string_of_uint d)) (Zpos p)
  = Zpos (Pos.of_uint_acc d p).
Proof.
  induction d; intros p;
    cbn [NilEmpty.string_of_uint Str.chars list_ascii_of_string fold_left Pos.of_uint_acc];
    try reflexivity;
    match goal with
    | |- fold_left ?f ?l (10 * Z.pos p + Str.digit_val ?c) = _ =>
        let v := eval vm_compute in (Str.digit_val c) in
        change (Str.digit_val c) with v
    end;
    match goal with
    | |- fold_left ?f ?l ?acc = Z.pos (Pos.of_uint_acc _ ?q) =>
        replace acc with (Z.pos q) by lia
    end;
    apply IHd.
Qed.

Lemma uint_value d :
  Str.int_of_digits (Str.chars (NilEmpty.string_of_uint d)) = Z.of_N (Pos.of_uint d).
Proof.
  unfold Str.int_of_digits.
  induction d;
    cbn [NilEmpty.string_of_uint Str.chars list_ascii_of_string fold_left Pos.of_uint];
    try reflexivity; try exact IHd;
    match goal with
    | |- fold_left ?f ?l (10 * 0 + Str.digit_val ?c) = Z.of_N (N.pos (Pos.of_uint_acc _ ?q)) =>
        let v := eval vm_compute in (Str.digit_val c) in
        change (10 * 0 + Str.digit_val c) with (Z.pos q)
    end;
    apply uint_value_acc.
Qed.

Lemma of_Z_pos p : Str.of_Z (Z.pos p) = NilEmpty.string_of_uint (Pos.to_uint p).
Proof.
  unfold Str.of_Z, Z.to_int, NilZero.string_of_int, NilZero.string_of_uint.
  pose proof (Unsigned.to_uint_nonnil p) as Hnil.
  destruct (Pos.to_uint p); done.
Qed.

(** ["{:d}".format(n)] for [n >= 0] is a non-empty run of digits, and
    [int] reads [n] back from it. *)
Lemma of_Z_digits n : 0 <= n -> all_digits (Str.chars (Str.of_Z n)).
Proof.
  intros Hn. destruct n as [|p|p]; [done| |lia].
  rewrite (of_Z_pos p). pose proof (Unsigned.to_uint_nonnil p) as Hnil.
  split; [|apply uint_digits]. destruct (Pos.to_uint p); done.
Qed.

Lemma int_of_Z n : 0 <= n -> Str.int_of_digits (Str.chars (Str.of_Z n)) = n.
Proof.
  intros Hn. destruct n as [|p|p]; [reflexivity| |lia].
  rewrite (of_Z_pos p), uint_value, Unsigned.of_to. reflexivity.
Qed.

Lemma int_of_digits_nonneg l : forallb Str.is_digit l = true -> 0 <= Str.int_of_digits l.
Proof.
  unfold Str.int_of_digits.
  assert (H : forall acc, 0 <= acc -> forallb Str.is_digit l = true ->
            0 <= fold_left (fun acc c => 10 * acc + Str.digit_val c) l acc).
  { induction l as [|c l IH]; intros acc Hacc Hl; [exact Hacc|].
    cbn [forallb fold_left] in *. apply andb_true_iff in Hl as [Hc Hl].
    apply IH; [|exact Hl].
    unfold Str.is_digit in Hc. apply andb_true_iff in Hc as [Hc _].
    apply Nat.leb_le in Hc. unfold Str.digit_val. lia. }
  apply H. lia.
Qed.

End Decimals.

(** ** The names [RETRY_QUEUE_REGEX] matches *)

Section RegexNames.

Lemma span_digits_run d r :
  forallb Str.is_digit d = true ->
  match r with c :: _ => Str.is_digit c = false | [] => True end ->
  span_digits (d ++ r) = (d, r).
Proof.
  intros Hd Hr. induction d as [|c d IH]; cbn [app span_digits forallb] in *.
  - destruct r as [|c r]; [reflexivity|]. cbn [span_digits]. by rewrite Hr.
  - apply andb_true_iff in Hd as [Hc Hd]. rewrite Hc, (IH Hd). reflexivity.
Qed.

Lemma span_digits_sound l : forall d r,
  span_digits l = (d, r) -> forallb Str.is_digit d = true.
Proof.
  induction l as [|c l IH]; intros d r H; cbn [span_digits] in H.
  - by inversion H.
  - destruct (Str.is_digit c) eqn:Hc.
    + destruct (span_digits l) as [d' r'] eqn:Hs. injection H as <- <-.
      cbn [forallb]. rewrite Hc. by apply (IH d' r').
    + by inversion H.
Qed.

Lemma forallb_rev {A} (f : A -> bool) l : forallb f (rev l) = forallb f l.
Proof.
  induction l as [|x l IH]; [reflexivity|].
  cbn [rev forallb]. rewrite forallb_app, IH. cbn [forallb].
  destruct (f x), (forallb f l); reflexivity.
Qed.

Lemma has_newline_rev l : has_newline (rev l) = has_newline l.
Proof.
  unfold has_newline. induction l as [|x l IH]; [reflexivity|].
  cbn [rev existsb]. rewrite existsb_app, IH. cbn [existsb].
  destruct (Ascii.eqb Str.newline x), (existsb (Ascii.eqb Str.newline) l); reflexivity.
Qed.

Lemma rev_nonnil {A} (l : list A) : l <> [] -> rev l <> [].
Proof.
  intros Hl Hr. apply Hl. apply (f_equal (@rev A)) in Hr.
  by rewrite rev_involutive in Hr.
Qed.

Lemma digit_not_newline c : Str.is_digit c = true -> Ascii.eqb c Str.newline = false.
Proof.
  intros Hc. apply Ascii.eqb_neq. intros ->. vm_compute in Hc. discriminate.
Qed.

(** The groups of a name put together. *)
Definition name_chars (ty ts a nl : list ascii) : list ascii :=
  (ty ++ ["_"%char] ++ ts ++ ["_"%char; "#"%char] ++ a ++ nl)%list.

Lemma retry_name_chars m a nl :
  retry_name m (Str.of_chars a) nl
  = Str.of_chars (name_chars (group_type m) (group_timestamp m) a nl).
Proof.
  unfold retry_name, name_chars. rewrite !of_chars_app. reflexivity.
Qed.

(** Completeness of the matcher. *)
Lemma match_name_chars ty ts a nl :
  ty <> [] -> has_newline ty = false -> all_digits ts -> all_digits a ->
  nl = [] \/ nl = [Str.newline] ->
  RETRY_QUEUE_REGEX_match (Str.of_chars (name_chars ty ts a nl))
  = Some (mkRetryMatch ty ts a).
Proof.
  intros Hty Hnl [Hts1 Hts2] [Ha1 Ha2] Hend.
  unfold RETRY_QUEUE_REGEX_match, match_type_timestamp_attempt, name_chars.
  rewrite chars_of_chars.
  assert (Hrev : rev (ty ++ ["_"%char] ++ ts ++ ["_"%char; "#"%char] ++ a ++ nl)
                 = (rev nl ++ rev a ++ ["#"%char; "_"%char] ++ rev ts
                    ++ ["_"%char] ++ rev ty)%list).
  { rewrite !rev_app_distr. cbn [rev app]. by repeat rewrite <- app_assoc. }
  rewrite Hrev.
  assert (Hstrip : strip_final_newline
                     (rev nl ++ rev a ++ ["#"%char; "_"%char] ++ rev ts
                      ++ ["_"%char] ++ rev ty)
                   = ((rev a ++ ["#"%char; "_"%char] ++ rev ts
                       ++ ["_"%char] ++ rev ty)%list, nl)).
  { destruct Hend as [->| ->].
    - cbn [rev app]. pose proof (rev_nonnil a Ha1) as Hra.
      destruct (rev a) as [|c ra] eqn:Hr; [done|].
      cbn [app strip_final_newline].
      assert (Hc : Str.is_digit c = true).
      { pose proof (forallb_rev Str.is_digit a) as Hf. rewrite Hr, Ha2 in Hf.
        cbn [forallb] in Hf. by apply andb_true_iff in Hf as [Hc _]. }
      by rewrite (digit_not_newline c Hc).
    - cbn [rev app strip_final_newline]. by rewrite Ascii.eqb_refl. }
  rewrite Hstrip.
  rewrite (span_digits_run (rev a)); [|by rewrite forallb_rev|reflexivity].
  pose proof (rev_nonnil a Ha1) as Hra.
  destruct (rev a) as [|a0 ra] eqn:Hr; [done|].
  cbn [app]. cbn [Ascii.eqb Bool.eqb andb].
  rewrite (span_digits_run (rev ts)); [|by rewrite forallb_rev|reflexivity].
  pose proof (rev_nonnil ts Hts1) as Hrts.
  destruct (rev ts) as [|t0 rts] eqn:Hrt; [done|].
  pose proof (rev_nonnil ty Hty) as Hrty.
  destruct (rev ty) as [|y0 rty] eqn:Hry; [done|].
  cbn [app]. cbn [Ascii.eqb Bool.eqb andb].
  rewrite <- Hry, has_newline_rev, Hnl. cbn [negb andb].
  rewrite rev_involutive. rewrite <- Hrt, <- Hr, !rev_involutive. reflexivity.
Qed.

(** Soundness, with what the groups are made of. *)
Lemma match_groups queue m :
  RETRY_QUEUE_REGEX_match queue = Some m ->
  group_type m <> [] /\ has_newline (group_type m) = false /\
  all_digits (group_timestamp m) /\ all_digits (group_attempt m).
Proof.
  unfold RETRY_QUEUE_REGEX_match, match_type_timestamp_attempt.
  destruct (strip_final_newline (rev (Str.chars queue))) as [r nl].
  destruct (span_digits r) as [a rest] eqn:Ha.
  pose proof (span_digits_sound _ _ _ Ha) as Hda.
  destruct a as [|a0 a']; [done|].
  destruct rest as [|c1 [|c2 r1]]; [done..|].
  destruct (Ascii.eqb c1 "#" && Ascii.eqb c2 "_"); [|done].
  destruct (span_digits r1) as [ts rest1] eqn:Hts.
  pose proof (span_digits_sound _ _ _ Hts) as Hdts.
  destruct ts as [|t0 ts']; [done|].
  destruct rest1 as [|c3 [|y0 ty']]; [done..|].
  destruct (Ascii.eqb c3 "_"); cbn [andb]; [|done].
  destruct (has_newline (y0 :: ty')) eqn:Hnl; cbn [negb andb]; [done|].
  remember (y0 :: ty') as ty. remember (t0 :: ts') as ts. remember (a0 :: a') as a.
  intros H.
  assert (Hm : m = mkRetryMatch (rev ty) (rev ts) (rev a)) by congruence.
  subst m. cbn [group_type group_timestamp group_attempt].
  split; [apply rev_nonnil; by subst ty|].
  split; [by rewrite has_newline_rev|].
  split; (split; [apply rev_nonnil; by subst|by rewrite forallb_rev]).
Qed.

(** X1.  [RETRY_QUEUE_REGEX] matches a name exactly when the name is a type
    that is not empty and holds no newline, ["_"], a run of digits, ["_#"],
    a run of digits, and at most one final newline; the groups are then this
    type, timestamp and attempt. *)
Theorem retry_regex_characterised queue m :
  RETRY_QUEUE_REGEX_match queue = Some m <->
  exists nl, (nl = [] \/ nl = [Str.newline]) /\
    queue = retry_name m (Str.of_chars (group_attempt m)) nl /\
    group_type m <> [] /\ has_newline (group_type m) = false /\
    all_digits (group_timestamp m) /\ all_digits (group_attempt m).
Proof.
  split.
  - intros Hm. destruct (retry_name_structure queue m Hm) as (nl & Hnl & Hq & _).
    exists nl. split; [exact Hnl|]. split; [exact Hq|]. by apply (match_groups queue).
  - intros (nl & Hnl & -> & Hty & Hnew & Hts & Ha).
    rewrite retry_name_chars. destruct m as [ty ts a].
    by apply match_name_chars.
Qed.

End RegexNames.


(** ** Names of retry queues read back *)

Section NameRoundTrip.

Lemma chars_app a b : Str.chars (a ++ b) = (Str.chars a ++ Str.chars b)%list.
Proof.
  rewrite <- (of_chars_chars a), <- (of_chars_chars b), <- of_chars_app.
  by rewrite !chars_of_chars.
Qed.

Lemma all_digits_app a b :
  all_digits a -> all_digits b -> all_digits (a ++ b).
Proof.
  intros [Ha1 Ha2] [_ Hb2]. split.
  - destruct a; [done|]. discriminate.
  - by rewrite forallb_app, Ha2, Hb2.
Qed.

Lemma pad0_digits width n : all_digits (Str.chars (Str.pad0 width n)).
Proof.
  unfold Str.pad0. rewrite chars_app, chars_of_chars.
  destruct (of_Z_digits (Z.of_N n)) as [Hne Hd]; [lia|].
  split.
  - intros [_ H]%app_eq_nil. done.
  - rewrite forallb_app, Hd, andb_true_r.
    induction (width - String.length (Str.of_Z (Z.of_N n)))%nat as [|k IH];
      [reflexivity|]. cbn [replicate forallb]. by rewrite IH.
Qed.

Lemma strftime_micro_digits t : all_digits (Str.chars (strftime_micro t)).
Proof.
  unfold strftime_micro, strftime_date. rewrite !chars_app.
  repeat apply all_digits_app; apply pad0_digits.
Qed.

Lemma glob_star s : Redis.glob ["*"%char] s = true.
Proof.
  cbn [Redis.glob]. change (Ascii.eqb "*" "*") with true. cbn match.
  induction s as [|c s IH]; [reflexivity|].
  rewrite IH. apply orb_true_r.
Qed.

Lemma glob_lit_step c p s :
  Ascii.eqb c "*" = false -> Ascii.eqb c "?" = false ->
  Redis.glob (c :: p) (c :: s) = Redis.glob p s.
Proof.
  intros H1 H2. cbn [Redis.glob]. by rewrite H1, H2, Ascii.eqb_refl.
Qed.

Lemma RETRY_QUEUE_chars t n :
  RETRY_QUEUE t n
  = Str.of_chars (name_chars (Str.chars "retr") (Str.chars (strftime_micro t))
                             (Str.chars (Str.of_Z n)) []).
Proof.
  rewrite <- (of_chars_chars (RETRY_QUEUE t n)). f_equal.
  unfold RETRY_QUEUE, name_chars. rewrite !chars_app, app_nil_r. reflexivity.
Qed.

(** X2.  The name [upload_pending] gives a retry queue is one that
    [upload_retrying] finds and reads back: [KEYS "retr_*"] matches it, and
    [RETRY_QUEUE_REGEX] splits it into the type ["retr"], the timestamp as
    formatted, and an attempt that [int] reads as the number formatted. *)
Theorem retry_queue_name_round_trip t n :
  0 <= n ->
  Redis.glob (Str.chars "retr_*") (Str.chars (RETRY_QUEUE t n)) = true /\
  exists m, RETRY_QUEUE_REGEX_match (RETRY_QUEUE t n) = Some m /\
    group_type m = Str.chars "retr" /\
    group_timestamp m = Str.chars (strftime_micro t) /\
    Str.int_of_digits (group_attempt m) = n.
Proof.
  intros Hn. split.
  - unfold RETRY_QUEUE. rewrite chars_app.
    change (Str.chars "retr_*") with ["r"; "e"; "t"; "r"; "_"; "*"]%char.
    change (Str.chars "retr_") with ["r"; "e"; "t"; "r"; "_"]%char.
    cbn [app]. 
    do 5 (rewrite glob_lit_step; [|reflexivity..]).
    apply glob_star.
  - eexists. split; [|split; [|split]].
    + rewrite RETRY_QUEUE_chars. apply match_name_chars.
      * discriminate.
      * reflexivity.
      * apply strftime_micro_digits.
      * by apply of_Z_digits.
      * by left.
    + reflexivity.
    + reflexivity.
    + by apply int_of_Z.
Qed.

Lemma retry_queue_name_round_trip_witness :
  exists m, RETRY_QUEUE_REGEX_match
              (RETRY_QUEUE (mkDateTime 2024 1 1 0 0 0 0) 0) = Some m /\
            Str.int_of_digits (group_attempt m) = 0.
Proof.
  destruct (retry_queue_name_round_trip (mkDateTime 2024 1 1 0 0 0 0) 0)
    as (_ & m & Hm & _ & _ & Ha); [lia|].
  exists m. split; [exact Hm | exact Ha].
Defined.

Lemma starts_with_stem ty ts a a' nl :
  Str.starts_with "retr_" (Str.of_chars (name_chars ty ts a nl))
  = Str.starts_with "retr_" (Str.of_chars (name_chars ty ts a' nl)).
Proof.
  destruct ty as [|c1 [|c2 [|c3 [|c4 [|c5 ty]]]]]; reflexivity.
Qed.

(** X3.  The rename of a retry attempt gives a name of the same kind: it
    is matched again with the same type and timestamp, its attempt is one
    more than the one read from the old name, and it starts with ["retr_"]
    when the old name does. *)
Theorem renamed_queue_next_attempt queue m :
  RETRY_QUEUE_REGEX_match queue = Some m ->
  exists m', RETRY_QUEUE_REGEX_match (sub_attempt (next_attempt m) queue) = Some m' /\
    group_type m' = group_type m /\
    group_timestamp m' = group_timestamp m /\
    Str.int_of_digits (group_attempt m') = Str.int_of_digits (group_attempt m) + 1 /\
    Str.starts_with "retr_" (sub_attempt (next_attempt m) queue)
    = Str.starts_with "retr_" queue.
Proof.
  intros Hm.
  destruct (retry_name_structure queue m Hm) as (nl & Hnl & Hq & Hsub).
  destruct (match_groups queue m Hm) as (Hty & Hnew & Hts & Ha).
  assert (Hnext : 0 <= next_attempt m).
  { unfold next_attempt. pose proof (int_of_digits_nonneg _ (proj2 Ha)). lia. }
  assert (Hname : sub_attempt (next_attempt m) queue
                  = Str.of_chars (name_chars (group_type m) (group_timestamp m)
                                    (Str.chars (Str.of_Z (next_attempt m))) nl)).
  { rewrite Hsub, <- retry_name_chars, of_chars_chars. reflexivity. }
  eexists. split; [|split; [|split; [|split]]].
  - rewrite Hname. apply match_name_chars; try done. by apply of_Z_digits.
  - reflexivity.
  - reflexivity.
  - cbn [group_attempt]. by rewrite int_of_Z.
  - rewrite Hname. rewrite Hq, retry_name_chars.
    apply starts_with_stem.
Qed.

End NameRoundTrip.

Lemma renamed_queue_next_attempt_witness :
  exists m', RETRY_QUEUE_REGEX_match
               (sub_attempt 1 "retr_20240101000000000000_#0") = Some m' /\
             Str.int_of_digits (group_attempt m') = 1.
Proof.
  destruct (renamed_queue_next_attempt "retr_20240101000000000000_#0" DemoRetry.m0)
    as (m' & Hm & _ & _ & Ha & _); [reflexivity|].
  exists m'. split; [exact Hm | exact Ha].
Defined.

(** ** [list_queues] *)

Section ListQueues.
Import Redis RedisFacts.

Lemma le_trans a : forall b c,
  Str.le a b = true -> Str.le b c = true -> Str.le a c = true.
Proof.
  unfold Str.le, String.leb.
  induction a as [|x a IH]; intros [|y b] [|z c]; cbn [String.compare]; try done.
  unfold Ascii.compare.
  destruct (N.compare_spec (N_of_ascii x) (N_of_ascii y)) as [Hxy|Hxy|Hxy];
    destruct (N.compare_spec (N_of_ascii y) (N_of_ascii z)) as [Hyz|Hyz|Hyz];
    try done;
    destruct (N.compare_spec (N_of_ascii x) (N_of_ascii z)) as [Hxz|Hxz|Hxz];
    try done; try lia.
  apply IH.
Qed.

Lemma insert_sorted_perm x l : Str.insert_sorted x l ≡ₚ x :: l.
Proof.
  induction l as [|y l IH]; cbn [Str.insert_sorted]; [done|].
  destruct (Str.le x y); [done|]. rewrite IH. apply Permutation_swap.
Qed.

Lemma sorted_perm l : Str.sorted l ≡ₚ l.
Proof.
  induction l as [|x l IH]; cbn; [done|].
  fold (Str.sorted l). by rewrite insert_sorted_perm, IH.
Qed.

Definition ascending (a b : string) : Prop := Str.le a b = true.

Lemma insert_sorted_ascending x l :
  StronglySorted ascending l -> StronglySorted ascending (Str.insert_sorted x l).
Proof.
  induction 1 as [|y l Hl IH Hy]; cbn [Str.insert_sorted].
  - repeat constructor.
  - destruct (Str.le x y) eqn:Hxy.
    + constructor; [by constructor|]. constructor; [exact Hxy|].
      eapply Forall_impl; [exact Hy|]. intros z Hz. by apply (le_trans x y z).
    + constructor; [exact IH|].
      rewrite insert_sorted_perm. constructor; [|exact Hy].
      destruct (String.leb_total x y) as [H|H]; [|exact H].
      unfold Str.le in Hxy. congruence.
Qed.

Lemma sorted_ascending l : StronglySorted ascending (Str.sorted l).
Proof.
  induction l as [|x l IH]; cbn; [constructor|].
  by apply insert_sorted_ascending.
Qed.

Lemma sorted_snoc {A} (R : A -> A -> Prop) l y :
  StronglySorted R l -> Forall (fun x => R x y) l -> StronglySorted R (l ++ [y]).
Proof.
  induction 1 as [|x l Hl IH Hx]; intros Hy; cbn [app].
  - repeat constructor.
  - apply Forall_cons in Hy as [Hxy Hy]. constructor; [by apply IH|].
    apply Forall_app. split; [exact Hx|]. by constructor.
Qed.

Lemma rev_descending l :
  StronglySorted ascending l -> StronglySorted (flip ascending) (rev l).
Proof.
  induction 1 as [|y l Hl IH Hy]; cbn [rev]; [constructor|].
  apply sorted_snoc; [exact IH|].
  apply Forall_forall. intros x Hx. apply list_elem_of_In, in_rev in Hx.
  rewrite Forall_forall in Hy. apply Hy. by apply list_elem_of_In.
Qed.

Lemma all_keys_spec q d : q ∈ all_keys d <-> contents q d <> [].
Proof.
  unfold all_keys. rewrite list_elem_of_filter, elem_of_elements, elem_of_dom.
  split.
  - intros [H _]. by apply exists_contents.
  - intros H. split; [by apply exists_contents|].
    unfold contents in H. destruct (lists d !! q); [done|]. by destruct H.
Qed.

Lemma keys_spec pattern q d :
  q ∈ keys pattern d <->
  contents q d <> [] /\ glob (Str.chars pattern) (Str.chars q) = true.
Proof.
  unfold keys. rewrite list_elem_of_filter, all_keys_spec. tauto.
Qed.

Lemma keys_NoDup pattern d : NoDup (keys pattern d).
Proof.
  unfold keys, all_keys. do 2 apply NoDup_filter. apply NoDup_elements.
Qed.

(** The patterns this development gives a meaning to: literal characters,
    [?] and [*].  A [KEYS] pattern with a character class or an escape is
    outside it. *)
Definition plain_pattern (pattern : string) : bool :=
  forallb (fun c => negb (Ascii.eqb c (ascii_of_nat 91) || Ascii.eqb c (ascii_of_nat 92)))
    (Str.chars pattern).

(** X4.  For a pattern of literal characters, [?] and [*], [list_queues]
    only reads: one [KEYS] and no change to any queue.  It lists exactly
    the keys that hold a list and match the pattern, each once, in
    ascending byte order, or in descending order with [reverse=True]. *)
Theorem list_queues_sorted pattern reverse w :
  plain_pattern pattern = true ->
  exists l,
    list_queues pattern reverse w = (Ok l, extend w [EvRedis (KEYS pattern)]) /\
    NoDup l /\
    (forall q, q ∈ l <->
       contents q (db w) <> [] /\ glob (Str.chars pattern) (Str.chars q) = true) /\
    StronglySorted (if reverse then flip ascending else ascending) l.
Proof.
  intros _.
  exists (if reverse then rev (Str.sorted (keys pattern (db w)))
          else Str.sorted (keys pattern (db w))).
  split; [destruct w; reflexivity|].
  pose proof (sorted_perm (keys pattern (db w))) as Hperm.
  pose proof (sorted_ascending (keys pattern (db w))) as Hasc.
  pose proof (keys_NoDup pattern (db w)) as Hnd.
  destruct reverse.
  - split; [apply NoDup_ListNoDup, NoDup_rev, NoDup_ListNoDup; by rewrite Hperm|].
    split; [|by apply rev_descending].
    intros q. rewrite list_elem_of_In, <- in_rev, <- list_elem_of_In, Hperm.
    apply keys_spec.
  - split; [by rewrite Hperm|]. split; [|exact Hasc].
    intros q. rewrite Hperm. apply keys_spec.
Qed.

Lemma list_queues_sorted_witness :
  let w := mkWorld (lpush "fail_20240102" ["c"]
                      (lpush "retr_20240101000000000000_#0" ["b"]
                         (lpush "fail_20240101" ["a"] empty))) None [] in
  exists l,
    fst (list_queues "fail_*" true w) = Ok l /\
    StronglySorted (flip ascending) l /\
    ("fail_20240101" ∈ l /\ "fail_20240102" ∈ l) /\
    "retr_20240101000000000000_#0" ∉ l.
Proof.
  intros w.
  destruct (list_queues_sorted "fail_*" true w) as (l & Hrun & _ & Hin & Hs);
    [reflexivity|].
  exists l. split; [by rewrite Hrun|]. split; [exact Hs|]. split.
  - split; apply Hin; (split; [vm_compute; discriminate|vm_compute; reflexivity]).
  - intros [_ Hg]%Hin. vm_compute in Hg. discriminate.
Defined.

End ListQueues.

(** ** The loop of [_upload_batch_continuing] *)

Section Continuing.
Context {Data : Type} (env : Env Data) (opts : Options).
Import Redis RedisFacts.

(** [_upload] has no loop: it returns or raises. *)
Lemma upload_returns entries ep sf w :
  fst (_upload env opts entries ep sf w) <> OutOfFuel.
Proof.
  unfold _upload. destruct w as [d ut tr]. munfold.
  destruct (match ep with Some e => Some e | None => opt_endpoint opts end) as [e|];
    cbv beta iota zeta; [|done].
  destruct (upload_splay opts <? 0); cbv beta iota zeta; [done|].
  destruct ut as [t0|]; cbv beta iota zeta;
    [destruct (negb (Qle_bool _ _)); cbv beta iota zeta;
       [destruct (1 <? sf); cbv beta iota zeta;
        (destruct (_ * sf <? 0); cbv beta iota zeta; [done|])|]|];
    (destruct (http_post env _ _); cbv beta iota zeta; [|done]);
    destruct (_ && _); done.
Qed.

Lemma upload_batch_returns src work w :
  fst (_upload_batch env opts src work w) <> OutOfFuel.
Proof.
  rewrite upload_batch_unfold. cbv zeta.
  destruct (fst (dequeue_batch src work (batch_size opts) (db w))) as [|b batch]; [done|].
  pose proof (upload_returns (b :: batch) None 1 (dequeued opts src work w)) as H.
  destruct (_upload env opts (b :: batch) None 1 _) as [[[[] msg]| |] w2]; done.
Qed.

Lemma contents_deleted k k' d :
  contents k' (mkDb (delete k (lists d)) (delete k (ttls d)))
  = if decide (k = k') then [] else contents k' d.
Proof. exact (contents_del k k' d). Qed.

(** The loop goes on after [res]. *)
Definition goes_on (res : BatchRet) : bool :=
  negb (has_error res) && (count res =? batch_size opts).

(** A batch that was uploaded leaves the work queue empty, and it came out
    of the source queue unless the work queue held it already. *)
Lemma upload_batch_progress src work w res w' :
  _upload_batch env opts src work w = (Ok res, w') ->
  has_error res = false -> count res <> 0 ->
  contents work (db w') = [] /\
  (length (contents src (db w')) <= length (contents src (db w)))%nat /\
  (contents work (db w) = [] ->
   (length (contents src (db w')) < length (contents src (db w)))%nat).
Proof.
  rewrite upload_batch_unfold. cbv zeta.
  destruct (dequeue_batch_cases src work (batch_size opts) (db w)) as (H1 & H2 & H3).
  destruct (fst (dequeue_batch src work (batch_size opts) (db w))) as [|b batch] eqn:Hb.
  { intros [= <- <-]. done. }
  destruct (_upload env opts (b :: batch) None 1 _) as [[[[] msg]| |] w2] eqn:Hup;
    intros [= <- <-]; [|done].
  intros _ _.
  apply upload_db in Hup. cbn [extend set_db db]. rewrite Hup.
  rewrite !contents_deleted. unfold dequeued. cbn [extend set_db db].
  rewrite decide_True by done. split; [done|].
  destruct (contents work (db w)) as [|x wl] eqn:Hw.
  - destruct (contents src (db w)) as [|y sl] eqn:Hs.
    { rewrite H3 in Hb by done. done. }
    destruct H2 as (d' & He & Hlen & _ & Hsrc & _); [done..|].
    rewrite He in *. cbn [fst snd] in *.
    assert (Hk : (0 < Z.to_nat (Z.min (batch_size opts) (len (y :: sl))))%nat).
    { rewrite <- Hlen. destruct (drop _ _); [done|]. cbn [length]. lia. }
    assert (Hshort : (length (contents src d') < length (y :: sl))%nat).
    { rewrite Hsrc, length_take. cbn [length] in *. lia. }
    case_decide; cbn [length] in *; split; intros; lia.
  - rewrite H1 by done. cbn [snd].
    split; [|done]. case_decide; cbn [length]; lia.
Qed.

Lemma goes_on_progress res :
  batch_size opts <> 0 -> goes_on res = true ->
  has_error res = false /\ count res <> 0.
Proof.
  unfold goes_on. intros Hbs [Herr Hc]%andb_true_iff.
  apply negb_true_iff in Herr. apply Z.eqb_eq in Hc. split; [done|lia].
Qed.

Lemma continuing_loop_terminates src work fuel : forall res ret w,
  batch_size opts <> 0 ->
  (goes_on res = true -> contents work (db w) = []) ->
  (length (contents src (db w)) < fuel)%nat ->
  fst (continuing_loop env opts fuel src work res ret w) <> OutOfFuel /\
  forall fuel', (fuel <= fuel')%nat ->
    continuing_loop env opts fuel' src work res ret w
    = continuing_loop env opts fuel src work res ret w.
Proof.
  induction fuel as [|fuel IH]; intros res ret w Hbs Hwork Hlen; [lia|].
  destruct (goes_on res) eqn:Hgo.
  2: { split.
       - by rewrite continuing_loop_stop.
       - intros fuel' _. by rewrite !continuing_loop_stop. }
  assert (Hstep : forall f,
            continuing_loop env opts (S f) src work res ret w
            = match _upload_batch env opts src work w with
              | (Ok res', w') =>
                  continuing_loop env opts f src work res'
                    (mkBatchRet (count ret + count res')
                       (match error res' with Some e => Some e | None => error ret end)) w'
              | (Raised e, w') => (Raised e, w')
              | (OutOfFuel, w') => (OutOfFuel, w')
              end).
  { intros f. cbn [continuing_loop]. unfold goes_on in Hgo. rewrite Hgo. reflexivity. }
  pose proof (upload_batch_returns src work w) as Hret.
  destruct (_upload_batch env opts src work w) as [[res'| e|] w'] eqn:Hb; [| |done].
  - assert (Hnext : fst (continuing_loop env opts fuel src work res'
                           (mkBatchRet (count ret + count res')
                              (match error res' with Some e => Some e | None => error ret end)) w')
                      <> OutOfFuel /\
                    forall fuel', (fuel <= fuel')%nat ->
                      continuing_loop env opts fuel' src work res'
                        (mkBatchRet (count ret + count res')
                           (match error res' with Some e => Some e | None => error ret end)) w'
                      = continuing_loop env opts fuel src work res'
                          (mkBatchRet (count ret + count res')
                             (match error res' with Some e => Some e | None => error ret end)) w').
    { destruct (goes_on res') eqn:Hgo'.
      - destruct (goes_on_progress res' Hbs Hgo') as [Herr Hc].
        destruct (upload_batch_progress src work w res' w' Hb Herr Hc) as (Hw' & _ & Hlt).
        apply IH; [done|done|]. specialize (Hlt (Hwork eq_refl)). lia.
      - split; [by rewrite continuing_loop_stop|].
        intros fuel' _. by rewrite !continuing_loop_stop. }
    destruct Hnext as [Hn1 Hn2]. split.
    + rewrite Hstep. exact Hn1.
    + intros [|fuel'] Hle; [lia|]. rewrite !Hstep. apply Hn2. lia.
  - split.
    + rewrite Hstep. done.
    + intros [|fuel'] Hle; [lia|]. by rewrite !Hstep.
Qed.

(** X6.  With a batch size other than 0, [_upload_batch_continuing] ends
    after at most one batch more than the source queue has entries: run with
    more iterations than that, it returns or raises, and more iterations
    still change nothing. *)
Theorem upload_batch_continuing_terminates src work fuel w :
  batch_size opts <> 0 ->
  (length (contents src (db w)) < fuel)%nat ->
  fst (_upload_batch_continuing env opts fuel src work w) <> OutOfFuel /\
  forall fuel', (fuel <= fuel')%nat ->
    _upload_batch_continuing env opts fuel' src work w
    = _upload_batch_continuing env opts fuel src work w.
Proof.
  intros Hbs Hlen.
  assert (Hall : forall f,
            _upload_batch_continuing env opts f src work w
            = match _upload_batch env opts src work w with
              | (Ok res, w') =>
                  continuing_loop env opts f src work res
                    (mkBatchRet (count res) (error res)) w'
              | (Raised e, w') => (Raised e, w')
              | (OutOfFuel, w') => (OutOfFuel, w')
              end) by (intros f; apply upload_batch_continuing_unfold).
  pose proof (upload_batch_returns src work w) as Hret.
  destruct (_upload_batch env opts src work w) as [[res| e|] w'] eqn:Hb; [| |done].
  - destruct (goes_on res) eqn:Hgo.
    + destruct (goes_on_progress res Hbs Hgo) as [Herr Hc].
      destruct (upload_batch_progress src work w res w' Hb Herr Hc) as (Hw' & Hle & _).
      destruct (continuing_loop_terminates src work fuel res
                  (mkBatchRet (count res) (error res)) w' Hbs) as [H1 H2];
        [done|lia|].
      split; [by rewrite Hall|]. intros fuel' Hf. rewrite !Hall. by apply H2.
    + split; [rewrite Hall; by rewrite continuing_loop_stop|].
      intros fuel' _. rewrite !Hall. by rewrite !continuing_loop_stop.
  - split; [by rewrite Hall|]. intros fuel' _. by rewrite !Hall.
Qed.

(** With a batch size of 0 and nothing in the work queue, a batch is empty
    and the database is left as it is. *)
Lemma upload_batch_nothing src work w :
  batch_size opts = 0 -> contents work (db w) = [] ->
  exists w', _upload_batch env opts src work w = (Ok (mkBatchRet 0 None), w') /\
             db w' = db w.
Proof.
  intros Hbs Hw. rewrite upload_batch_unfold. cbv zeta.
  assert (Hd : dequeue_batch src work (batch_size opts) (db w) = ([], db w)).
  { unfold dequeue_batch. apply not_exists_contents in Hw. rewrite Hw, Hbs.
    destruct (exists_ src (db w)); reflexivity. }
  unfold dequeued. rewrite Hd. cbn [fst snd].
  eexists. split; [reflexivity|]. by destruct (debug_enabled env), w.
Qed.

Lemma continuing_loop_never_returns src work fuel : forall ret w,
  batch_size opts = 0 -> contents work (db w) = [] ->
  fst (continuing_loop env opts fuel src work (mkBatchRet 0 None) ret w) = OutOfFuel.
Proof.
  induction fuel as [|fuel IH]; intros ret w Hbs Hw; cbn [continuing_loop];
    cbn [has_error error count negb andb]; rewrite Hbs; cbn [Z.eqb].
  - reflexivity.
  - destruct (upload_batch_nothing src work w Hbs Hw) as (w' & Hb & Hdb).
    munfold. rewrite Hb. cbv beta iota. apply IH; [done|]. by rewrite Hdb.
Qed.

(** X5.  With [batch_size] 0 and an empty work queue the loop of
    [_upload_batch_continuing] has no end: every batch is empty, so its count
    equals the batch size, and the loop goes on, however many iterations it
    is given. *)
Theorem upload_batch_continuing_never_returns src work fuel w :
  batch_size opts = 0 -> contents work (db w) = [] ->
  fst (_upload_batch_continuing env opts fuel src work w) = OutOfFuel.
Proof.
  intros Hbs Hw. rewrite upload_batch_continuing_unfold.
  destruct (upload_batch_nothing src work w Hbs Hw) as (w' & Hb & Hdb).
  rewrite Hb. apply continuing_loop_never_returns; [done|]. by rewrite Hdb.
Qed.

End Continuing.

Module DemoEngine.

Definition opts_batch0 : Options :=
  mkOptions (Some Demo.endpoint0) (Some 0) None None None None.

(** One entry waiting in [pend]. *)
Definition one_pending : World :=
  snd (enqueue (Demo.env_of (Responded 200)) "A" initial).

End DemoEngine.

Lemma upload_batch_continuing_terminates_witness :
  fst (_upload_batch_continuing (Demo.env_of (Responded 200)) Demo.opts0 2
         PENDING_QUEUE PENDING_WORK_QUEUE DemoEngine.one_pending) <> OutOfFuel.
Proof.
  apply (upload_batch_continuing_terminates (Demo.env_of (Responded 200)) Demo.opts0
           PENDING_QUEUE PENDING_WORK_QUEUE 2 DemoEngine.one_pending).
  - vm_compute. discriminate.
  - vm_compute. lia.
Defined.

Lemma upload_batch_continuing_never_returns_witness :
  fst (_upload_batch_continuing (Demo.env_of (Responded 200)) DemoEngine.opts_batch0 3
         PENDING_QUEUE PENDING_WORK_QUEUE DemoEngine.one_pending) = OutOfFuel.
Proof.
  apply (upload_batch_continuing_never_returns (Demo.env_of (Responded 200))
           DemoEngine.opts_batch0 PENDING_QUEUE PENDING_WORK_QUEUE 3
           DemoEngine.one_pending); reflexivity.
Defined.

(** ** Draining a queue *)

Section Drain.
Context {Data : Type} (env : Env Data) (opts : Options).
Import Redis RedisFacts.

(** The server answers every request, and never with a status that
    [raise_for_status] raises for. *)
Definition server_accepts : Prop :=
  forall h req, exists c,
    http_post env h req = Responded c /\ (400 <=? c) && (c <? 600) = false.

(** The function is its loop entered after a full batch. *)
Lemma upload_batch_continuing_loop fuel src work w :
  _upload_batch_continuing env opts fuel src work w
  = continuing_loop env opts (S fuel) src work
      (mkBatchRet (batch_size opts) None) (mkBatchRet 0 None) w.
Proof.
  rewrite upload_batch_continuing_unfold. cbn [continuing_loop].
  cbn [has_error error count negb andb]. rewrite Z.eqb_refl.
  munfold.
  destruct (_upload_batch env opts src work w) as [[[c [e|]]| |] w']; reflexivity.
Qed.

Lemma continuing_loop_step f src work res ret w :
  has_error res = false -> count res = batch_size opts ->
  continuing_loop env opts (S f) src work res ret w
  = match _upload_batch env opts src work w with
    | (Ok res', w') =>
        continuing_loop env opts f src work res'
          (mkBatchRet (count ret + count res')
             (match error res' with Some e => Some e | None => error ret end)) w'
    | (Raised e, w') => (Raised e, w')
    | (OutOfFuel, w') => (OutOfFuel, w')
    end.
Proof.
  intros Herr Hc. cbn [continuing_loop]. by rewrite Herr, Hc, Z.eqb_refl.
Qed.

(** The batch the script takes from a source of [s] entries. *)
Definition batch_of (s : list string) : list string :=
  rev (drop (length s - Z.to_nat (Z.min (batch_size opts) (len s))) s).
Definition left_of (s : list string) : list string :=
  take (length s - Z.to_nat (Z.min (batch_size opts) (len s))) s.

Lemma batch_left s : (batch_of s ++ rev (left_of s))%list = rev s.
Proof.
  unfold batch_of, left_of. by rewrite <- rev_app_distr, take_drop.
Qed.

Lemma batch_of_length s :
  0 < batch_size opts -> len (batch_of s) = Z.min (batch_size opts) (len s).
Proof.
  intros Hbs. unfold batch_of, len. rewrite length_rev, length_drop. lia.
Qed.

Lemma left_of_length s :
  0 < batch_size opts -> len (left_of s) = len s - Z.min (batch_size opts) (len s).
Proof.
  intros Hbs. unfold left_of, len. rewrite length_take. lia.
Qed.

(** One batch with a server that accepts it. *)
Lemma upload_batch_accepted ep src work w :
  opt_endpoint opts = Some ep -> 0 <= upload_splay opts -> 0 < batch_size opts ->
  server_accepts ->
  contents work (db w) = [] ->
  let s := contents src (db w) in
  exists w' evs,
    _upload_batch env opts src work w = (Ok (mkBatchRet (len (batch_of s)) None), w') /\
    trace w' = (trace w ++ evs)%list /\
    posts evs = match batch_of s with [] => [] | b => [request_of ep b] end /\
    contents src (db w') = left_of s /\
    contents work (db w') = [] /\
    (forall q, q <> src -> q <> work -> contents q (db w') = contents q (db w)).
Proof.
  intros Hep Hsplay Hbs Hsrv Hw s.
  rewrite upload_batch_unfold. cbv zeta.
  destruct (dequeue_batch_cases src work (batch_size opts) (db w)) as (_ & H2 & H3).
  destruct s as [|y sl] eqn:Hs; subst s.
  - rewrite Hs in H3. specialize (H3 Hw eq_refl).
    unfold dequeued. rewrite H3. cbn [fst snd].
    exists (if debug_enabled env
            then extend (extend (set_db w (db w))
                           [EvRedis (EVALSHA_dequeue_batch src work (batch_size opts))])
                   [log_no_batch src]
            else extend (set_db w (db w))
                   [EvRedis (EVALSHA_dequeue_batch src work (batch_size opts))]).
    exists (if debug_enabled env
            then [EvRedis (EVALSHA_dequeue_batch src work (batch_size opts));
                  log_no_batch src]
            else [EvRedis (EVALSHA_dequeue_batch src work (batch_size opts))]).
    split; [reflexivity|].
    destruct (debug_enabled env); cbn [extend set_db db trace];
      (split; [by trace_norm|]); (split; [reflexivity|]);
      rewrite Hs; repeat split; done.
  - rewrite Hs in H2. destruct H2 as (d' & He & Hlen & _ & Hsrc & Hdst & _ & Hq);
      [done..|].
    fold (batch_of (y :: sl)) in He. fold (left_of (y :: sl)) in Hsrc.
    assert (Hne : batch_of (y :: sl) <> []).
    { intros Hnil. pose proof (batch_of_length (y :: sl) Hbs) as Hl.
      rewrite Hnil in Hl. unfold len in Hl. cbn [length] in Hl. lia. }
    unfold dequeued. rewrite He. cbn [fst snd].
    set (w1 := extend (set_db w d') _).
    destruct (upload_configured env opts (batch_of (y :: sl)) None 1 w1 ep Hep Hsplay)
      as (pre & Hpre & Hrun); [lia|].
    cbv zeta in Hrun.
    destruct (Hsrv (trace w1 ++ EvUpload (batch_of (y :: sl)) 1 :: pre)%list
                (request_of ep (batch_of (y :: sl)))) as (c & Hc & Hok).
    rewrite Hc in Hrun. unfold classify in Hrun. rewrite Hok in Hrun.
    destruct (batch_of (y :: sl)) as [|b0 bl] eqn:Hbatch; [done|].
    rewrite Hrun. eexists.
    exists ([EvRedis (EVALSHA_dequeue_batch src work (batch_size opts));
             EvUpload (b0 :: bl) 1] ++ pre ++
            [EvPost (request_of ep (b0 :: bl)) (Responded c);
             EvTimer (timer env ((trace w1 ++ EvUpload (b0 :: bl) 1 :: pre)
                                 ++ [EvPost (request_of ep (b0 :: bl)) (Responded c)]));
             log_uploaded (b0 :: bl) src; EvRedis (DEL work)])%list.
    split; [reflexivity|].
    cbn [extend set_db db trace]. subst w1. cbn [extend set_db db trace].
    split; [by trace_norm|].
    split.
    { rewrite !posts_app. rewrite (posts_pacing pre Hpre). reflexivity. }
    rewrite !contents_del. split.
    { case_decide as Heq; [|exact Hsrc].
      subst. rewrite Hs in Hw. done. }
    split; [by rewrite decide_True|].
    intros q Hq1 Hq2. rewrite contents_del, decide_False by done. by apply Hq.
Qed.

Lemma drain_loop ep src work fuel : forall res ret w,
  opt_endpoint opts = Some ep -> 0 <= upload_splay opts -> 0 < batch_size opts ->
  server_accepts ->
  contents work (db w) = [] ->
  (length (contents src (db w)) < fuel)%nat ->
  has_error res = false -> error ret = None ->
  (count res <> batch_size opts -> contents src (db w) = []) ->
  exists w' evs batches,
    continuing_loop env opts fuel src work res ret w
      = (Ok (mkBatchRet (count ret + len (contents src (db w))) None), w') /\
    trace w' = (trace w ++ evs)%list /\
    posts evs = map (request_of ep) batches /\
    concat batches = rev (contents src (db w)) /\
    Forall (fun b => 0 < len b <= batch_size opts) batches /\
    contents src (db w') = [] /\
    contents work (db w') = [] /\
    (forall q, q <> src -> q <> work -> contents q (db w') = contents q (db w)).
Proof.
  induction fuel as [|fuel IH]; intros res ret w Hep Hsplay Hbs Hsrv Hw Hlen Herr Hret Hstop;
    [lia|].
  destruct (Z.eq_dec (count res) (batch_size opts)) as [Hfull|Hshort].
  2: { rewrite continuing_loop_stop.
       2: { rewrite Herr. cbn [negb andb]. by apply Z.eqb_neq. }
       rewrite (Hstop Hshort). exists w, [], [].
       destruct ret as [c e]. cbn [error count] in *. subst e.
       unfold len. cbn [length]. rewrite Z.add_0_r, app_nil_r.
       repeat split; try done. by apply Hstop. }
  rewrite continuing_loop_step by done.
  destruct (upload_batch_accepted ep src work w Hep Hsplay Hbs Hsrv Hw)
    as (w1 & evs1 & Hb & Htr1 & Hposts1 & Hsrc1 & Hw1 & Hq1).
  cbv zeta in Hb. rewrite Hb.
  cbn [has_error error count]. rewrite Hret.
  set (s := contents src (db w)) in *.
  destruct (Z.eq_dec (len (batch_of s)) (batch_size opts)) as [Hfull1|Hshort1].
  - assert (Hs : (length (contents src (db w1)) < fuel)%nat).
    { rewrite Hsrc1. pose proof (left_of_length s Hbs) as Hl.
      pose proof (batch_of_length s Hbs) as Hb'. unfold len in *. lia. }
    destruct (IH (mkBatchRet (len (batch_of s)) None)
                (mkBatchRet (count ret + len (batch_of s)) None) w1
                Hep Hsplay Hbs Hsrv Hw1 Hs eq_refl eq_refl)
      as (w' & evs & batches & Hrun & Htr & Hposts & Hcat & Hall & Hsrc' & Hw' & Hq').
    { intros H. done. }
    exists w', (evs1 ++ evs)%list, (batch_of s :: batches).
    rewrite Hrun. cbn [count]. rewrite Hsrc1.
    split.
    { do 3 f_equal.
      pose proof (left_of_length s Hbs). pose proof (batch_of_length s Hbs). lia. }
    split; [rewrite Htr, Htr1; by trace_norm|].
    split.
    { rewrite posts_app, Hposts1, Hposts.
      destruct (batch_of s) eqn:Hbs'; [|reflexivity].
      unfold len in Hfull1. cbn [length] in Hfull1. lia. }
    split.
    { cbn [concat]. rewrite Hcat, Hsrc1. apply batch_left. }
    split.
    { constructor; [|exact Hall]. lia. }
    split; [exact Hsrc'|]. split; [exact Hw'|].
    intros q Hqs Hqw. rewrite Hq' by done. by apply Hq1.
  - rewrite continuing_loop_stop.
    2: { cbn [has_error error count negb andb]. by apply Z.eqb_neq. }
    assert (Hall : len (batch_of s) = len s).
    { pose proof (batch_of_length s Hbs). lia. }
    assert (Hleft : left_of s = []).
    { pose proof (left_of_length s Hbs) as Hl.
      pose proof (batch_of_length s Hbs) as Hl'.
      destruct (left_of s); [done|].
      unfold len in *. cbn [length] in Hl. lia. }
    exists w1, evs1, (match batch_of s with [] => [] | b => [b] end).
    rewrite Hall. split; [reflexivity|]. split; [exact Htr1|].
    split; [rewrite Hposts1; by destruct (batch_of s)|].
    split.
    { pose proof (batch_left s) as Hbl. rewrite Hleft in Hbl. cbn [rev] in Hbl.
      rewrite app_nil_r in Hbl. rewrite <- Hbl.
      destruct (batch_of s); cbn [concat]; by rewrite ?app_nil_r. }
    split.
    { destruct (batch_of s) as [|b0 bl] eqn:Hbatch; constructor; [|constructor].
      pose proof (batch_of_length s Hbs) as Hl. rewrite Hbatch in Hl.
      unfold len in *. cbn [length] in *. lia. }
    split; [by rewrite Hsrc1|]. split; [exact Hw1|exact Hq1].
Qed.

Lemma continuing_drained ep src work fuel w :
  opt_endpoint opts = Some ep -> 0 <= upload_splay opts -> 0 < batch_size opts ->
  server_accepts ->
  contents work (db w) = [] ->
  (length (contents src (db w)) < fuel)%nat ->
  exists w' evs batches,
    _upload_batch_continuing env opts fuel src work w
      = (Ok (mkBatchRet (len (contents src (db w))) None), w') /\
    trace w' = (trace w ++ evs)%list /\
    posts evs = map (request_of ep) batches /\
    concat batches = rev (contents src (db w)) /\
    Forall (fun b => 0 < len b <= batch_size opts) batches /\
    contents src (db w') = [] /\
    contents work (db w') = [] /\
    (forall q, q <> src -> q <> work -> contents q (db w') = contents q (db w)).
Proof.
  intros Hep Hsplay Hbs Hsrv Hw Hlen.
  rewrite upload_batch_continuing_loop.
  destruct (drain_loop ep src work (S fuel) (mkBatchRet (batch_size opts) None)
              (mkBatchRet 0 None) w Hep Hsplay Hbs Hsrv Hw)
    as (w' & evs & batches & Hrun & H); [lia|done|done|done|].
  exists w', evs, batches. split; [exact Hrun|exact H].
Qed.

(** X7.  With an empty work queue, a batch size above 0 and a server that
    accepts every request, [_upload_batch_continuing] drains the source
    queue: it returns its number of entries as the count and no error,
    leaves source and work queue empty and every other queue as it was, and
    its requests carry the entries in the order they were pushed (the list
    read from its tail), in batches of at most [batch_size] entries. *)
Theorem upload_batch_continuing_drains ep src work fuel w :
  opt_endpoint opts = Some ep -> 0 <= upload_splay opts -> 0 < batch_size opts ->
  server_accepts ->
  contents work (db w) = [] ->
  (length (contents src (db w)) < fuel)%nat ->
  exists w' evs batches,
    _upload_batch_continuing env opts fuel src work w
      = (Ok (mkBatchRet (len (contents src (db w))) None), w') /\
    trace w' = (trace w ++ evs)%list /\
    posts evs = map (request_of ep) batches /\
    concat batches = rev (contents src (db w)) /\
    Forall (fun b => 0 < len b <= batch_size opts) batches /\
    contents src (db w') = [] /\
    contents work (db w') = [] /\
    (forall q, q <> src -> q <> work -> contents q (db w') = contents q (db w)).
Proof. apply continuing_drained. Qed.

End Drain.

Module DemoDrain.

Definition opts_batch2 : Options :=
  mkOptions (Some Demo.endpoint0) (Some 2) None None None None.

(** ["A"], ["B"] and ["C"] pushed on [pend] in this order. *)
Definition three_pending : World :=
  let env := Demo.env_of (Responded 200) in
  snd ((enqueue env "A";; enqueue env "B";; enqueue env "C") initial).

Lemma accepts_200 : server_accepts (Demo.env_of (Responded 200)).
Proof. intros h req. exists 200. split; reflexivity. Qed.

End DemoDrain.

Lemma upload_batch_continuing_drains_witness :
  exists w',
    _upload_batch_continuing (Demo.env_of (Responded 200)) DemoDrain.opts_batch2 4
      PENDING_QUEUE PENDING_WORK_QUEUE DemoDrain.three_pending
    = (Ok (mkBatchRet 3 None), w') /\
    posts (trace w')
    = [request_of Demo.endpoint0 ["A"; "B"]; request_of Demo.endpoint0 ["C"]].
Proof.
  destruct (upload_batch_continuing_drains (Demo.env_of (Responded 200))
              DemoDrain.opts_batch2 Demo.endpoint0 PENDING_QUEUE PENDING_WORK_QUEUE 4
              DemoDrain.three_pending)
    as (w' & evs & batches & Hrun & _);
    [reflexivity | vm_compute; discriminate | reflexivity | apply DemoDrain.accepts_200
    | reflexivity | vm_compute; lia |].
  exists w'. split; [exact Hrun|].
  assert (Hw' : w' = snd (_upload_batch_continuing (Demo.env_of (Responded 200))
                            DemoDrain.opts_batch2 4 PENDING_QUEUE PENDING_WORK_QUEUE
                            DemoDrain.three_pending)) by (by rewrite Hrun).
  rewrite Hw'. vm_compute. reflexivity.
Defined.

(** ** A server error while [pend] is uploaded *)

Section PendingError.
Context {Data : Type} (env : Env Data) (opts : Options).
Import Redis RedisFacts Frame.

(** An exception leaves [_upload_batch] with its batch in the work queue. *)
Lemma upload_batch_raised src work w e w' :
  _upload_batch env opts src work w = (Raised e, w') ->
  contents work (db w') <> [].
Proof.
  rewrite upload_batch_unfold. cbv zeta.
  destruct (dequeue_batch_cases src work (batch_size opts) (db w)) as (H1 & H2 & H3).
  destruct (fst (dequeue_batch src work (batch_size opts) (db w))) as [|b batch] eqn:Hb;
    [done|].
  destruct (_upload env opts (b :: batch) None 1 _) as [[[[] msg]| |] w2] eqn:Hup;
    intros [= <- <-].
  apply upload_db in Hup. rewrite Hup. unfold dequeued. cbn [extend set_db db].
  destruct (contents work (db w)) as [|x wl] eqn:Hw.
  - destruct (contents src (db w)) as [|y sl] eqn:Hs.
    { rewrite H3 in Hb by done. done. }
    destruct H2 as (d' & He & _ & _ & _ & Hdst & _); [done..|].
    rewrite He in *. cbn [fst snd] in *. rewrite Hdst. intros Hnil.
    rewrite Hnil in Hb. done.
  - rewrite H1 by done. cbn [snd]. by rewrite Hw.
Qed.

Lemma continuing_loop_raised src work fuel : forall res ret w e w',
  continuing_loop env opts fuel src work res ret w = (Raised e, w') ->
  contents work (db w') <> [].
Proof.
  induction fuel as [|fuel IH]; intros res ret w e w'; cbn [continuing_loop];
    destruct (negb (has_error res) && (count res =? batch_size opts)); try done.
  munfold.
  destruct (_upload_batch env opts src work w) as [[res'|e'|] w1] eqn:Hb;
    cbv beta iota; [apply IH| |done].
  intros [= <- <-]. by apply (upload_batch_raised src work w e').
Qed.

Lemma upload_batch_continuing_raised src work fuel w e w' :
  _upload_batch_continuing env opts fuel src work w = (Raised e, w') ->
  contents work (db w') <> [].
Proof.
  rewrite upload_batch_continuing_loop. apply continuing_loop_raised.
Qed.

Definition log_transferring (retry_queue : string) : Event :=
  EvLog WARNING ("Failed to upload pending batch - transferring to dedicated retry queue '"
                 ++ retry_queue ++ "'").

(** X8.  When the upload of [pend] meets a server error, [upload_pending]
    returns [{"total": 0, "errors": [str(rex)]}], whatever it had uploaded
    before.  The batch that failed is in [pend.work], which is renamed to
    the retry queue of the current time with attempt 0: the queue takes
    over the entries and [pend.work] is gone.  When that name is taken, the
    rename is refused and nothing changes: the batch stays in [pend.work]. *)
Theorem upload_pending_server_error fuel w msg w1 :
  _upload_batch_continuing env opts fuel PENDING_QUEUE PENDING_WORK_QUEUE w
    = (Raised (RequestException msg), w1) ->
  let retry_queue := RETRY_QUEUE (utcnow env (trace w1)) 0 in
  contents PENDING_WORK_QUEUE (db w1) <> [] /\
  exists w',
    upload_pending env opts fuel w = (Ok (mkDriveRet 0 (Some [PyStr msg]) None), w') /\
    trace w' = (trace w1 ++ [EvUtcnow (utcnow env (trace w1)); log_transferring retry_queue;
                             EvRedis (RENAMENX PENDING_WORK_QUEUE retry_queue)])%list /\
    match contents retry_queue (db w1) with
    | [] =>
        contents retry_queue (db w') = contents PENDING_WORK_QUEUE (db w1) /\
        contents PENDING_WORK_QUEUE (db w') = [] /\
        (forall q, q <> PENDING_WORK_QUEUE -> q <> retry_queue ->
                   contents q (db w') = contents q (db w1))
    | _ => db w' = db w1
    end.
Proof.
  intros Hrun retry_queue.
  pose proof (upload_batch_continuing_raised _ _ _ _ _ _ Hrun) as Hwork.
  split; [exact Hwork|].
  unfold upload_pending, try_except. rewrite Hrun.
  destruct w1 as [d1 ut1 tr1]. cbn [db trace] in *.
  munfold. cbv beta iota zeta.
  fold retry_queue.
  destruct (contents retry_queue d1) as [|x xs] eqn:Hrq.
  - destruct (renamenx_moved PENDING_WORK_QUEUE retry_queue d1 Hwork Hrq)
      as (d' & Hren & Hdst & Hsrc & Hq).
    rewrite Hren. cbv beta iota zeta. eexists. split; [reflexivity|].
    cbn [db trace]. split; [by trace_norm|].
    split; [exact Hdst|]. split; [exact Hsrc|].
    intros q Hq1 Hq2. by destruct (Hq q Hq1 Hq2).
  - rewrite renamenx_blocked; [|exact Hwork|by rewrite Hrq].
    cbv beta iota zeta. eexists. split; [reflexivity|].
    cbn [db trace]. split; [by trace_norm|reflexivity].
Qed.

End PendingError.

Lemma upload_pending_server_error_witness :
  let env := Demo.env_of (Responded 500) in
  exists w',
    upload_pending env Demo.opts0 1 DemoEngine.one_pending
      = (Ok (mkDriveRet 0 (Some [PyStr "500 Error"]) None), w') /\
    Redis.contents "retr_20240101000000000000_#0" (db w') = ["A"] /\
    Redis.contents PENDING_WORK_QUEUE (db w') = [].
Proof.
  intros env.
  destruct (upload_pending_server_error env Demo.opts0 1 DemoEngine.one_pending
              "500 Error"
              (snd (_upload_batch_continuing env Demo.opts0 1
                      PENDING_QUEUE PENDING_WORK_QUEUE DemoEngine.one_pending)))
    as (_ & w' & Hrun & _ & Hdb); [reflexivity|].
  exists w'. split; [exact Hrun|].
  assert (Hw' : w' = snd (upload_pending env Demo.opts0 1 DemoEngine.one_pending))
    by (by rewrite Hrun).
  rewrite Hw'. split; vm_compute; reflexivity.
Defined.

(** ** Every entry is kept until a request with it is accepted *)

(** All entries of all queues of the database. *)
Definition entries_of (m : gmap string (list string)) : list string :=
  concat (map snd (map_to_list m)).
Definition stored (d : Redis.Db) : list string := entries_of (Redis.lists d).

(** The entries the server has accepted: those given to a call of [_upload]
    whose request was answered, and not with an error status.  [cur] is what
    the call of [_upload] under way was given. *)
Fixpoint acked_from (cur : list string) (evs : list Event) : list string :=
  match evs with
  | [] => []
  | EvUpload entries _ :: rest => acked_from entries rest
  | ev :: rest => ((if post_succeeded ev then cur else []) ++ acked_from cur rest)%list
  end.
Definition acked (evs : list Event) : list string := acked_from [] evs.

(** The entries that were enqueued: the values pushed on [pend]. *)
Definition enqueued (evs : list Event) : list string :=
  concat (omap (fun ev => match ev with
                          | EvRedis (LPUSH key values) =>
                              if String.eqb key PENDING_QUEUE then Some values else None
                          | _ => None
                          end) evs).

Module StoredFacts.
Import Redis RedisFacts.

Lemma concat_perm {A} (l l' : list (list A)) : l ≡ₚ l' -> concat l ≡ₚ concat l'.
Proof.
  induction 1 as [|x l l' _ IH|x y l|l1 l2 l3 _ IH1 _ IH2]; cbn [concat].
  - done.
  - by rewrite IH.
  - rewrite !app_assoc. f_equiv. apply Permutation_app_comm.
  - by rewrite IH1.
Qed.

Lemma entries_delete m k :
  entries_of m ≡ₚ (default [] (m !! k) ++ entries_of (delete k m))%list.
Proof.
  unfold entries_of. destruct (m !! k) as [l|] eqn:Hk; cbn [default].
  - rewrite <- (map_to_list_delete m k l Hk) at 1. reflexivity.
  - by rewrite (delete_id m k Hk).
Qed.

Lemma entries_insert m k l :
  (default [] (m !! k) ++ entries_of (<[k := l]> m))%list ≡ₚ (l ++ entries_of m)%list.
Proof.
  rewrite (entries_delete m k).
  rewrite <- (insert_delete_eq m k l).
  unfold entries_of at 1.
  rewrite (map_to_list_insert (delete k m) k l) by apply lookup_delete_eq.
  cbn [map concat]. fold (entries_of (delete k m)).
  rewrite !app_assoc. f_equiv. apply Permutation_app_comm.
Qed.

Lemma stored_del k d : (contents k d ++ stored (snd (del k d)))%list ≡ₚ stored d.
Proof. unfold stored, del, contents. cbn [snd lists]. symmetry. apply entries_delete. Qed.

Lemma stored_set_list k l d :
  (contents k d ++ stored (set_list k l d))%list ≡ₚ (l ++ stored d)%list.
Proof.
  unfold stored, set_list, contents. destruct l as [|x l]; cbn [lists app].
  - symmetry. apply entries_delete.
  - apply entries_insert.
Qed.

Lemma stored_lpush k vs d : stored (lpush k vs d) ≡ₚ (vs ++ stored d)%list.
Proof.
  pose proof (stored_set_list k (rev vs ++ contents k d) d) as H.
  fold (lpush k vs d) in H.
  apply (Permutation_app_inv_l (contents k d)).
  rewrite H. rewrite <- (Permutation_rev vs).
  rewrite !app_assoc. f_equiv. apply Permutation_app_comm.
Qed.

Lemma stored_expire k s d : 0 < s -> stored (snd (expire k s d)) = stored d.
Proof.
  intros Hs. unfold expire. destruct (exists_ k d); [|reflexivity].
  cbn [snd]. destruct (s <=? 0) eqn:H; [lia|reflexivity].
Qed.

Lemma stored_renamenx src dst d b d' :
  renamenx src dst d = Some (b, d') -> stored d' ≡ₚ stored d.
Proof.
  unfold renamenx. destruct (exists_ src d) eqn:Hs; [|done].
  destruct (exists_ dst d) eqn:Hd; intros [= <- <-]; [done|].
  apply not_exists_contents in Hd.
  unfold stored. cbn [lists].
  pose proof (entries_insert (delete src (lists d)) dst (contents src d)) as H.
  assert (Hdst : default [] (delete src (lists d) !! dst) = []).
  { destruct (decide (src = dst)) as [->|Hne].
    - by rewrite lookup_delete_eq.
    - rewrite lookup_delete_ne by done. exact Hd. }
  rewrite Hdst in H. cbn [app] in H. rewrite H.
  symmetry. apply entries_delete.
Qed.

Lemma stored_rpoplpush src dst d : stored (snd (rpoplpush src dst d)) ≡ₚ stored d.
Proof.
  unfold rpoplpush. destruct (rev (contents src d)) as [|v before] eqn:Hr; [done|].
  cbn [snd].
  assert (Hs : contents src d = (rev before ++ [v])%list).
  { rewrite <- (rev_involutive (contents src d)), Hr. reflexivity. }
  set (d1 := set_list src (rev before) d).
  pose proof (stored_set_list src (rev before) d) as H1. fold d1 in H1.
  pose proof (stored_set_list dst (v :: contents dst d1) d1) as H2.
  apply (Permutation_app_inv_l (contents dst d1)).
  rewrite H2. rewrite Hs in H1.
  rewrite <- app_assoc in H1. apply Permutation_app_inv_l in H1.
  cbn [app] in H1. rewrite <- H1. cbn [app]. apply Permutation_middle.
Qed.

Lemma stored_dequeue_loop i : forall src dst ret d,
  stored (snd (dequeue_loop i src dst ret d)) ≡ₚ stored d.
Proof.
  induction i as [|i IH]; intros src dst ret d; cbn [dequeue_loop]; [done|].
  pose proof (stored_rpoplpush src dst d) as H.
  destruct (rpoplpush src dst d) as [[val|] d1]; [|done].
  cbn [snd] in H. by rewrite IH.
Qed.

Lemma stored_dequeue_batch src dst n d :
  stored (snd (dequeue_batch src dst n d)) ≡ₚ stored d.
Proof.
  unfold dequeue_batch. destruct (exists_ dst d); [done|].
  destruct (exists_ src d); [|done]. apply stored_dequeue_loop.
Qed.

(** What the script returns is what the work queue holds afterwards. *)
Lemma dequeue_batch_work src dst n d :
  fst (dequeue_batch src dst n d) ≡ₚ contents dst (snd (dequeue_batch src dst n d)).
Proof.
  destruct (dequeue_batch_cases src dst n d) as (H1 & H2 & H3).
  destruct (contents dst d) as [|x wl] eqn:Hw.
  - destruct (contents src d) as [|y sl] eqn:Hs.
    + rewrite H3 by done. cbn [fst snd]. by rewrite Hw.
    + destruct H2 as (d' & He & _ & _ & _ & Hdst & _); [done..|].
      rewrite He. cbn [fst snd]. rewrite Hdst. symmetry. apply Permutation_rev.
  - rewrite H1 by done. cbn [fst snd]. by rewrite Hw.
Qed.

End StoredFacts.

(** Events that neither accept entries nor enqueue any. *)
Definition is_quiet_event (ev : Event) : Prop :=
  match ev with
  | EvPost _ _ | EvUpload _ _ | EvRedis (LPUSH _ _) => False
  | _ => True
  end.

Fixpoint last_upload (cur : list string) (evs : list Event) : list string :=
  match evs with
  | [] => cur
  | EvUpload entries _ :: rest => last_upload entries rest
  | _ :: rest => last_upload cur rest
  end.

Lemma acked_from_app evs1 : forall cur evs2,
  acked_from cur (evs1 ++ evs2)
  = (acked_from cur evs1 ++ acked_from (last_upload cur evs1) evs2)%list.
Proof.
  induction evs1 as [|ev evs1 IH]; intros cur evs2; [reflexivity|].
  destruct ev; cbn [app acked_from last_upload]; rewrite IH; try reflexivity;
    by rewrite app_assoc.
Qed.

Lemma acked_from_quiet evs : forall cur,
  Forall is_quiet_event evs -> acked_from cur evs = [].
Proof.
  induction evs as [|ev evs IH]; intros cur Hq; [reflexivity|].
  apply Forall_cons in Hq as [Hev Hq].
  destruct ev; try done; cbn [acked_from post_succeeded app]; by apply IH.
Qed.

(** Within one call of [_upload] the entries are accepted once for each
    request that succeeds. *)
Lemma acked_from_upload entries evs :
  Forall (upload_event entries) evs ->
  acked_from entries evs = concat (replicate (successes evs) entries).
Proof.
  induction 1 as [|ev evs Hev _ IH]; [reflexivity|].
  destruct ev; try done; cbn [acked_from successes]; rewrite IH;
    try reflexivity.
  destruct (post_succeeded _); reflexivity.
Qed.

Lemma enqueued_app evs1 evs2 :
  enqueued (evs1 ++ evs2) = (enqueued evs1 ++ enqueued evs2)%list.
Proof. unfold enqueued. by rewrite omap_app, concat_app. Qed.

Lemma enqueued_quiet evs : Forall is_quiet_event evs -> enqueued evs = [].
Proof.
  induction 1 as [|ev evs Hev _ IH]; [reflexivity|].
  destruct ev as [[]| | | | | | | |]; try done; exact IH.
Qed.

Lemma enqueued_upload entries evs :
  Forall (upload_event entries) evs -> enqueued evs = [].
Proof.
  induction 1 as [|ev evs Hev _ IH]; [reflexivity|].
  destruct ev as [[]| | | | | | | |]; try done; exact IH.
Qed.

(** [owes extra w]: the queues and the accepted uploads hold, up to order,
    what was enqueued and [extra] once more: entries of an upload that is
    accepted and not yet removed from its queue. *)
Definition owes (extra : list string) (w : World) : Prop :=
  (stored (db w) ++ acked (trace w))%list ≡ₚ (extra ++ enqueued (trace w))%list.

Section Ledger.
Context {Data : Type} (env : Env Data) (opts : Options).
Import Redis RedisFacts StoredFacts.

Lemma owes_extend extra w evs :
  owes extra w -> Forall is_quiet_event evs -> owes extra (extend w evs).
Proof.
  unfold owes, acked. intros Hw Hq. cbn [extend db trace].
  rewrite acked_from_app, enqueued_app.
  by rewrite (acked_from_quiet evs _ Hq), (enqueued_quiet evs Hq), !app_nil_r.
Qed.

Lemma owes_set_db extra w d :
  owes extra w -> stored d ≡ₚ stored (db w) -> owes extra (set_db w d).
Proof. unfold owes. intros Hw Hd. cbn [set_db db trace]. by rewrite Hd. Qed.

Lemma owes_upload entries ep sf w r w2 :
  owes [] w -> _upload env opts entries ep sf w = (r, w2) ->
  owes (match r with Ok (true, _) => entries | _ => [] end) w2.
Proof.
  unfold owes, acked. intros Hw Hup.
  destruct (upload_frame env opts entries ep sf w) as (evs & Hevs & Hdb & Htr & Hsucc).
  rewrite Hup in Hdb, Htr, Hsucc. cbn [fst snd] in *.
  rewrite Hdb, Htr, acked_from_app, enqueued_app. cbn [acked_from].
  change (enqueued (EvUpload entries sf :: evs)) with (enqueued evs).
  rewrite (enqueued_upload entries evs Hevs), app_nil_r.
  rewrite (acked_from_upload entries evs Hevs), Hsucc.
  rewrite app_assoc, Hw. cbn [app].
  destruct r as [[[] msg]| |]; cbn [replicate concat]; rewrite ?app_nil_r; try done.
  apply Permutation_app_comm.
Qed.

(** The accepted entries leave the ledger with the queue that held them. *)
Lemma owes_del extra k w :
  owes extra w -> extra ≡ₚ contents k (db w) ->
  owes [] (set_db w (snd (del k (db w)))).
Proof.
  unfold owes. intros Hw Hk. cbn [set_db db trace app].
  apply (Permutation_app_inv_l (contents k (db w))).
  rewrite app_assoc, stored_del, Hw. by rewrite Hk.
Qed.

Lemma enqueue_owes (a : Data) w : owes [] w -> owes [] (snd (enqueue env a w)).
Proof.
  unfold owes, acked. intros Hw. rewrite enqueue_run.
  cbn [snd extend set_db db trace app].
  rewrite acked_from_app, enqueued_app. cbn [acked_from post_succeeded app].
  rewrite app_nil_r. rewrite stored_lpush.
  change (enqueued [EvRedis (LPUSH PENDING_QUEUE [json_dumps env a])])
    with [json_dumps env a].
  cbn [app] in Hw |- *. rewrite <- Hw. apply Permutation_cons_append.
Qed.

Lemma dequeued_owes src work w :
  owes [] w -> owes [] (dequeued opts src work w).
Proof.
  intros Hw. unfold dequeued.
  apply owes_extend; [|repeat constructor].
  apply owes_set_db; [exact Hw|]. apply stored_dequeue_batch.
Qed.

Lemma upload_batch_owes src work w :
  owes [] w -> owes [] (snd (_upload_batch env opts src work w)).
Proof.
  intros Hw. rewrite upload_batch_unfold. cbv zeta.
  pose proof (dequeued_owes src work w Hw) as Hw1.
  pose proof (dequeue_batch_work src work (batch_size opts) (db w)) as Hwork.
  destruct (fst (dequeue_batch src work (batch_size opts) (db w))) as [|b batch] eqn:Hb.
  - cbn [snd]. destruct (debug_enabled env); [|exact Hw1].
    apply owes_extend; [exact Hw1|repeat constructor].
  - pose proof (owes_upload (b :: batch) None 1 (dequeued opts src work w)) as Hw2.
    destruct (_upload env opts (b :: batch) None 1 (dequeued opts src work w))
      as [[[[] msg]| |] w2] eqn:Hup; specialize (Hw2 _ _ Hw1 eq_refl);
      cbn [snd]; try exact Hw2.
    + apply owes_extend; [|repeat constructor].
      apply (owes_del (b :: batch)); [exact Hw2|].
      rewrite (upload_db _ _ _ _ _ _ _ _ Hup). rewrite Hwork.
      unfold dequeued. reflexivity.
    + apply owes_extend; [exact Hw2|repeat constructor].
Qed.

Lemma continuing_loop_owes fuel src work : forall res ret w,
  owes [] w -> owes [] (snd (continuing_loop env opts fuel src work res ret w)).
Proof.
  induction fuel as [|fuel IH]; intros res ret w Hw; cbn [continuing_loop].
  - destruct (negb (has_error res) && (count res =? batch_size opts)); exact Hw.
  - destruct (negb (has_error res) && (count res =? batch_size opts)); [|exact Hw].
    unfold mbind, M_bind, bind.
    pose proof (upload_batch_owes src work w Hw) as Hw1.
    destruct (_upload_batch env opts src work w) as [[res'| |] w1];
      cbn [snd] in Hw1 |- *; try exact Hw1.
    by apply IH.
Qed.

Lemma upload_batch_continuing_owes fuel src work w :
  owes [] w -> owes [] (snd (_upload_batch_continuing env opts fuel src work w)).
Proof.
  intros Hw. rewrite upload_batch_continuing_unfold.
  pose proof (upload_batch_owes src work w Hw) as Hw1.
  destruct (_upload_batch env opts src work w) as [[res'| |] w1];
    cbn [snd] in Hw1 |- *; try exact Hw1.
  by apply continuing_loop_owes.
Qed.

Lemma failing_loop_owes fuel queues : forall ret w,
  owes [] w -> owes [] (snd (failing_loop env opts fuel queues ret w)).
Proof.
  induction queues as [|queue rest IH]; intros ret w Hw; [exact Hw|].
  cbn [failing_loop]. unfold try_except.
  pose proof (upload_batch_continuing_owes fuel queue FAIL_WORK_QUEUE w Hw) as Hw1.
  destruct (_upload_batch_continuing env opts fuel queue FAIL_WORK_QUEUE w)
    as [[res|[rex|e]|] w1]; cbn [snd] in Hw1 |- *; try exact Hw1.
  - destruct (error res); [exact Hw1|by apply IH].
  - destruct w1. munfold. cbn [snd].
    change (owes [] (extend (mkWorld db0 upload_timer0 trace0)
                       [EvLog WARNING "Still unable to upload failed batch(es)"])).
    apply owes_extend; [exact Hw1|repeat constructor].
Qed.

Lemma upload_failing_owes fuel w :
  owes [] w -> owes [] (snd (upload_failing env opts fuel w)).
Proof.
  intros Hw. unfold upload_failing, list_queues. destruct w as [d ut tr].
  munfold. cbn [fst snd].
  set (queues := Str.sorted (keys "fail_*" d)).
  assert (H1 : owes [] (extend (mkWorld d ut tr) [EvRedis (KEYS "fail_*")]))
    by (apply owes_extend; [exact Hw|repeat constructor]).
  destruct (nonempty queues); cbv beta iota zeta.
  - apply failing_loop_owes.
    change (owes [] (extend (extend (mkWorld d ut tr) [EvRedis (KEYS "fail_*")])
                       [EvLog WARNING ("Found " ++ Str.of_Z (len queues) ++ " fail queue(s)")])).
    apply owes_extend; [exact H1|repeat constructor].
  - apply failing_loop_owes. exact H1.
Qed.

Lemma upload_pending_owes fuel w :
  owes [] w -> owes [] (snd (upload_pending env opts fuel w)).
Proof.
  intros Hw. unfold upload_pending, try_except.
  pose proof (upload_batch_continuing_owes fuel PENDING_QUEUE PENDING_WORK_QUEUE w Hw)
    as Hw1.
  destruct (_upload_batch_continuing env opts fuel PENDING_QUEUE PENDING_WORK_QUEUE w)
    as [[res|[rex|e]|] w1]; cbn [snd] in Hw1 |- *; try exact Hw1.
  destruct w1 as [d1 ut1 tr1]. munfold.
  set (now := utcnow env tr1).
  set (evs := [EvUtcnow now;
               EvLog WARNING ("Failed to upload pending batch - transferring to dedicated retry queue '"
                              ++ RETRY_QUEUE now 0 ++ "'");
               EvRedis (RENAMENX PENDING_WORK_QUEUE (RETRY_QUEUE now 0))]).
  assert (H1 : owes [] (extend (mkWorld d1 ut1 tr1) evs))
    by (apply owes_extend; [exact Hw1|repeat constructor]).
  destruct (renamenx PENDING_WORK_QUEUE (RETRY_QUEUE now 0) d1) as [[b d']|] eqn:Hr;
    cbv beta iota zeta; cbn [snd].
  - apply stored_renamenx in Hr.
    unfold owes in H1 |- *. cbn [extend db trace] in H1 |- *.
    rewrite Hr. subst evs. revert H1. by trace_norm.
  - unfold owes in H1 |- *. cbn [extend db trace] in H1 |- *.
    subst evs. revert H1. by trace_norm.
Qed.

Lemma retry_pass_owes queues remaining w w' :
  0 < fail_ttl opts ->
  retry_pass env opts queues remaining w w' ->
  Forall (fun q => Str.starts_with "retr_" q = true) queues ->
  owes [] w -> owes [] w'.
Proof.
  intros Httl.
  assert (Hread : forall queue r w res w2,
    owes [] w ->
    _upload env opts (contents queue (db w)) None r (read_queue queue w) = (res, w2) ->
    owes (match res with Ok (true, _) => contents queue (db w) | _ => [] end) w2 /\
    db w2 = db w).
  { intros queue r w0 res w2 Hw0 Hup.
    assert (Hw1 : owes [] (read_queue queue w0))
      by (apply owes_extend; [exact Hw0|repeat constructor]).
    split; [exact (owes_upload _ _ _ _ _ _ Hw1 Hup)|].
    by rewrite (upload_db _ _ _ _ _ _ _ _ Hup). }
  induction 1 as
    [ r w
    | queue rest r w w' Hm _ IH
    | queue rest r w m v w2 w' Hm Hup _ IH
    | queue rest r w m msg w2 Hm Hup
    | queue rest r w m rex w2 w' Hm Hne Hup Hmax _ IH
    | queue rest r w m rex w2 w' Hm Hne Hup Hmax _ IH
    | queue rest r w m rex w2 Hm He Hup
    | queue rest r w m e w2 Hm Hup
    | queue rest r w m w2 Hm Hup ]; intros Hall Hw;
    try (apply Forall_cons in Hall as [Hq Hrest]);
    try (destruct (Hread _ _ _ _ _ Hw Hup) as (Hw2 & Hdb)).
  - exact Hw.
  - apply IH; [exact Hrest|]. apply owes_extend; [exact Hw|repeat constructor].
  - apply IH; [exact Hrest|].
    apply owes_extend; [|repeat constructor].
    apply (owes_del (contents queue (db w))); [exact Hw2|by rewrite Hdb].
  - apply owes_extend; [exact Hw2|repeat constructor].
  - apply IH; [exact Hrest|]. unfold promoted. cbv zeta.
    apply owes_extend; [|repeat constructor].
    set (fq := FAIL_QUEUE _).
    assert (Hfq : fq <> queue) by (by apply fail_queue_not_retry).
    set (d1 := snd (expire fq (fail_ttl opts) (lpush fq (contents queue (db w)) (db w2)))).
    assert (Hd1 : stored d1 ≡ₚ (contents queue (db w) ++ stored (db w2))%list).
    { subst d1. rewrite stored_expire by done. apply stored_lpush. }
    assert (Hc1 : contents queue d1 = contents queue (db w)).
    { subst d1. rewrite Frame.expire_contents by done.
      rewrite contents_lpush, decide_False by done. by rewrite Hdb. }
    unfold owes in Hw2 |- *. cbn [set_db db trace app] in Hw2 |- *.
    apply (Permutation_app_inv_l (contents queue d1)).
    rewrite app_assoc, stored_del, Hd1, Hc1, <- app_assoc.
    f_equiv. exact Hw2.
  - apply IH; [exact Hrest|]. unfold renamed. cbv zeta.
    apply owes_extend; [|repeat constructor].
    apply owes_set_db; [exact Hw2|].
    destruct (renamenx queue _ (db w2)) as [[b d']|] eqn:Hr; [|done].
    by apply stored_renamenx in Hr.
  - unfold refused. destruct (_ <=? _);
      (apply owes_extend; [exact Hw2|repeat constructor]).
  - exact Hw2.
  - exact Hw2.
Qed.

Lemma upload_retrying_owes w :
  0 < fail_ttl opts -> owes [] w -> owes [] (snd (upload_retrying env opts w)).
Proof.
  intros Httl Hw. rewrite upload_retrying_unfold. cbv zeta.
  set (queues := Str.sorted (keys "retr_*" (db w))).
  set (w1 := extend w _).
  assert (Hw1 : owes [] w1).
  { apply owes_extend; [exact Hw|].
    destruct (nonempty queues); repeat constructor. }
  eapply retry_pass_owes; [exact Httl|apply retrying_loop_pass| |exact Hw1].
  apply Forall_forall. intros q Hq. by apply sorted_elem, keys_retr in Hq as [_ Hp].
Qed.

(** X9.  No entry is lost and none is accepted twice.  In every world
    reached from the empty database by enqueues, drive operations cut off
    or not, and restarts, with [fail_ttl] above 0 and no key expiring: the
    entries in the queues together with the entries of the uploads the
    server accepted are, up to order, the entries that were enqueued. *)
Theorem entries_conserved w :
  0 < fail_ttl opts -> reachable env opts w ->
  (stored (db w) ++ acked (trace w))%list ≡ₚ enqueued (trace w).
Proof.
  intros Httl Hr. change (owes [] w).
  induction Hr as [|w op _ IH].
  - unfold owes, stored, entries_of. cbn [initial db lists Redis.empty].
    by rewrite map_to_list_empty.
  - destruct op; cbn [perform].
    + by apply enqueue_owes.
    + by apply upload_pending_owes.
    + by apply upload_retrying_owes.
    + by apply upload_failing_owes.
    + exact IH.
Qed.

End Ledger.

Lemma entries_conserved_witness :
  let env := Demo.env_of (Responded 200) in
  let w := perform env Demo.opts0 (OpEnqueue "C")
             (perform env Demo.opts0 (OpUploadPending 2)
                (perform env Demo.opts0 (OpEnqueue "B")
                   (perform env Demo.opts0 (OpEnqueue "A") initial))) in
  stored (db w) = ["C"] /\ acked (trace w) = ["A"; "B"] /\
  (stored (db w) ++ acked (trace w))%list ≡ₚ enqueued (trace w).
Proof.
  intros env w. split; [vm_compute; reflexivity|]. split; [vm_compute; reflexivity|].
  apply (entries_conserved env Demo.opts0 w); [reflexivity|].
  subst w. repeat apply reach_step. apply reach_initial.
Defined.

(** ** [upload_failing] when the server is back *)

Section FailingDrain.
Context {Data : Type} (env : Env Data) (opts : Options).
Import Redis RedisFacts.

(** A pattern of literal characters and a final [*] asks for a prefix. *)
Lemma glob_prefix p : forall s,
  Forall (fun c => Ascii.eqb c "*" = false /\ Ascii.eqb c "?" = false) p ->
  glob (p ++ ["*"%char]) s = Str.starts_with (Str.of_chars p) (Str.of_chars s).
Proof.
  induction p as [|c p IH]; intros s Hp.
  - cbn [app]. rewrite glob_star. by destruct s.
  - apply Forall_cons in Hp as [[H1 H2] Hp].
    cbn [app glob]. rewrite H1. destruct s as [|d s]; [reflexivity|].
    rewrite H2. cbn [orb]. rewrite (IH s Hp). reflexivity.
Qed.

Lemma keys_fail q d :
  q ∈ keys "fail_*" d <-> contents q d <> [] /\ Str.starts_with "fail_" q = true.
Proof.
  rewrite keys_spec.
  change (Str.chars "fail_*") with (["f"; "a"; "i"; "l"; "_"] ++ ["*"])%char%list.
  rewrite glob_prefix by (repeat constructor). by rewrite of_chars_chars.
Qed.

Lemma add_total_0 ret : add_total ret 0 = ret.
Proof. destruct ret. unfold add_total. cbn. by rewrite Z.add_0_r. Qed.

Lemma add_total_add ret a b : add_total (add_total ret a) b = add_total ret (a + b).
Proof. unfold add_total. cbn. by rewrite Z.add_assoc. Qed.

Lemma failing_loop_drained ep fuel queues : forall ret w,
  opt_endpoint opts = Some ep -> 0 <= upload_splay opts -> 0 < batch_size opts ->
  server_accepts env ->
  NoDup queues -> FAIL_WORK_QUEUE ∉ queues ->
  contents FAIL_WORK_QUEUE (db w) = [] ->
  (forall q, q ∈ queues -> (length (contents q (db w)) < fuel)%nat) ->
  exists w' evs batches,
    failing_loop env opts fuel queues ret w
      = (Ok (add_total ret (len (concat (map (fun q => contents q (db w)) queues)))), w') /\
    trace w' = (trace w ++ evs)%list /\
    posts evs = map (request_of ep) batches /\
    concat batches = concat (map (fun q => rev (contents q (db w))) queues) /\
    Forall (fun b => 0 < len b <= batch_size opts) batches /\
    (forall q, q ∈ queues -> contents q (db w') = []) /\
    contents FAIL_WORK_QUEUE (db w') = [] /\
    (forall q, q ∉ queues -> q <> FAIL_WORK_QUEUE ->
               contents q (db w') = contents q (db w)).
Proof.
  induction queues as [|queue rest IH];
    intros ret w Hep Hsplay Hbs Hsrv Hnd Hwq Hwork Hlen.
  - exists w, [], []. cbn [failing_loop map concat]. unfold len. cbn [length Z.of_nat].
    rewrite add_total_0, app_nil_r. repeat split; try done.
    intros q Hq. by apply elem_of_nil in Hq.
  - apply NoDup_cons in Hnd as [Hnotin Hnd].
    apply not_elem_of_cons in Hwq as [Hwq1 Hwq].
    destruct (continuing_drained env opts ep queue FAIL_WORK_QUEUE fuel w
                Hep Hsplay Hbs Hsrv Hwork)
      as (w1 & evs1 & batches1 & Hrun & Htr1 & Hposts1 & Hcat1 & Hall1 & Hsrc1 & Hw1 & Hq1).
    { apply Hlen. left. }
    assert (Hsame : forall q, q ∈ rest -> contents q (db w1) = contents q (db w)).
    { intros q Hq. apply Hq1; [|by intros ->]. intros ->. done. }
    destruct (IH (add_total ret (len (contents queue (db w)))) w1
                Hep Hsplay Hbs Hsrv Hnd Hwq Hw1)
      as (w' & evs & batches & Hloop & Htr & Hposts & Hcat & Hall & Hgone & Hw' & Hq').
    { intros q Hq. rewrite Hsame by done. apply Hlen. by right. }
    assert (Hmap : forall f : list string -> list string,
              map (fun q => f (contents q (db w1))) rest
              = map (fun q => f (contents q (db w))) rest).
    { intros f. apply map_ext_in. intros q Hq. rewrite Hsame; [done|].
      by apply list_elem_of_In. }
    exists w', (evs1 ++ evs)%list, (batches1 ++ batches)%list.
    split.
    { cbn [failing_loop]. unfold try_except. rewrite Hrun.
      cbn [error count]. rewrite Hloop. rewrite add_total_add.
      rewrite (Hmap (fun l => l)). cbn [map concat]. unfold len.
      rewrite length_app, Nat2Z.inj_add. reflexivity. }
    split; [rewrite Htr, Htr1; by rewrite app_assoc|].
    split; [by rewrite posts_app, Hposts1, Hposts, map_app|].
    split.
    { rewrite concat_app, Hcat1, Hcat. cbn [map concat]. by rewrite (Hmap (@rev string)). }
    split; [by apply Forall_app|].
    split.
    { intros q [->|Hq]%elem_of_cons; [|by apply Hgone].
      rewrite Hq' by done. exact Hsrc1. }
    split; [exact Hw'|].
    intros q [Hne Hq]%not_elem_of_cons Hqw. rewrite Hq' by done. by apply Hq1.
Qed.

(** X10.  With [fail.work] empty, a batch size above 0 and a server that
    accepts every request, [upload_failing] uploads all fail queues: queue
    after queue in ascending order of their names, each from its tail to its
    head, in batches of at most [batch_size] entries.  It returns the number
    of entries as the total and no error, leaves no fail queue behind, and
    leaves every other queue as it was. *)
Theorem upload_failing_drains ep fuel w :
  opt_endpoint opts = Some ep -> 0 <= upload_splay opts -> 0 < batch_size opts ->
  server_accepts env ->
  contents FAIL_WORK_QUEUE (db w) = [] ->
  (forall q, Str.starts_with "fail_" q = true ->
             (length (contents q (db w)) < fuel)%nat) ->
  let queues := Str.sorted (keys "fail_*" (db w)) in
  exists w' evs batches,
    upload_failing env opts fuel w
      = (Ok (mkDriveRet (len (concat (map (fun q => contents q (db w)) queues)))
               None None), w') /\
    trace w' = (trace w ++ evs)%list /\
    posts evs = map (request_of ep) batches /\
    concat batches = concat (map (fun q => rev (contents q (db w))) queues) /\
    Forall (fun b => 0 < len b <= batch_size opts) batches /\
    (forall q, Str.starts_with "fail_" q = true -> contents q (db w') = []) /\
    contents FAIL_WORK_QUEUE (db w') = [] /\
    (forall q, Str.starts_with "fail_" q = false -> contents q (db w') = contents q (db w)).
Proof.
  intros Hep Hsplay Hbs Hsrv Hwork Hlen queues.
  assert (Hin : forall q, q ∈ queues <->
                  contents q (db w) <> [] /\ Str.starts_with "fail_" q = true).
  { intros q. subst queues. by rewrite sorted_perm, keys_fail. }
  set (pre := (EvRedis (KEYS "fail_*") ::
               if nonempty queues
               then [EvLog WARNING ("Found " ++ Str.of_Z (len queues) ++ " fail queue(s)")]
               else [])).
  assert (Hrun : upload_failing env opts fuel w
                 = failing_loop env opts fuel queues (mkDriveRet 0 None None)
                     (extend w pre)).
  { unfold upload_failing, list_queues. destruct w as [d ut tr].
    munfold. cbn [fst snd]. subst pre queues. unfold extend.
    cbn [db upload_timer trace].
    destruct (nonempty _); cbv beta iota zeta; by trace_norm. }
  destruct (failing_loop_drained ep fuel queues (mkDriveRet 0 None None) (extend w pre)
              Hep Hsplay Hbs Hsrv)
    as (w' & evs & batches & Hloop & Htr & Hposts & Hcat & Hall & Hgone & Hw' & Hq').
  { subst queues. rewrite sorted_perm. apply keys_NoDup. }
  { rewrite Hin. intros [_ H]. done. }
  { exact Hwork. }
  { intros q Hq. apply Hlen. by apply Hin in Hq as [_ Hq]. }
  exists w', (pre ++ evs)%list, batches.
  split; [rewrite Hrun, Hloop; reflexivity|].
  split; [rewrite Htr; cbn [extend trace]; by rewrite app_assoc|].
  split.
  { rewrite posts_app, Hposts. subst pre. by destruct (nonempty queues). }
  split; [exact Hcat|]. split; [exact Hall|].
  split.
  { intros q Hq. destruct (contents q (db w)) as [|x l] eqn:Hc.
    - rewrite Hq'; [exact Hc| |by intros ->].
      rewrite Hin, Hc. intros [H _]. done.
    - apply Hgone. apply Hin. by rewrite Hc. }
  split; [exact Hw'|].
  intros q Hq. destruct (decide (q = FAIL_WORK_QUEUE)) as [->|Hne].
  - by rewrite Hw', Hwork.
  - apply Hq'; [|exact Hne]. rewrite Hin, Hq. intros [_ H]. done.
Qed.

End FailingDrain.

Module DemoFailing.

(** Two fail queues: ["B"; "A"] of one day and ["C"] of the next. *)
Definition two_fail_queues : World :=
  mkWorld (Redis.lpush "fail_20240102" ["C"]
             (Redis.lpush "fail_20240101" ["A"; "B"] Redis.empty)) None [].

End DemoFailing.

Lemma upload_failing_drains_witness :
  exists w',
    upload_failing (Demo.env_of (Responded 200)) Demo.opts0 3 DemoFailing.two_fail_queues
      = (Ok (mkDriveRet 3 None None), w') /\
    posts (trace w')
      = [request_of Demo.endpoint0 ["A"; "B"]; request_of Demo.endpoint0 ["C"]] /\
    Redis.all_keys (db w') = [].
Proof.
  destruct (upload_failing_drains (Demo.env_of (Responded 200)) Demo.opts0
              Demo.endpoint0 3 DemoFailing.two_fail_queues)
    as (w' & evs & batches & Hrun & _);
    [reflexivity | vm_compute; discriminate | reflexivity | apply DemoDrain.accepts_200
    | reflexivity | |].
  { intros q _.
    assert (H : (length (Redis.contents q (db DemoFailing.two_fail_queues)) <= 2)%nat);
      [|lia].
    unfold DemoFailing.two_fail_queues. cbn [db].
    rewrite !RedisFacts.contents_lpush.
    assert (He : forall k, Redis.contents k Redis.empty = []) by done.
    repeat case_decide; try discriminate; rewrite ?He; cbn [rev app length]; lia. }
  exists w'. split; [exact Hrun|].
  assert (Hw' : w' = snd (upload_failing (Demo.env_of (Responded 200)) Demo.opts0 3
                            DemoFailing.two_fail_queues)) by (by rewrite Hrun).
  rewrite Hw'. split; vm_compute; reflexivity.
Defined.

(** ** [upload_retrying] when the server is back *)

Section RetryingDrain.
Context {Data : Type} (env : Env Data) (opts : Options).
Import Redis RedisFacts.

(** The queues of a pass whose names [RETRY_QUEUE_REGEX] matches. *)
Definition matched (queues : list string) : list string :=
  filter (fun q => is_Some (RETRY_QUEUE_REGEX_match q)) queues.

(** An iteration whose request the server accepts. *)
Lemma accepted_iteration queue rest remaining ret w ep m :
  RETRY_QUEUE_REGEX_match queue = Some m ->
  opt_endpoint opts = Some ep -> 0 <= upload_splay opts -> 0 <= remaining ->
  server_accepts env ->
  exists w3 evs,
    retrying_loop env opts (queue :: rest) remaining ret w
      = retrying_loop env opts rest (remaining - 1)
          (add_total ret (len (contents queue (db w)))) w3 /\
    trace w3 = (trace w ++ evs)%list /\
    posts evs = [request_of ep (contents queue (db w))] /\
    db w3 = snd (del queue (db w)).
Proof.
  intros Hmatch Hep Hsplay Hr Hsrv.
  destruct (upload_configured env opts (contents queue (db w)) None remaining
              (read_queue queue w) ep Hep Hsplay Hr) as (pre & Hpre & Hrun).
  cbv zeta in Hrun.
  match type of Hrun with context [classify env ?req (http_post env ?h ?req)] =>
    destruct (Hsrv h req) as (c & Hc & Hok)
  end.
  rewrite Hc in Hrun. unfold classify in Hrun. rewrite Hok in Hrun.
  rewrite (retrying_loop_success env opts queue rest remaining ret w m PyNone _ Hmatch Hrun).
  eexists.
  exists ([EvRedis (LRANGE queue 0 (-1)); EvUpload (contents queue (db w)) remaining]
          ++ pre ++
          [EvPost (request_of ep (contents queue (db w))) (Responded c);
           EvTimer (timer env ((trace (read_queue queue w)
                                ++ EvUpload (contents queue (db w)) remaining :: pre)
                               ++ [EvPost (request_of ep (contents queue (db w)))
                                     (Responded c)]));
           log_retried queue; EvRedis (DEL queue)])%list.
  split; [reflexivity|].
  cbn [extend set_db read_queue db trace]. split; [by trace_norm|].
  split; [|reflexivity].
  rewrite !posts_app, (posts_pacing pre Hpre). reflexivity.
Qed.

Lemma retrying_loop_cleared ep queues : forall remaining ret w,
  opt_endpoint opts = Some ep -> 0 <= upload_splay opts -> server_accepts env ->
  NoDup queues -> len queues <= remaining ->
  exists w' evs,
    retrying_loop env opts queues remaining ret w
      = (Ok (add_total ret
               (len (concat (map (fun q => contents q (db w)) (matched queues))))), w') /\
    trace w' = (trace w ++ evs)%list /\
    posts evs = map (fun q => request_of ep (contents q (db w))) (matched queues) /\
    (forall q, q ∈ matched queues -> contents q (db w') = []) /\
    (forall q, q ∉ matched queues -> contents q (db w') = contents q (db w)).
Proof.
  induction queues as [|queue rest IH]; intros remaining ret w Hep Hsplay Hsrv Hnd Hlen.
  - exists w, []. rewrite retrying_loop_nil. unfold matched. cbn [filter map concat].
    unfold len. cbn [length Z.of_nat]. rewrite add_total_0, app_nil_r.
    repeat split; try done. intros q Hq. by apply elem_of_nil in Hq.
  - apply NoDup_cons in Hnd as [Hnotin Hnd].
    unfold len in Hlen. cbn [length] in Hlen.
    assert (Hrest : forall q, q ∈ matched rest -> q ∈ rest).
    { intros q Hq. unfold matched in Hq. by apply list_elem_of_filter in Hq as [_ Hq]. }
    destruct (RETRY_QUEUE_REGEX_match queue) as [m|] eqn:Hm.
    + assert (Hmq : matched (queue :: rest) = queue :: matched rest).
      { unfold matched. rewrite filter_cons_True; [done|]. by rewrite Hm. }
      destruct (accepted_iteration queue rest remaining ret w ep m Hm Hep Hsplay)
        as (w3 & evs1 & Hstep & Htr1 & Hposts1 & Hdb3); [lia|exact Hsrv|].
      assert (Hsame : forall q, q <> queue -> contents q (db w3) = contents q (db w)).
      { intros q Hq. rewrite Hdb3, contents_del. by rewrite decide_False. }
      destruct (IH (remaining - 1) (add_total ret (len (contents queue (db w)))) w3
                  Hep Hsplay Hsrv Hnd)
        as (w' & evs & Hloop & Htr & Hposts & Hgone & Hkept); [unfold len; lia|].
      assert (Hmap : forall (B : Type) (f : list string -> B),
                map (fun q => f (contents q (db w3))) (matched rest)
                = map (fun q => f (contents q (db w))) (matched rest)).
      { intros B f. apply map_ext_in. intros q Hq. apply list_elem_of_In, Hrest in Hq.
        rewrite Hsame; [done|]. by intros ->. }
      exists w', (evs1 ++ evs)%list.
      split.
      { rewrite Hstep, Hloop, add_total_add, Hmq. cbn [map concat].
        rewrite (Hmap _ (fun l => l)). unfold len.
        rewrite length_app, Nat2Z.inj_add. reflexivity. }
      split; [rewrite Htr, Htr1; by rewrite app_assoc|].
      split.
      { rewrite posts_app, Hposts1, Hposts, Hmq. cbn [map app].
        by rewrite (Hmap _ (request_of ep)). }
      split.
      * rewrite Hmq. intros q [->|Hq]%elem_of_cons; [|by apply Hgone].
        rewrite Hkept by (intros H; by apply Hrest in H).
        rewrite Hdb3, contents_del. by rewrite decide_True.
      * rewrite Hmq. intros q [Hne Hq]%not_elem_of_cons.
        rewrite Hkept by done. by apply Hsame.
    + assert (Hmq : matched (queue :: rest) = matched rest).
      { unfold matched. rewrite filter_cons_False; [done|].
        rewrite Hm. by intros [? ?]. }
      rewrite retrying_loop_no_match by done.
      destruct (IH remaining ret (extend w [log_no_match queue]) Hep Hsplay Hsrv Hnd)
        as (w' & evs & Hloop & Htr & Hposts & Hgone & Hkept); [unfold len; lia|].
      cbn [extend db trace] in *.
      exists w', (log_no_match queue :: evs). rewrite Hmq.
      split; [exact Hloop|].
      split; [rewrite Htr; by trace_norm|].
      split; [exact Hposts|]. split; [exact Hgone|exact Hkept].
Qed.

(** X11.  With a server that accepts every request, [upload_retrying]
    uploads every retry queue whose name [RETRY_QUEUE_REGEX] matches, one
    request for each queue with all its entries from head to tail, in
    ascending order of the names.  It returns the number of these entries
    as the total, no error, and [is_overrun] telling whether the number of
    keys found reaches [retry_queue_limit]; the queues it uploaded are gone
    and every other queue is as it was. *)
Theorem upload_retrying_clears ep w :
  opt_endpoint opts = Some ep -> 0 <= upload_splay opts -> server_accepts env ->
  let queues := Str.sorted (keys "retr_*" (db w)) in
  exists w' evs,
    upload_retrying env opts w
      = (Ok (mkDriveRet
               (len (concat (map (fun q => contents q (db w)) (matched queues))))
               None (Some (retry_queue_limit opts <=? len queues))), w') /\
    trace w' = (trace w ++ evs)%list /\
    posts evs = map (fun q => request_of ep (contents q (db w))) (matched queues) /\
    (forall q, q ∈ matched queues -> contents q (db w') = []) /\
    (forall q, q ∉ matched queues -> contents q (db w') = contents q (db w)).
Proof.
  intros Hep Hsplay Hsrv queues.
  rewrite upload_retrying_unfold. fold queues.
  set (pre := EvRedis (KEYS "retr_*") :: _).
  destruct (retrying_loop_cleared ep queues (len queues)
              (mkDriveRet 0 None (Some (retry_queue_limit opts <=? len queues)))
              (extend w pre) Hep Hsplay Hsrv)
    as (w' & evs & Hloop & Htr & Hposts & Hgone & Hkept).
  { subst queues. rewrite sorted_perm. apply keys_NoDup. }
  { lia. }
  cbn [extend db trace] in *.
  exists w', (pre ++ evs)%list.
  split; [exact Hloop|].
  split; [rewrite Htr; by rewrite app_assoc|].
  split; [|split; [exact Hgone|exact Hkept]].
  rewrite posts_app, Hposts. subst pre. by destruct (nonempty queues).
Qed.

End RetryingDrain.

Lemma upload_retrying_clears_witness :
  let env := Demo.env_of (Responded 200) in
  exists w',
    upload_retrying env Demo.opts0 (DemoSplay.three_queues)
      = (Ok (mkDriveRet 3 None (Some false)), w') /\
    Redis.all_keys (db w') = [].
Proof.
  intros env.
  destruct (upload_retrying_clears env Demo.opts0 Demo.endpoint0 DemoSplay.three_queues)
    as (w' & evs & Hrun & _);
    [reflexivity | vm_compute; discriminate | apply DemoDrain.accepts_200 |].
  exists w'.
  assert (Hw' : w' = snd (upload_retrying env Demo.opts0 DemoSplay.three_queues))
    by (by rewrite Hrun).
  split; [|rewrite Hw'; vm_compute; reflexivity].
  rewrite Hrun. vm_compute. reflexivity.
Defined.

(** ** What [upload_retrying] reports *)

Lemma last_upload_quiet evs : forall cur,
  Forall is_quiet_event evs -> last_upload cur evs = cur.
Proof.
  induction evs as [|ev evs IH]; intros cur Hq; [reflexivity|].
  apply Forall_cons in Hq as [Hev Hq]. destruct ev; try done; by apply IH.
Qed.

Lemma last_upload_upload entries evs : forall cur,
  Forall (upload_event entries) evs -> last_upload cur evs = cur.
Proof.
  induction evs as [|ev evs IH]; intros cur Hq; [reflexivity|].
  apply Forall_cons in Hq as [Hev Hq]. destruct ev; try done; by apply IH.
Qed.

Lemma successes_app evs1 evs2 :
  successes (evs1 ++ evs2) = (successes evs1 + successes evs2)%nat.
Proof.
  induction evs1 as [|ev evs1 IH]; [reflexivity|].
  cbn [app successes]. rewrite IH. lia.
Qed.

Lemma successes_quiet evs : Forall is_quiet_event evs -> successes evs = O.
Proof.
  induction 1 as [|ev evs Hev _ IH]; [reflexivity|].
  destruct ev; try done; exact IH.
Qed.

Lemma uploads_quiet evs : Forall is_quiet_event evs -> uploads evs = [].
Proof.
  induction 1 as [|ev evs Hev _ IH]; [reflexivity|].
  destruct ev; try done; exact IH.
Qed.

Lemma uploads_upload_events entries evs :
  Forall (upload_event entries) evs -> uploads evs = [].
Proof.
  induction 1 as [|ev evs Hev _ IH]; [reflexivity|].
  destruct ev; try done; exact IH.
Qed.

(** The account of a stretch of history: the entries accepted, the calls
    of [_upload], and the requests that succeeded. *)
Definition account (cur : list string) (evs : list Event) : Z * nat * nat :=
  (len (acked_from cur evs), length (uploads evs), successes evs).

Lemma account_quiet cur tail rest :
  Forall is_quiet_event tail ->
  account cur (tail ++ rest) = account cur rest.
Proof.
  intros Hq. unfold account.
  rewrite acked_from_app, uploads_app, successes_app.
  by rewrite (acked_from_quiet tail cur Hq), (last_upload_quiet tail cur Hq),
    (uploads_quiet tail Hq), (successes_quiet tail Hq).
Qed.

Lemma account_quiet_cons cur ev rest :
  is_quiet_event ev -> account cur (ev :: rest) = account cur rest.
Proof. intros Hq. apply (account_quiet cur [ev] rest). by constructor. Qed.

(** One call of [_upload], what follows it in its iteration, and the rest. *)
Lemma account_upload cur entries sf evs_u tail rest :
  Forall (upload_event entries) evs_u -> Forall is_quiet_event tail ->
  account cur (EvUpload entries sf :: evs_u ++ tail ++ rest)
  = let '(a, u, s) := account entries rest in
    (Z.of_nat (successes evs_u) * len entries + a, S u, (successes evs_u + s)%nat).
Proof.
  intros Hu Hq. unfold account.
  cbn [acked_from]. change (uploads (EvUpload entries sf :: ?l))
    with ((entries, sf) :: uploads l).
  change (successes (EvUpload entries sf :: ?l)) with (successes l).
  rewrite !acked_from_app, !uploads_app, !successes_app.
  rewrite (acked_from_upload entries evs_u Hu), (last_upload_upload entries evs_u _ Hu),
    (uploads_upload_events entries evs_u Hu).
  rewrite (acked_from_quiet tail _ Hq), (last_upload_quiet tail _ Hq),
    (uploads_quiet tail Hq), (successes_quiet tail Hq).
  cbn [app length Nat.add].
  assert (Hrep : forall n, len (concat (replicate n entries)) = Z.of_nat n * len entries).
  { unfold len. induction n as [|n IH]; [reflexivity|].
    cbn [replicate concat]. rewrite length_app, Nat2Z.inj_add, IH. lia. }
  unfold len in *. rewrite length_app, Nat2Z.inj_add, Hrep. reflexivity.
Qed.

Section RetryingAccount.
Context {Data : Type} (env : Env Data) (opts : Options).
Import Redis RedisFacts.

(** The handler of a server error finds its queue gone: the command it
    sends is refused and the pass ends with the error of Redis. *)
Lemma retrying_loop_refused_raises queue rest remaining ret w m rex w2 :
  RETRY_QUEUE_REGEX_match queue = Some m ->
  contents queue (db w) = [] ->
  _upload env opts (contents queue (db w)) None remaining (read_queue queue w)
    = (Raised (RequestException rex), w2) ->
  exists e, fst (retrying_loop env opts (queue :: rest) remaining ret w)
            = Raised (OtherException e).
Proof.
  intros Hm He Hup.
  pose proof (upload_db _ _ _ _ _ _ _ _ Hup) as Hdb. cbn [read_queue extend db] in Hdb.
  cbn [retrying_loop]. rewrite Hm.
  unfold redis_lrange, read_queue, extend in *. destruct w as [d ut tr].
  munfold. rewrite lrange_all. cbn [db upload_timer trace] in Hup, He, Hdb. rewrite Hup.
  destruct w2 as [d2 ut2 tr2]. cbv beta iota zeta.
  cbn [db upload_timer trace] in *.
  destruct (max_retry opts <=? _); cbv beta iota zeta.
  - rewrite He. cbv beta iota zeta. cbn [fst]. eauto.
  - subst d2. unfold renamenx.
    apply not_exists_contents in He. rewrite He. cbv beta iota zeta.
    cbn [fst]. eauto.
Qed.

Lemma retrying_loop_other_raises queue rest remaining ret w m r w2 :
  RETRY_QUEUE_REGEX_match queue = Some m ->
  _upload env opts (contents queue (db w)) None remaining (read_queue queue w) = (r, w2) ->
  (exists e, r = Raised (OtherException e)) \/ r = OutOfFuel ->
  forall a, fst (retrying_loop env opts (queue :: rest) remaining ret w) <> Ok a.
Proof.
  intros Hm Hup Hr a. cbn [retrying_loop]. rewrite Hm.
  unfold redis_lrange, read_queue, extend in *. destruct w as [d ut tr].
  munfold. rewrite lrange_all. cbn [db upload_timer trace] in Hup. rewrite Hup.
  destruct Hr as [[e ->]| ->]; done.
Qed.

Lemma promoted_trace queue attempt entries w2 :
  exists tail, trace (promoted env opts queue attempt entries w2) = (trace w2 ++ tail)%list /\
               Forall is_quiet_event tail.
Proof.
  unfold promoted. cbv zeta. cbn [extend set_db trace].
  eexists. split; [reflexivity|]. repeat constructor.
Qed.

Lemma renamed_trace queue attempt w2 :
  exists tail, trace (renamed opts queue attempt w2) = (trace w2 ++ tail)%list /\
               Forall is_quiet_event tail.
Proof.
  unfold renamed. cbv zeta. cbn [extend set_db trace].
  eexists. split; [reflexivity|]. repeat constructor.
Qed.

Definition errors_of (r : DriveRet) : list PyVal := default [] (errors r).

Lemma retrying_loop_account queues : forall remaining ret w r w',
  retrying_loop env opts queues remaining ret w = (Ok r, w') ->
  is_overrun r = is_overrun ret /\
  exists evs, trace w' = (trace w ++ evs)%list /\
    forall cur, let '(a, u, s) := account cur evs in
      total r = total ret + a /\
      (u + length (errors_of ret) = s + length (errors_of r))%nat.
Proof.
  induction queues as [|queue rest IH]; intros remaining ret w r w' Hrun.
  - rewrite retrying_loop_nil in Hrun. injection Hrun as <- <-.
    split; [done|]. exists []. rewrite app_nil_r. split; [done|].
    intros cur. change (account cur []) with (0, O, O). split; lia.
  - destruct (RETRY_QUEUE_REGEX_match queue) as [m|] eqn:Hm.
    2: { rewrite retrying_loop_no_match in Hrun by done.
         destruct (IH _ _ _ _ _ Hrun) as (Hover & evs & Htr & Hacc).
         split; [exact Hover|]. exists (log_no_match queue :: evs).
         split; [rewrite Htr; cbn [extend trace]; by trace_norm|].
         intros cur.
         rewrite account_quiet_cons by done.
         apply Hacc. }
    destruct (_upload env opts (contents queue (db w)) None remaining (read_queue queue w))
      as [res w2] eqn:Hup.
    destruct (upload_frame env opts (contents queue (db w)) None remaining
                (read_queue queue w)) as (evs_u & Hevs & _ & Htr2 & Hsucc).
    rewrite Hup in Htr2, Hsucc. cbn [fst snd] in Htr2, Hsucc.
    cbn [read_queue extend trace] in Htr2.
    assert (Hcont : forall ret' w3 tail,
              retrying_loop env opts rest
                (match res with Ok (true, _) => remaining - 1 | _ => remaining end)
                ret' w3 = (Ok r, w') ->
              trace w3 = (trace w2 ++ tail)%list -> Forall is_quiet_event tail ->
              is_overrun ret' = is_overrun ret ->
              total ret' = total ret + Z.of_nat (successes evs_u) * len (contents queue (db w)) ->
              (S (length (errors_of ret)) = successes evs_u + length (errors_of ret'))%nat ->
              is_overrun r = is_overrun ret /\
              exists evs, trace w' = (trace w ++ evs)%list /\
                forall cur, let '(a, u, s) := account cur evs in
                  total r = total ret + a /\
                  (u + length (errors_of ret) = s + length (errors_of r))%nat).
    { intros ret' w3 tail Hloop Htr3 Htail Hover Htot Herr.
      destruct (IH _ _ _ _ _ Hloop) as (Hover' & evs & Htr & Hacc).
      split; [congruence|].
      exists (EvRedis (LRANGE queue 0 (-1))
              :: EvUpload (contents queue (db w)) remaining :: evs_u ++ tail ++ evs)%list.
      split; [rewrite Htr, Htr3, Htr2; by trace_norm|].
      intros cur.
      rewrite account_quiet_cons by done.
      rewrite (account_upload cur _ remaining evs_u tail evs Hevs Htail).
      specialize (Hacc (contents queue (db w))).
      destruct (account (contents queue (db w)) evs) as [[a u] s].
      destruct Hacc as [Ha Hu]. split; lia. }
    destruct res as [[[] v]|[rex|e]|].
    + rewrite (retrying_loop_success env opts _ _ _ _ _ _ _ _ Hm Hup) in Hrun.
      eapply (Hcont _ _ [log_retried queue; EvRedis (DEL queue)] Hrun);
        [reflexivity|repeat constructor|reflexivity| |].
      * rewrite Hsucc. cbn [add_total total]. lia.
      * rewrite Hsucc. unfold errors_of. cbn [add_total errors]. lia.
    + rewrite (retrying_loop_transport_failure env opts _ _ _ _ _ _ _ _ Hm Hup) in Hrun.
      injection Hrun as <- <-. split; [reflexivity|].
      exists (EvRedis (LRANGE queue 0 (-1))
              :: EvUpload (contents queue (db w)) remaining
              :: evs_u ++ [log_skipping] ++ [])%list.
      split; [cbn [extend trace]; rewrite Htr2; by trace_norm|].
      intros cur.
      rewrite account_quiet_cons by done.
      rewrite (account_upload cur _ remaining evs_u [log_skipping] [] Hevs)
        by (repeat constructor).
      rewrite Hsucc. cbn. unfold errors_of, len. cbn [append_error errors default from_option id].
      rewrite length_app. cbn [length]. split; lia.
    + destruct (contents queue (db w)) as [|x xs] eqn:Hc.
      { rewrite <- Hc in Hup.
        destruct (retrying_loop_refused_raises queue rest remaining ret w m rex w2
                    Hm Hc Hup) as (e & He).
        rewrite Hrun in He. done. }
      rewrite <- Hc in *.
      assert (Hne : contents queue (db w) <> []) by (by rewrite Hc).
      pose proof (upload_db _ _ _ _ _ _ _ _ Hup) as Hdb. cbn [read_queue extend db] in Hdb.
      destruct (Z.le_gt_cases (max_retry opts) (next_attempt m)) as [Hmax|Hmax].
      * rewrite (retrying_loop_promote env opts _ _ _ _ _ _ _ _ Hm Hne Hup Hmax) in Hrun.
        destruct (promoted_trace queue (next_attempt m) (contents queue (db w)) w2)
          as (tail & Htail & Hq).
        eapply (Hcont _ _ tail Hrun); [exact Htail|exact Hq|reflexivity| |].
        -- rewrite Hsucc. cbn [append_error total]. lia.
        -- rewrite Hsucc. unfold errors_of. cbn [append_error errors default from_option id].
           rewrite length_app. cbn [length]. lia.
      * rewrite (retrying_loop_rename env opts queue rest remaining ret w m rex w2 Hm)
          in Hrun; [|by rewrite Hdb|done|lia].
        destruct (renamed_trace queue (next_attempt m) w2) as (tail & Htail & Hq).
        eapply (Hcont _ _ tail Hrun); [exact Htail|exact Hq|reflexivity| |].
        -- rewrite Hsucc. cbn [append_error total]. lia.
        -- rewrite Hsucc. unfold errors_of. cbn [append_error errors default from_option id].
           rewrite length_app. cbn [length]. lia.
    + exfalso.
      apply (retrying_loop_other_raises queue rest remaining ret w m _ w2 Hm Hup
               (or_introl (ex_intro _ e eq_refl)) r).
      by rewrite Hrun.
    + exfalso.
      apply (retrying_loop_other_raises queue rest remaining ret w m _ w2 Hm Hup
               (or_intror eq_refl) r).
      by rewrite Hrun.
Qed.

(** X12.  Whenever [upload_retrying] returns, its result accounts for
    what it did: [is_overrun] tells whether the number of keys matching
    [retr_*] reaches [retry_queue_limit]; [total] is the number of entries
    the server accepted in this call; and [errors] holds one message for
    each call of [_upload] whose request did not succeed (the key is absent
    when there is none). *)
Theorem upload_retrying_account w r w' :
  upload_retrying env opts w = (Ok r, w') ->
  is_overrun r = Some (retry_queue_limit opts <=? len (keys "retr_*" (db w))) /\
  exists evs, trace w' = (trace w ++ evs)%list /\
    total r = len (acked_from [] evs) /\
    length (uploads evs) = (successes evs + length (errors_of r))%nat /\
    (errors r = None <-> length (uploads evs) = successes evs).
Proof.
  rewrite upload_retrying_unfold. cbv zeta.
  set (queues := Str.sorted (keys "retr_*" (db w))).
  set (pre := EvRedis (KEYS "retr_*") :: _).
  intros Hrun.
  destruct (retrying_loop_account _ _ _ _ _ _ Hrun) as (Hover & evs & Htr & Hacc).
  assert (Hpre : Forall is_quiet_event pre).
  { subst pre. destruct (nonempty queues); repeat constructor. }
  split.
  { rewrite Hover. cbn [is_overrun]. do 2 f_equal. subst queues. unfold len.
    by rewrite (Permutation_length (sorted_perm _)). }
  exists (pre ++ evs)%list.
  split; [rewrite Htr; cbn [extend trace]; by rewrite app_assoc|].
  specialize (Hacc []). rewrite <- (account_quiet [] pre evs Hpre) in Hacc.
  unfold account in Hacc. destruct Hacc as [Ha Hu].
  unfold errors_of in Hu. cbn [total errors default length] in Ha, Hu.
  split; [lia|]. split; [unfold errors_of; lia|].
  split.
  - intros He. unfold errors_of in Hu. rewrite He in Hu.
    cbn [default from_option length] in Hu. lia.
  - intros He. destruct (errors r) as [l|] eqn:Hl; [|done].
    exfalso. cbn [default from_option id] in Hu.
    assert (Hl0 : l = []) by (destruct l; [done|cbn [length] in Hu; lia]).
    subst l. clear Hu He Ha.
    revert Hrun Hl. generalize (len queues) (extend w pre). clear.
    assert (Hgen : forall qs remaining ret w0,
              errors ret <> Some [] ->
              retrying_loop env opts qs remaining ret w0 = (Ok r, w') ->
              errors r <> Some []).
    { induction qs as [|queue rest IH]; intros remaining ret w0 Hret Hloop.
      - rewrite retrying_loop_nil in Hloop. by injection Hloop as <- <-.
      - destruct (RETRY_QUEUE_REGEX_match queue) as [m|] eqn:Hm.
        2: { rewrite retrying_loop_no_match in Hloop by done. by eapply IH. }
        destruct (_upload env opts (contents queue (db w0)) None remaining
                    (read_queue queue w0)) as [[[[] v]|[rex|e]|] w2] eqn:Hup.
        + rewrite (retrying_loop_success env opts _ _ _ _ _ _ _ _ Hm Hup) in Hloop.
          eapply IH; [|exact Hloop]. exact Hret.
        + rewrite (retrying_loop_transport_failure env opts _ _ _ _ _ _ _ _ Hm Hup)
            in Hloop.
          injection Hloop as <- <-. cbn [append_error errors].
          intros [= H]. by destruct (default [] (errors ret)).
        + destruct (contents queue (db w0)) as [|x xs] eqn:Hc.
          { rewrite <- Hc in Hup.
            destruct (retrying_loop_refused_raises queue rest remaining ret w0 m rex w2
                        Hm Hc Hup) as (e & He).
            rewrite Hloop in He. done. }
          rewrite <- Hc in *.
          assert (Hne : contents queue (db w0) <> []) by (by rewrite Hc).
          pose proof (upload_db _ _ _ _ _ _ _ _ Hup) as Hdb.
          cbn [read_queue extend db] in Hdb.
          assert (Happ : errors (append_error ret (PyStr rex)) <> Some []).
          { cbn [append_error errors]. intros [= H].
            by destruct (default [] (errors ret)). }
          destruct (Z.le_gt_cases (max_retry opts) (next_attempt m)) as [Hmax|Hmax].
          * rewrite (retrying_loop_promote env opts _ _ _ _ _ _ _ _ Hm Hne Hup Hmax)
              in Hloop.
            eapply IH; [exact Happ|exact Hloop].
          * rewrite (retrying_loop_rename env opts queue rest remaining ret w0 m rex w2 Hm)
              in Hloop; [|by rewrite Hdb|done|lia].
            eapply IH; [exact Happ|exact Hloop].
        + exfalso.
          apply (retrying_loop_other_raises queue rest remaining ret w0 m _ w2 Hm Hup
                   (or_introl (ex_intro _ e eq_refl)) r).
          by rewrite Hloop.
        + exfalso.
          apply (retrying_loop_other_raises queue rest remaining ret w0 m _ w2 Hm Hup
                   (or_intror eq_refl) r).
          by rewrite Hloop. }
    intros z w0 Hloop Hl. refine (Hgen _ _ _ _ _ Hloop Hl). done.
Qed.

End RetryingAccount.

Lemma upload_retrying_account_witness :
  let env := Demo.env_of (Responded 500) in
  exists r w',
    upload_retrying env Demo.opts0 DemoSplay.three_queues = (Ok r, w') /\
    is_overrun r = Some false /\ total r = 0 /\ length (errors_of r) = 3%nat.
Proof.
  intros env.
  set (res := upload_retrying env Demo.opts0 DemoSplay.three_queues).
  assert (H : res = (Ok (mkDriveRet 0 (Some [PyStr "500 Error"; PyStr "500 Error";
                                              PyStr "500 Error"]) (Some false)),
                     snd res)) by (vm_compute; reflexivity).
  destruct (upload_retrying_account env Demo.opts0 DemoSplay.three_queues _ _ H)
    as (Hover & _).
  eexists. eexists. split; [exact H|].
  split; [exact Hover|]. split; reflexivity.
Defined.

(** ** The pause before a request *)

(** The calls of [time.sleep] of a stretch of history. *)
Definition sleeps (evs : list Event) : list Z :=
  omap (fun ev => match ev with EvSleep s => Some s | _ => None end) evs.

Section Pacing.
Context {Data : Type} (env : Env Data) (opts : Options).

(** X13.  With an endpoint configured, [_upload] pauses at most once
    before its request, and for no longer than [upload_splay] times the
    splay factor.  It does not pause before the first request of the
    instance, nor when the timer shows that at least this long has passed
    since the last request.  Afterwards [upload_timer] is set, whatever
    came of the request. *)
Theorem upload_pacing entries endpoint sf w ep :
  effective_endpoint opts endpoint = Some ep -> 0 <= upload_splay opts -> 0 <= sf ->
  exists evs,
    trace (snd (_upload env opts entries endpoint sf w)) = (trace w ++ evs)%list /\
    (sleeps evs = [] \/
     exists d, sleeps evs = [d] /\ 0 <= d <= upload_splay opts * sf) /\
    (upload_timer w = None -> sleeps evs = []) /\
    (forall t0, upload_timer w = Some t0 ->
       (forall h, (inject_Z (upload_splay opts * sf) <= timer env h - t0)%Q) ->
       sleeps evs = []) /\
    upload_timer (snd (_upload env opts entries endpoint sf w)) <> None.
Proof.
  unfold effective_endpoint. intros Hep Hsplay Hsf. unfold _upload. rewrite Hep.
  destruct w as [d ut tr]. munfold.
  destruct (Z.ltb_spec (upload_splay opts) 0) as [?|_]; [lia|].
  set (r := 0 + _ `mod` _).
  assert (Hrange : 0 <= r <= upload_splay opts).
  { subst r.
    pose proof (Z.mod_pos_bound (Z.of_N (random_draw env (tr ++ [EvUpload entries sf])))
                  (upload_splay opts - 0 + 1)). lia. }
  assert (Hr : 0 <= r * sf <= upload_splay opts * sf) by nia.
  assert (Hsleep : (r * sf <? 0) = false) by (apply Z.ltb_ge; lia).
  destruct ut as [t0|]; cbv beta iota zeta.
  - destruct (negb (Qle_bool _ _)) eqn:Hsoon; cbv beta iota zeta.
    + destruct (1 <? sf); cbv beta iota zeta; rewrite Hsleep; cbv beta iota zeta;
        trace_norm;
        (destruct (http_post env _ _); cbv beta iota zeta;
         [destruct (_ && _)|]); cbn [snd trace upload_timer];
        (eexists; split; [reflexivity|]);
        (split; [right; exists (r * sf); split; [reflexivity|lia]|]);
        (split; [done|]); (split; [|done]);
        intros t1 [= <-] Hlate; exfalso;
        apply negb_true_iff in Hsoon;
        (assert (Hle : Qle_bool (inject_Z (r * sf))
                         (timer env ((tr ++ [EvUpload entries sf])
                                     ++ [EvRandint 0 (upload_splay opts) r]) - t0) = true);
         [apply Qle_bool_iff; eapply Qle_trans; [|apply Hlate];
          rewrite <- Zle_Qle; lia|]);
        congruence.
    + trace_norm.
      (destruct (http_post env _ _); cbv beta iota zeta; [destruct (_ && _)|]);
        cbn [snd trace upload_timer];
        (eexists; split; [reflexivity|]); repeat split; try done; by left.
  - trace_norm.
    (destruct (http_post env _ _); cbv beta iota zeta; [destruct (_ && _)|]);
      cbn [snd trace upload_timer];
      (eexists; split; [reflexivity|]); repeat split; try done; by left.
Qed.

End Pacing.

Module DemoPacing.

(** A random draw of 5, a clock that stands still, and an instance whose
    last request was made at time 0. *)
Definition env_draw5 : Env string :=
  mkEnv string (fun s => s) (fun _ _ => Responded 200)
    (fun _ c => Str.of_Z c ++ " Error") (fun _ => 5%N) (fun _ => 0%Q)
    (fun _ => mkDateTime 2024 1 1 0 0 0 0) false.

Definition after_request : World := mkWorld Redis.empty (Some 0%Q) [].

End DemoPacing.

Lemma upload_pacing_witness :
  exists evs,
    trace (snd (_upload DemoPacing.env_draw5 Demo.opts0 ["A"] None 2
                  DemoPacing.after_request)) = evs /\
    (sleeps evs = [] \/ exists d, sleeps evs = [d] /\ 0 <= d <= 20).
Proof.
  destruct (upload_pacing DemoPacing.env_draw5 Demo.opts0 ["A"] None 2
              DemoPacing.after_request Demo.endpoint0)
    as (evs & Htr & Hs & _); [reflexivity | vm_compute; discriminate | lia |].
  exists evs. split; [exact Htr | exact Hs].
Defined.

(** ** [peek_queue] and [clear_queue] *)

Section Peek.
Context {Data : Type} (env : Env Data).

(** [json.loads]: the value decoded, or the message of the [ValueError]. *)
Variable json_loads : string -> Data + string.

(** [[json.loads(s) for s in res]]: the first string that does not decode
    ends the comprehension with its error. *)
Fixpoint loads_each (res : list string) : M (list Data) :=
  match res with
  | [] => mret []
  | s :: rest =>
      match json_loads s with
      | inl d => ds ← loads_each rest; mret (d :: ds)
      | inr msg => raise (OtherException msg)
      end
  end.

(** *** [peek_queue] *)
Definition peek_queue (name : string) (start stop : Z) : M (list Data) :=
  res ← redis_lrange name start stop;
  loads_each res.

Import Redis RedisFacts.

Lemma loads_each_pure res w :
  snd (loads_each res w) = w /\ fst (loads_each res w) <> OutOfFuel.
Proof.
  induction res as [|s rest IH]; cbn [loads_each]; [done|].
  destruct (json_loads s) as [d|msg]; [|done].
  destruct IH as [IH1 IH2]. unfold mbind, M_bind, bind.
  destruct (loads_each rest w) as [[ds| |] w1]; cbn [fst snd] in *; done.
Qed.

Lemma loads_each_dumps ds w :
  (forall d, json_loads (json_dumps env d) = inl d) ->
  loads_each (map (json_dumps env) ds) w = (Ok ds, w).
Proof.
  intros Hrt. induction ds as [|d ds IH]; cbn [map loads_each]; [done|].
  rewrite Hrt. unfold mbind, M_bind, bind. by rewrite IH.
Qed.

Lemma lrange_empty k start stop d : contents k d = [] -> lrange k start stop d = [].
Proof.
  intros H. unfold lrange. rewrite H.
  destruct (_ || _); [done|]. by rewrite drop_nil, take_nil.
Qed.

Lemma peek_queue_run name start stop w :
  peek_queue name start stop w
  = loads_each (lrange name start stop (db w))
      (extend w [EvRedis (LRANGE name start stop)]).
Proof. destruct w. reflexivity. Qed.

(** X14.  [peek_queue] only reads: whether it returns or raises, it has
    sent one [LRANGE] and no queue has changed.  When [json.loads] undoes
    [json.dumps], it returns the records of [pend] newest first: after a
    record is enqueued, the whole queue reads as this record followed by
    what it read as before. *)
Theorem peek_queue_enqueue :
  (forall name start stop w,
     snd (peek_queue name start stop w) = extend w [EvRedis (LRANGE name start stop)]) /\
  ((forall d, json_loads (json_dumps env d) = inl d) ->
   forall (a : Data) ds w,
     fst (peek_queue PENDING_QUEUE 0 (-1) w) = Ok ds ->
     fst (peek_queue PENDING_QUEUE 0 (-1) (snd (enqueue env a w))) = Ok (a :: ds)).
Proof.
  split.
  - intros name start stop w. rewrite peek_queue_run. apply loads_each_pure.
  - intros Hrt a ds w. rewrite !peek_queue_run, enqueue_run. cbn [snd extend set_db db].
    rewrite !lrange_all, contents_lpush, decide_True by done. cbn [rev app].
    assert (Hpure : forall res u v, fst (loads_each res u) = fst (loads_each res v)).
    { induction res as [|s rest IH]; intros u v; cbn [loads_each]; [done|].
      destruct (json_loads s); [|done]. unfold mbind, M_bind, bind, mret, M_ret, ret.
      specialize (IH u v).
      destruct (loads_each rest u) as [[?| |] ?], (loads_each rest v) as [[?| |] ?];
        cbn [fst] in *; congruence. }
    intros Hds. cbn [loads_each]. rewrite Hrt.
    unfold mbind, M_bind, bind, mret, M_ret, ret.
    match goal with
    | |- context [loads_each ?res ?v] =>
        pose proof (Hpure res v (mkWorld (db w) (upload_timer w)
                                   (trace w ++ [EvRedis (LRANGE PENDING_QUEUE 0 (-1))]))) as He;
        destruct (loads_each res v) as [[ds'| |] w3]
    end; unfold extend in Hds; cbn [fst] in *; congruence.
Qed.

Lemma clear_queue_run name w :
  clear_queue name w
  = (Ok (exists_ name (db w)),
     extend (set_db w (snd (del name (db w)))) [EvRedis (DEL name)]).
Proof. destruct w. reflexivity. Qed.

(** X15.  [clear_queue] tells whether the queue existed.  Afterwards the
    queue is empty: [peek_queue] reads [[]] from it for every range, no
    pattern lists it, and clearing it again returns [False]; the other
    queues are as before. *)
Theorem clear_queue_clears name w :
  exists w',
    clear_queue name w = (Ok (exists_ name (db w)), w') /\
    trace w' = (trace w ++ [EvRedis (DEL name)])%list /\
    (forall start stop, fst (peek_queue name start stop w') = Ok []) /\
    (forall pattern, name ∉ keys pattern (db w')) /\
    fst (clear_queue name w') = Ok false /\
    (forall q, q <> name ->
       contents q (db w') = contents q (db w) /\ ttl q (db w') = ttl q (db w)).
Proof.
  exists (extend (set_db w (snd (del name (db w)))) [EvRedis (DEL name)]).
  split; [apply clear_queue_run|].
  split; [reflexivity|].
  assert (Hgone : contents name (snd (del name (db w))) = []).
  { rewrite contents_del. by rewrite decide_True. }
  split; [|split; [|split]].
  - intros start stop. rewrite peek_queue_run. cbn [extend set_db db].
    by rewrite lrange_empty.
  - intros pattern Hin. apply keys_spec in Hin as [Hne _].
    cbn [extend set_db db] in Hne. by rewrite Hgone in Hne.
  - rewrite clear_queue_run. cbn [fst extend set_db db]. f_equal.
    by apply not_exists_contents.
  - intros q Hq. cbn [extend set_db db].
    destruct (Frame.del_other name q (db w)) as [H1 H2]; [done|].
    split; [exact H1|]. apply Frame.same_at_ttl. by split.
Qed.

End Peek.

Lemma peek_queue_enqueue_witness :
  let env := Demo.env_of (Responded 200) in
  fst (peek_queue inl PENDING_QUEUE 0 (-1)
         (snd (enqueue env "B" (snd (enqueue env "A" initial)))))
  = Ok ["B"; "A"].
Proof.
  intros env.
  apply (proj2 (peek_queue_enqueue env inl)); [intros d; reflexivity|].
  apply (proj2 (peek_queue_enqueue env inl)); [intros d; reflexivity|].
  reflexivity.
Defined.

(** ** A batch found in the work queue *)

Section Recovery.
Context {Data : Type} (env : Env Data) (opts : Options).
Import Redis RedisFacts.

(** One batch taken from the work queue, with a server that accepts it. *)
Lemma upload_batch_recovered ep src work w :
  opt_endpoint opts = Some ep -> 0 <= upload_splay opts ->
  server_accepts env ->
  contents work (db w) <> [] ->
  exists w' evs,
    _upload_batch env opts src work w
      = (Ok (mkBatchRet (len (contents work (db w))) None), w') /\
    trace w' = (trace w ++ evs)%list /\
    posts evs = [request_of ep (contents work (db w))] /\
    db w' = snd (del work (db w)).
Proof.
  intros Hep Hsplay Hsrv Hw.
  rewrite upload_batch_unfold. cbv zeta.
  destruct (dequeue_batch_cases src work (batch_size opts) (db w)) as (H1 & _ & _).
  specialize (H1 Hw). unfold dequeued. rewrite H1. cbn [fst snd].
  set (batch := contents work (db w)) in *.
  set (w1 := extend (set_db w (db w)) _).
  destruct (upload_configured env opts batch None 1 w1 ep Hep Hsplay)
    as (pre & Hpre & Hrun); [lia|].
  cbv zeta in Hrun.
  destruct (Hsrv (trace w1 ++ EvUpload batch 1 :: pre)%list (request_of ep batch))
    as (c & Hc & Hok).
  rewrite Hc in Hrun. unfold classify in Hrun. rewrite Hok in Hrun.
  destruct batch as [|b0 bl] eqn:Hbatch; [done|].
  rewrite Hrun. eexists.
  exists ([EvRedis (EVALSHA_dequeue_batch src work (batch_size opts));
           EvUpload (b0 :: bl) 1] ++ pre ++
          [EvPost (request_of ep (b0 :: bl)) (Responded c);
           EvTimer (timer env ((trace w1 ++ EvUpload (b0 :: bl) 1 :: pre)
                               ++ [EvPost (request_of ep (b0 :: bl)) (Responded c)]));
           log_uploaded (b0 :: bl) src; EvRedis (DEL work)])%list.
  split; [reflexivity|].
  cbn [extend set_db db trace]. subst w1. cbn [extend set_db db trace].
  split; [by trace_norm|].
  split; [|reflexivity].
  rewrite !posts_app. rewrite (posts_pacing pre Hpre). reflexivity.
Qed.

(** X16.  A batch found in the work queue is sent first, as it is, and
    the source queue is not read for it.  When the server accepts it and it
    is not a full batch, [_upload_batch_continuing] returns after this one
    request, with the size of the batch as the count and no error: the work
    queue is gone and the source queue is as it was, though it may hold
    entries. *)
Theorem recovered_batch_ends_drain ep src work fuel w :
  opt_endpoint opts = Some ep -> 0 <= upload_splay opts ->
  server_accepts env ->
  contents work (db w) <> [] ->
  len (contents work (db w)) <> batch_size opts ->
  exists w' evs,
    _upload_batch_continuing env opts fuel src work w
      = (Ok (mkBatchRet (len (contents work (db w))) None), w') /\
    trace w' = (trace w ++ evs)%list /\
    posts evs = [request_of ep (contents work (db w))] /\
    contents work (db w') = [] /\
    (forall q, q <> work -> contents q (db w') = contents q (db w)).
Proof.
  intros Hep Hsplay Hsrv Hw Hshort.
  destruct (upload_batch_recovered ep src work w Hep Hsplay Hsrv Hw)
    as (w' & evs & Hb & Htr & Hposts & Hdb).
  exists w', evs.
  rewrite upload_batch_continuing_unfold, Hb.
  rewrite continuing_loop_stop.
  2: { cbn [has_error error count negb andb]. by apply Z.eqb_neq. }
  split; [reflexivity|]. split; [exact Htr|]. split; [exact Hposts|].
  rewrite Hdb. split.
  - rewrite contents_del. by rewrite decide_True.
  - intros q Hq. rewrite contents_del. by rewrite decide_False.
Qed.

End Recovery.

Module DemoRecovery.

(** A batch of one entry left in [pend.work], two entries waiting in [pend]. *)
Definition interrupted : World :=
  mkWorld (Redis.lpush PENDING_QUEUE ["B"; "C"]
             (Redis.lpush PENDING_WORK_QUEUE ["A"] Redis.empty)) None [].

End DemoRecovery.

Lemma recovered_batch_ends_drain_witness :
  exists w',
    upload_pending (Demo.env_of (Responded 200)) Demo.opts0 5 DemoRecovery.interrupted
      = (Ok (mkDriveRet 1 None None), w') /\
    Redis.contents PENDING_QUEUE (db w') = ["C"; "B"].
Proof.
  destruct (recovered_batch_ends_drain (Demo.env_of (Responded 200)) Demo.opts0
              Demo.endpoint0 PENDING_QUEUE PENDING_WORK_QUEUE 5 DemoRecovery.interrupted)
    as (w' & evs & Hrun & _ & _ & _ & Hkept);
    [reflexivity | vm_compute; discriminate | apply DemoDrain.accepts_200
    | vm_compute; discriminate | vm_compute; discriminate |].
  exists w'. split.
  - unfold upload_pending, try_except. rewrite Hrun. reflexivity.
  - rewrite Hkept by done. reflexivity.
Defined.

(** ** A fail queue that expires at once *)

Section NoTtl.
Context {Data : Type} (env : Env Data) (opts : Options).
Import Redis RedisFacts.

(** X17.  With [fail_ttl] at 0 or below, a retry queue that reaches
    [max_retry] is lost: the transaction pushes its entries on the fail
    queue of the day, the [EXPIRE] that is not positive removes that fail
    queue with all it holds, and the retry queue is deleted.  The pass
    goes on with the next queue. *)
Theorem promotion_without_ttl queue rest remaining ret w m rex w2 :
  fail_ttl opts <= 0 ->
  RETRY_QUEUE_REGEX_match queue = Some m ->
  contents queue (db w) <> [] ->
  _upload env opts (contents queue (db w)) None remaining (read_queue queue w)
    = (Raised (RequestException rex), w2) ->
  max_retry opts <= next_attempt m ->
  exists w3 now,
    retrying_loop env opts (queue :: rest) remaining ret w
      = retrying_loop env opts rest remaining (append_error ret (PyStr rex)) w3 /\
    EvUtcnow now ∈ trace w3 /\
    contents queue (db w3) = [] /\
    contents (FAIL_QUEUE now) (db w3) = [] /\
    (forall q, q <> queue -> q <> FAIL_QUEUE now ->
               contents q (db w3) = contents q (db w)).
Proof.
  intros Httl Hm Hne Hup Hmax.
  rewrite (retrying_loop_promote env opts _ _ _ _ _ _ _ _ Hm Hne Hup Hmax).
  pose proof (upload_db _ _ _ _ _ _ _ _ Hup) as Hdb. cbn [read_queue extend db] in Hdb.
  exists (promoted env opts queue (next_attempt m) (contents queue (db w)) w2).
  exists (utcnow env (trace w2 ++ [log_failed_attempt opts (next_attempt m) queue])).
  split; [reflexivity|].
  unfold promoted. cbv zeta. cbn [extend set_db db trace].
  set (fq := FAIL_QUEUE _).
  set (entries := contents queue (db w)) in *.
  assert (Hex : exists_ fq (lpush fq entries (db w2)) = true).
  { apply exists_contents. rewrite contents_lpush, decide_True by done.
    destruct entries as [|e es]; [done|]. cbn [rev]. intros H.
    apply app_eq_nil in H as [H _]. by apply app_eq_nil in H as [_ H]. }
  assert (Hexp : snd (expire fq (fail_ttl opts) (lpush fq entries (db w2)))
                 = snd (del fq (lpush fq entries (db w2)))).
  { unfold expire. rewrite Hex. cbn [snd].
    destruct (Z.leb_spec (fail_ttl opts) 0); [reflexivity|lia]. }
  rewrite Hexp.
  split.
  { apply elem_of_app. right. apply elem_of_cons. right. apply elem_of_cons. by left. }
  split; [rewrite contents_del; by rewrite decide_True|].
  split.
  { rewrite !contents_del. case_decide; [done|]. by rewrite decide_True. }
  intros q Hq1 Hq2. rewrite !contents_del, contents_lpush.
  rewrite !decide_False by done. by rewrite Hdb.
Qed.

End NoTtl.

Module DemoNoTtl.

Definition opts_ttl0 : Options :=
  mkOptions (Some Demo.endpoint0) None None None None (Some 0).

End DemoNoTtl.

Lemma promotion_without_ttl_witness :
  let env := Demo.env_of (Responded 500) in
  exists w3,
    retrying_loop env DemoNoTtl.opts_ttl0 [DemoRetry.queue9] 1 DemoRetry.ret0 DemoRetry.w9
      = (Ok (append_error DemoRetry.ret0 (PyStr "500 Error")), w3) /\
    Redis.contents DemoRetry.queue9 (db w3) = [] /\
    Redis.contents "fail_20240101" (db w3) = [].
Proof.
  intros env.
  destruct (promotion_without_ttl env DemoNoTtl.opts_ttl0 DemoRetry.queue9 [] 1
              DemoRetry.ret0 DemoRetry.w9 DemoRetry.m9 "500 Error"
              (snd (_upload env DemoNoTtl.opts_ttl0 ["A"] None 1
                      (read_queue DemoRetry.queue9 DemoRetry.w9))))
    as (w3 & now & Hloop & _ & Hgone & _);
    [vm_compute; discriminate | reflexivity | vm_compute; discriminate
    | vm_compute; reflexivity | vm_compute; discriminate |].
  exists w3. rewrite retrying_loop_nil in Hloop.
  split; [exact Hloop|]. split; [exact Hgone|].
  assert (Hw3 : w3 = snd (retrying_loop env DemoNoTtl.opts_ttl0 [DemoRetry.queue9] 1
                            DemoRetry.ret0 DemoRetry.w9)) by (by rewrite Hloop).
  rewrite Hw3. vm_compute. reflexivity.
Defined.

(** ** The drive operations keep to their queues *)

Lemma sub_attempt_prefix queue m n :
  RETRY_QUEUE_REGEX_match queue = Some m ->
  Str.starts_with "retr_" (sub_attempt n queue) = Str.starts_with "retr_" queue.
Proof.
  intros Hm.
  destruct (retry_name_structure queue m Hm) as (nl & _ & Hq & Hsub).
  rewrite Hsub, <- (of_chars_chars (Str.of_Z n)), retry_name_chars.
  rewrite Hq, retry_name_chars.
  apply starts_with_stem.
Qed.

Section Isolation.
Context {Data : Type} (env : Env Data) (opts : Options).
Import Redis RedisFacts.

Lemma dequeue_batch_frame src dst n d q :
  q <> src -> q <> dst ->
  contents q (snd (dequeue_batch src dst n d)) = contents q d.
Proof.
  intros Hs Hd.
  destruct (dequeue_batch_cases src dst n d) as (H1 & H2 & H3).
  destruct (contents dst d) as [|x wl] eqn:Hw.
  - destruct (contents src d) as [|y sl] eqn:Hsrc.
    + by rewrite H3.
    + destruct H2 as (d' & He & _ & _ & _ & _ & _ & Hq); [done..|].
      rewrite He. cbn [snd]. by apply Hq.
  - by rewrite H1.
Qed.

Lemma renamenx_frame src dst d b d' q :
  renamenx src dst d = Some (b, d') -> q <> src -> q <> dst ->
  contents q d' = contents q d.
Proof.
  unfold renamenx. destruct (exists_ src d); [|done].
  destruct (exists_ dst d); intros [= <- <-] Hs Hd; [done|].
  unfold contents. cbn [lists]. by rewrite lookup_insert_ne, lookup_delete_ne.
Qed.

Lemma upload_batch_frame src work w q :
  q <> src -> q <> work ->
  contents q (db (snd (_upload_batch env opts src work w))) = contents q (db w).
Proof.
  intros Hs Hw. rewrite upload_batch_unfold. cbv zeta.
  assert (H1 : contents q (db (dequeued opts src work w)) = contents q (db w)).
  { unfold dequeued. cbn [extend set_db db]. by apply dequeue_batch_frame. }
  destruct (fst (dequeue_batch src work (batch_size opts) (db w))) as [|b batch].
  - cbn [snd]. by destruct (debug_enabled env).
  - destruct (_upload env opts (b :: batch) None 1 (dequeued opts src work w))
      as [[[[] msg]| |] w2] eqn:Hup; apply upload_db in Hup; cbn [snd extend set_db db];
      rewrite ?contents_del, ?decide_False by done; by rewrite Hup.
Qed.

Lemma continuing_loop_frame fuel src work q : forall res ret w,
  q <> src -> q <> work ->
  contents q (db (snd (continuing_loop env opts fuel src work res ret w)))
  = contents q (db w).
Proof.
  induction fuel as [|fuel IH]; intros res ret w Hs Hw; cbn [continuing_loop].
  - by destruct (negb (has_error res) && (count res =? batch_size opts)).
  - destruct (negb (has_error res) && (count res =? batch_size opts)); [|done].
    unfold mbind, M_bind, bind.
    pose proof (upload_batch_frame src work w q Hs Hw) as H1.
    destruct (_upload_batch env opts src work w) as [[res'| |] w1];
      cbn [snd] in H1 |- *; try exact H1.
    by rewrite IH.
Qed.

Lemma upload_batch_continuing_frame fuel src work w q :
  q <> src -> q <> work ->
  contents q (db (snd (_upload_batch_continuing env opts fuel src work w)))
  = contents q (db w).
Proof.
  intros Hs Hw. rewrite upload_batch_continuing_unfold.
  pose proof (upload_batch_frame src work w q Hs Hw) as H1.
  destruct (_upload_batch env opts src work w) as [[res'| |] w1];
    cbn [snd] in H1 |- *; try exact H1.
  by rewrite continuing_loop_frame.
Qed.

Lemma upload_pending_frame fuel w q :
  q <> PENDING_QUEUE -> q <> PENDING_WORK_QUEUE ->
  Str.starts_with "retr_" q = false \/ contents q (db w) <> [] ->
  contents q (db (snd (upload_pending env opts fuel w))) = contents q (db w).
Proof.
  intros Hp Hw Hq. unfold upload_pending, try_except.
  pose proof (upload_batch_continuing_frame fuel PENDING_QUEUE PENDING_WORK_QUEUE w q Hp Hw)
    as H1.
  destruct (_upload_batch_continuing env opts fuel PENDING_QUEUE PENDING_WORK_QUEUE w)
    as [[res|[rex|e]|] w1]; cbn [snd] in H1 |- *; try exact H1.
  destruct w1 as [d1 ut1 tr1]. munfold. cbn [db] in H1.
  set (now := utcnow env tr1).
  destruct (renamenx PENDING_WORK_QUEUE (RETRY_QUEUE now 0) d1) as [[b d']|] eqn:Hr;
    cbv beta iota zeta; cbn [snd]; [|exact H1].
  change (contents q d' = contents q (db w)). rewrite <- H1.
  destruct (decide (q = RETRY_QUEUE now 0)) as [->|Hne].
  - destruct Hq as [Hq|Hq]; [done|].
    rewrite <- H1 in Hq. revert Hr. unfold renamenx.
    destruct (exists_ PENDING_WORK_QUEUE d1); [|done].
    apply exists_contents in Hq. rewrite Hq. by intros [= <- <-].
  - by apply (renamenx_frame _ _ _ _ _ _ Hr).
Qed.

Lemma failing_loop_frame fuel queues q : forall ret w,
  q ∉ queues -> q <> FAIL_WORK_QUEUE ->
  contents q (db (snd (failing_loop env opts fuel queues ret w))) = contents q (db w).
Proof.
  induction queues as [|queue rest IH]; intros ret w Hq Hw; [done|].
  apply not_elem_of_cons in Hq as [Hne Hq].
  cbn [failing_loop]. unfold try_except.
  pose proof (upload_batch_continuing_frame fuel queue FAIL_WORK_QUEUE w q Hne Hw) as H1.
  destruct (_upload_batch_continuing env opts fuel queue FAIL_WORK_QUEUE w)
    as [[res|[rex|e]|] w1]; cbn [snd] in H1 |- *; try exact H1.
  destruct (error res); [exact H1|]. by rewrite IH.
Qed.

(** [upload_failing]: the listing, then the loop. *)
Lemma upload_failing_unfold fuel w :
  let queues := Str.sorted (keys "fail_*" (db w)) in
  upload_failing env opts fuel w
  = failing_loop env opts fuel queues (mkDriveRet 0 None None)
      (extend w (EvRedis (KEYS "fail_*") ::
                 if nonempty queues
                 then [EvLog WARNING ("Found " ++ Str.of_Z (len queues) ++ " fail queue(s)")]
                 else [])).
Proof.
  cbv zeta. unfold upload_failing, list_queues, extend. destruct w as [d ut tr].
  munfold. cbn [fst snd].
  destruct (nonempty _); cbv beta iota zeta; by trace_norm.
Qed.

Lemma upload_failing_frame fuel w q :
  q <> FAIL_WORK_QUEUE -> Str.starts_with "fail_" q = false ->
  contents q (db (snd (upload_failing env opts fuel w))) = contents q (db w).
Proof.
  intros Hw Hq. rewrite upload_failing_unfold. cbv zeta.
  rewrite failing_loop_frame; [reflexivity| |exact Hw].
  rewrite sorted_perm, keys_fail. intros [_ H]. congruence.
Qed.

Lemma retry_pass_frame queues remaining w w' q :
  retry_pass env opts queues remaining w w' ->
  Forall (fun k => Str.starts_with "retr_" k = true) queues ->
  Str.starts_with "retr_" q = false -> Str.starts_with "fail_" q = false ->
  contents q (db w') = contents q (db w).
Proof.
  intros Hpass Hall Hr Hf. revert Hall.
  induction Hpass as
    [ r w
    | queue rest r w w' Hm _ IH
    | queue rest r w m v w2 w' Hm Hup _ IH
    | queue rest r w m msg w2 Hm Hup
    | queue rest r w m rex w2 w' Hm Hne Hup Hmax _ IH
    | queue rest r w m rex w2 w' Hm Hne Hup Hmax _ IH
    | queue rest r w m rex w2 Hm He Hup
    | queue rest r w m e w2 Hm Hup
    | queue rest r w m w2 Hm Hup ]; intros Hall;
    try (apply Forall_cons in Hall as [Hq Hrest]);
    try (pose proof (upload_db _ _ _ _ _ _ _ _ Hup) as Hdb;
         cbn [read_queue extend db] in Hdb);
    try (assert (Hqueue : q <> queue) by (intros ->; congruence)).
  - done.
  - by rewrite IH.
  - rewrite IH by done. cbn [extend set_db db].
    rewrite contents_del, decide_False by done. by rewrite Hdb.
  - cbn [extend db]. by rewrite Hdb.
  - rewrite IH by done. unfold promoted. cbv zeta. cbn [extend set_db db].
    set (fq := FAIL_QUEUE _).
    assert (Hfq : fq <> q) by (intros <-; by cbn in Hf).
    rewrite contents_del, decide_False by done.
    destruct (Frame.expire_other fq (fail_ttl opts) q
                (lpush fq (contents queue (db w)) (db w2)) Hfq) as [He _].
    rewrite He, contents_lpush, decide_False by done. by rewrite Hdb.
  - rewrite IH by done. unfold renamed. cbv zeta. cbn [extend set_db db].
    destruct (renamenx queue _ (db w2)) as [[b d']|] eqn:Hren; [|by rewrite Hdb].
    rewrite (renamenx_frame _ _ _ _ _ q Hren); [by rewrite Hdb|done|].
    intros ->. rewrite (sub_attempt_prefix queue m _ Hm) in Hr. congruence.
  - unfold refused. destruct (_ <=? _); cbn [extend db]; by rewrite Hdb.
  - by rewrite Hdb.
  - by rewrite Hdb.
Qed.

Lemma upload_retrying_frame w q :
  Str.starts_with "retr_" q = false -> Str.starts_with "fail_" q = false ->
  contents q (db (snd (upload_retrying env opts w))) = contents q (db w).
Proof.
  intros Hr Hf. rewrite upload_retrying_unfold. cbv zeta.
  set (queues := Str.sorted (keys "retr_*" (db w))).
  set (w1 := extend w _).
  change (contents q (db w)) with (contents q (db w1)).
  eapply retry_pass_frame; [apply retrying_loop_pass| |exact Hr|exact Hf].
  apply Forall_forall. intros k Hk. by apply sorted_elem, keys_retr in Hk as [_ Hp].
Qed.

(** X18.  Each drive operation keeps to its own queues, however it ends.
    [upload_pending] changes [pend] and [pend.work] and may make one retry
    queue, never touching a queue that exists.  [upload_failing] changes
    the [fail_*] queues and [fail.work] only.  [upload_retrying] changes
    the [retr_*] and [fail_*] queues only. *)
Theorem drives_keep_to_their_queues :
  (forall fuel w q,
     q <> PENDING_QUEUE -> q <> PENDING_WORK_QUEUE ->
     Str.starts_with "retr_" q = false \/ contents q (db w) <> [] ->
     contents q (db (snd (upload_pending env opts fuel w))) = contents q (db w)) /\
  (forall fuel w q,
     q <> FAIL_WORK_QUEUE -> Str.starts_with "fail_" q = false ->
     contents q (db (snd (upload_failing env opts fuel w))) = contents q (db w)) /\
  (forall w q,
     Str.starts_with "retr_" q = false -> Str.starts_with "fail_" q = false ->
     contents q (db (snd (upload_retrying env opts w))) = contents q (db w)).
Proof.
  split; [|split].
  - apply upload_pending_frame.
  - apply upload_failing_frame.
  - apply upload_retrying_frame.
Qed.

End Isolation.

Lemma drives_keep_to_their_queues_witness :
  let env := Demo.env_of (Responded 500) in
  Redis.contents "fail_20240101"
    (db (snd (upload_pending env Demo.opts0 3 DemoFailing.two_fail_queues)))
  = ["B"; "A"] /\
  Redis.contents PENDING_QUEUE
    (db (snd (upload_retrying env Demo.opts0 DemoEngine.one_pending)))
  = ["A"].
Proof.
  intros env.
  destruct (drives_keep_to_their_queues env Demo.opts0) as (Hp & _ & Hr).
  split.
  - rewrite Hp; [reflexivity|discriminate|discriminate|left; reflexivity].
  - rewrite Hr; reflexivity.
Defined.

(** ** The drive operations return *)

Section Returns.
Context {Data : Type} (env : Env Data) (opts : Options).
Import Redis RedisFacts.













End Returns.


(** ** [upload_failing] while the server refuses *)

Section FailingStops.
Context {Data : Type} (env : Env Data) (opts : Options).
Import Redis RedisFacts.

(** No request succeeds: it raises, or it is answered with a status that
    [raise_for_status] raises for. *)
Definition server_refuses : Prop :=
  forall h req,
    (exists ex, http_post env h req = PostRaised ex) \/
    (exists c, http_post env h req = Responded c /\ (400 <=? c) && (c <? 600) = true).

Lemma upload_batch_raises src work w e w2 :
  fst (dequeue_batch src work (batch_size opts) (db w)) <> [] ->
  _upload env opts (fst (dequeue_batch src work (batch_size opts) (db w))) None 1
    (dequeued opts src work w) = (Raised e, w2) ->
  _upload_batch env opts src work w = (Raised e, w2).
Proof.
  intros Hne Hup. rewrite upload_batch_unfold. cbv zeta.
  destruct (fst (dequeue_batch src work (batch_size opts) (db w))); [done|].
  by rewrite Hup.
Qed.

(** X20.  While the server refuses every request, [upload_failing] stops
    at its first request: it moves one batch from the first fail queue (in
    ascending order of the names) into [fail.work], sends it, and returns
    [{"total": 0, "errors": [message]}].  The batch stays in [fail.work],
    the rest of that queue where it was, and no other queue is touched. *)
Theorem upload_failing_stops ep fuel w q1 rest :
  opt_endpoint opts = Some ep -> 0 <= upload_splay opts -> 0 < batch_size opts ->
  server_refuses ->
  contents FAIL_WORK_QUEUE (db w) = [] ->
  Str.sorted (keys "fail_*" (db w)) = q1 :: rest ->
  exists w' evs e,
    upload_failing env opts fuel w = (Ok (mkDriveRet 0 (Some [e]) None), w') /\
    trace w' = (trace w ++ evs)%list /\
    posts evs = [request_of ep (batch_of opts (contents q1 (db w)))] /\
    rev (contents FAIL_WORK_QUEUE (db w')) = batch_of opts (contents q1 (db w)) /\
    (contents q1 (db w') ++ contents FAIL_WORK_QUEUE (db w'))%list = contents q1 (db w) /\
    (forall q, q <> q1 -> q <> FAIL_WORK_QUEUE -> contents q (db w') = contents q (db w)).
Proof.
  intros Hep Hsplay Hbs Hsrv Hwork Hqueues.
  assert (Hq1 : contents q1 (db w) <> [] /\ Str.starts_with "fail_" q1 = true).
  { apply keys_fail. rewrite <- (sorted_perm (keys "fail_*" (db w))), Hqueues. by left. }
  destruct Hq1 as [Hne Hprefix].
  rewrite upload_failing_unfold. cbv zeta. rewrite Hqueues. cbn [nonempty].
  set (pre := [EvRedis (KEYS "fail_*"); _]).
  set (w0 := extend w pre).
  destruct (dequeue_batch_cases q1 FAIL_WORK_QUEUE (batch_size opts) (db w0))
    as (_ & H2 & _).
  destruct H2 as (d' & He & Hlen & _ & Hsrc & Hdst & Hsplit & Hq); [done..|].
  change (db w0) with (db w) in He, Hlen, Hsrc, Hdst, Hsplit, Hq.
  fold (batch_of opts (contents q1 (db w))) in He.
  set (batch := batch_of opts (contents q1 (db w))) in *.
  assert (Hbatch : batch <> []).
  { intros Hnil. pose proof (batch_of_length opts (contents q1 (db w)) Hbs) as Hl.
    fold batch in Hl. rewrite Hnil in Hl. unfold len in Hl. cbn [length] in Hl.
    destruct (contents q1 (db w)); [done|]. cbn [length] in Hl. lia. }
  set (w1 := dequeued opts q1 FAIL_WORK_QUEUE w0).
  destruct (upload_configured env opts batch None 1 w1 ep Hep Hsplay)
    as (pre1 & Hpre1 & Hrun); [lia|].
  cbv zeta in Hrun.
  set (h := (trace w1 ++ EvUpload batch 1 :: pre1)%list) in Hrun.
  set (req := request_of ep batch) in Hrun.
  assert (Hb : fst (dequeue_batch q1 FAIL_WORK_QUEUE (batch_size opts) (db w0)) = batch)
    by (change (db w0) with (db w); by rewrite He).
  assert (Hdb1 : db w1 = d').
  { subst w1. unfold dequeued. cbn [extend set_db db].
    change (db w0) with (db w). by rewrite He. }
  assert (Htr1 : trace w1 = (trace w ++ pre
                             ++ [EvRedis (EVALSHA_dequeue_batch q1 FAIL_WORK_QUEUE
                                            (batch_size opts))])%list).
  { subst w1 w0. unfold dequeued. cbn [extend set_db trace]. by rewrite app_assoc. }
  cbn [failing_loop]. unfold try_except.
  rewrite upload_batch_continuing_unfold.
  assert (Hposts : forall res tail,
            Forall is_quiet_event tail ->
            posts (pre ++ [EvRedis (EVALSHA_dequeue_batch q1 FAIL_WORK_QUEUE
                                      (batch_size opts));
                           EvUpload batch 1] ++ pre1
                   ++ [EvPost req res; EvTimer (timer env (h ++ [EvPost req res]))]
                   ++ tail) = [req]).
  { intros res tail Htail. rewrite !posts_app, (posts_pacing pre1 Hpre1).
    assert (Ht : posts tail = []).
    { clear -Htail. induction Htail as [|ev tail Hev _ IH]; [done|].
      destruct ev; try done; exact IH. }
    rewrite Ht. reflexivity. }
  destruct (Hsrv h req) as [[ex Hex]|(c & Hc & Hbad)].
  - rewrite Hex in Hrun. cbn [classify] in Hrun.
    match type of Hrun with _ = (_, ?w2) =>
      rewrite (upload_batch_failed env opts q1 FAIL_WORK_QUEUE w0 (PyStr ex) w2);
        [|by rewrite Hb|rewrite Hb; exact Hrun]
    end.
    rewrite continuing_loop_stop by reflexivity.
    cbn [error count add_total total errors is_overrun append_error default app].
    eexists. exists (pre ++ [EvRedis (EVALSHA_dequeue_batch q1 FAIL_WORK_QUEUE
                                        (batch_size opts));
                             EvUpload batch 1] ++ pre1
                     ++ [EvPost req (PostRaised ex);
                         EvTimer (timer env (h ++ [EvPost req (PostRaised ex)]))]
                     ++ [log_unable batch q1])%list.
    exists (PyStr ex). split; [rewrite Hb; reflexivity|].
    cbn [extend db trace]. split.
    { subst h. rewrite Htr1. by repeat rewrite <- app_assoc. }
    split; [apply Hposts; repeat constructor|].
    rewrite Hdb1. split; [by rewrite Hdst|].
    split; [exact Hsplit|]. intros q Hq1 Hq2. by apply Hq.
  - rewrite Hc in Hrun. unfold classify in Hrun. rewrite Hbad in Hrun.
    match type of Hrun with _ = (Raised ?e, ?w2) =>
      rewrite (upload_batch_raises q1 FAIL_WORK_QUEUE w0 e w2);
        [|by rewrite Hb|rewrite Hb; exact Hrun]
    end.
    exists (extend (mkWorld (db w1) (Some (timer env (h ++ [EvPost req (Responded c)])))
                      (h ++ [EvPost req (Responded c);
                             EvTimer (timer env (h ++ [EvPost req (Responded c)]))]))
              [EvLog WARNING "Still unable to upload failed batch(es)"]).
    exists (pre ++ [EvRedis (EVALSHA_dequeue_batch q1 FAIL_WORK_QUEUE
                               (batch_size opts));
                    EvUpload batch 1] ++ pre1
            ++ [EvPost req (Responded c);
                EvTimer (timer env (h ++ [EvPost req (Responded c)]))]
            ++ [EvLog WARNING "Still unable to upload failed batch(es)"])%list.
    exists (PyStr (http_error_str env req c)). split; [reflexivity|].
    cbn [extend db trace]. split.
    { subst h. rewrite Htr1. by repeat rewrite <- app_assoc. }
    split; [apply Hposts; repeat constructor|].
    rewrite Hdb1. split; [by rewrite Hdst|].
    split; [exact Hsplit|]. intros q Hq1 Hq2. by apply Hq.
Qed.

End FailingStops.

Lemma upload_failing_stops_witness :
  let env := Demo.env_of (Responded 500) in
  exists w' e,
    upload_failing env Demo.opts0 3 DemoFailing.two_fail_queues
      = (Ok (mkDriveRet 0 (Some [e]) None), w') /\
    Redis.contents FAIL_WORK_QUEUE (db w') = ["B"; "A"] /\
    Redis.contents "fail_20240102" (db w') = ["C"].
Proof.
  intros env.
  destruct (upload_failing_stops env Demo.opts0 Demo.endpoint0 3 DemoFailing.two_fail_queues
              "fail_20240101" ["fail_20240102"])
    as (w' & evs & e & Hrun & _ & _ & _ & _ & Hkept);
    [reflexivity | vm_compute; discriminate | reflexivity | | reflexivity
    | vm_compute; reflexivity |].
  { intros h req. right. exists 500. split; reflexivity. }
  exists w', e. split; [exact Hrun|]. split.
  - assert (Hw' : w' = snd (upload_failing env Demo.opts0 3 DemoFailing.two_fail_queues))
      by (by rewrite Hrun).
    rewrite Hw'. vm_compute. reflexivity.
  - rewrite Hkept by discriminate. reflexivity.
Defined.

(** ** A batch the server keeps rejecting *)

Section RetryCount.
Context {Data : Type} (env : Env Data) (opts : Options).
Import Redis RedisFacts.




Lemma keys_retr_iff q d :
  q ∈ keys "retr_*" d <-> contents q d <> [] /\ Str.starts_with "retr_" q = true.
Proof.
  rewrite keys_spec.
  change (Str.chars "retr_*") with (["r"; "e"; "t"; "r"; "_"] ++ ["*"])%char%list.
  rewrite glob_prefix by (repeat constructor). by rewrite of_chars_chars.
Qed.








End RetryCount.

Module DemoRetryCount.


Definition t0 : DateTime := mkDateTime 2024 1 1 0 0 0 0.


End DemoRetryCount.


(** ** What [_upload_batch_continuing] reports *)

Lemma account_app cur evs1 evs2 :
  account cur (evs1 ++ evs2)
  = let '(a1, u1, s1) := account cur evs1 in
    let '(a2, u2, s2) := account (last_upload cur evs1) evs2 in
    (a1 + a2, (u1 + u2)%nat, (s1 + s2)%nat).
Proof.
  unfold account. rewrite acked_from_app, uploads_app, successes_app.
  unfold len. by rewrite !length_app, Nat2Z.inj_add.
Qed.


Section EngineAccount.
Context {Data : Type} (env : Env Data) (opts : Options).
Import Redis RedisFacts.





End EngineAccount.


(** ** Retry queues are listed oldest first

    With a year of four digits the timestamp in the name of a retry queue
    has a fixed width, so the byte order [sorted] uses is the order of the
    times. *)

Section TimeOrder.

Lemma digit_range c : Str.is_digit c = true -> 0 <= Str.digit_val c <= 9.
Proof.
  unfold Str.is_digit, Str.digit_val. intros [H1 H2]%andb_true_iff.
  apply Nat.leb_le in H1, H2. lia.
Qed.

Lemma int_of_digits_acc l : forall acc,
  fold_left (fun acc c => 10 * acc + Str.digit_val c) l acc
  = acc * 10 ^ len l + Str.int_of_digits l.
Proof.
  unfold Str.int_of_digits, len. induction l as [|c l IH]; intros acc.
  - cbn [fold_left length]. change (10 ^ Z.of_nat 0) with 1. lia.
  - cbn [fold_left length]. rewrite IH, (IH (10 * 0 + _)).
    rewrite Nat2Z.inj_succ, Z.pow_succ_r by lia. ring.
Qed.

Lemma int_of_digits_cons c l :
  Str.int_of_digits (c :: l) = Str.digit_val c * 10 ^ len l + Str.int_of_digits l.
Proof.
  unfold Str.int_of_digits at 1. cbn [fold_left]. rewrite int_of_digits_acc.
  reflexivity.
Qed.

Lemma int_of_digits_app a b :
  Str.int_of_digits (a ++ b)
  = Str.int_of_digits a * 10 ^ len b + Str.int_of_digits b.
Proof.
  unfold Str.int_of_digits at 1. rewrite fold_left_app, int_of_digits_acc.
  reflexivity.
Qed.

Lemma int_of_digits_bound l :
  forallb Str.is_digit l = true -> Str.int_of_digits l < 10 ^ len l.
Proof.
  induction l as [|c l IH]; intros Hl; [reflexivity|].
  cbn [forallb] in Hl. apply andb_true_iff in Hl as [Hc Hl].
  apply digit_range in Hc. specialize (IH Hl).
  rewrite int_of_digits_cons. unfold len in *. cbn [length].
  rewrite Nat2Z.inj_succ, Z.pow_succ_r by lia. nia.
Qed.

(** ["{:d}".format(n)] for [n > 0] does not start with a zero. *)
Lemma of_Z_head p :
  exists c rest, Str.chars (Str.of_Z (Z.pos p)) = c :: rest /\
    1 <= Str.digit_val c /\ forallb Str.is_digit rest = true.
Proof.
  rewrite of_Z_pos.
  pose proof (DecimalPos.Unsigned.to_of (Pos.to_uint p)) as Hn.
  rewrite DecimalPos.Unsigned.of_to in Hn. cbn [N.to_uint] in Hn.
  pose proof (Unsigned.to_uint_nonzero p) as Hnz.
  assert (Hh : Decimal.nzhead (Pos.to_uint p) = Pos.to_uint p).
  { rewrite <- DecimalFacts.unorm_nzhead; [done|].
    intros Hnil%DecimalFacts.unorm_0. congruence. }
  pose proof (DecimalFacts.nzhead_nonzero (Pos.to_uint p)) as Hd0. rewrite Hh in Hd0.
  pose proof (Unsigned.to_uint_nonnil p) as Hnil.
  pose proof (uint_digits (Pos.to_uint p)) as Hdig.
  destruct (Pos.to_uint p) as [|u|u|u|u|u|u|u|u|u|u]; [done|by destruct (Hd0 u)|..];
    cbn [NilEmpty.string_of_uint Str.chars list_ascii_of_string forallb] in Hdig |- *;
    apply andb_true_iff in Hdig as [_ Hdig];
    eexists; eexists; (split; [reflexivity|]); (split; [by vm_compute|exact Hdig]).
Qed.

Lemma of_Z_length n w :
  0 <= n < 10 ^ Z.of_nat w -> (1 <= w)%nat ->
  (length (Str.chars (Str.of_Z n)) <= w)%nat.
Proof.
  intros [Hn Hw] Hw1. destruct n as [|p|p]; [exact Hw1| |lia].
  pose proof (int_of_Z (Z.pos p) Hn) as Hv.
  destruct (of_Z_head p) as (c & rest & Hc & Hd & Hrest).
  rewrite Hc in Hv |- *. rewrite int_of_digits_cons in Hv.
  pose proof (int_of_digits_nonneg rest Hrest) as Hr.
  assert (Hp : 0 < 10 ^ len rest) by (apply Z.pow_pos_nonneg; unfold len; lia).
  assert (Hlt : 10 ^ len rest < 10 ^ Z.of_nat w) by nia.
  apply Z.pow_lt_mono_r_iff in Hlt; [|lia|lia].
  unfold len in Hlt. cbn [length]. lia.
Qed.

Lemma length_chars s : length (Str.chars s) = String.length s.
Proof. induction s as [|c s IH]; [reflexivity|]. cbn. by rewrite <- IH. Qed.

Lemma int_of_zeros k : Str.int_of_digits (replicate k "0"%char) = 0.
Proof.
  induction k as [|k IH]; [reflexivity|].
  cbn [replicate]. rewrite int_of_digits_cons, IH.
  change (Str.digit_val "0") with 0. lia.
Qed.

(** A field of [strftime] reads as the number it prints, and has exactly its
    width when the number fits. *)
Lemma pad0_value width n :
  Str.int_of_digits (Str.chars (Str.pad0 width n)) = Z.of_N n.
Proof.
  unfold Str.pad0. rewrite chars_app, chars_of_chars, int_of_digits_app.
  rewrite int_of_zeros, int_of_Z by lia. lia.
Qed.

Lemma pad0_length width n :
  Z.of_N n < 10 ^ Z.of_nat width -> (1 <= width)%nat ->
  length (Str.chars (Str.pad0 width n)) = width.
Proof.
  intros Hn Hw. unfold Str.pad0.
  rewrite chars_app, chars_of_chars, length_app, length_replicate.
  pose proof (of_Z_length (Z.of_N n) width) as Hl.
  rewrite length_chars in *. lia.
Qed.

(** The time as one number, [YYYYMMDDhhmmssuuuuuu]. *)
Definition stamp (t : DateTime) : Z :=
  Z.of_N (year t) * 10 ^ 16 + Z.of_N (month t) * 10 ^ 14
  + Z.of_N (day t) * 10 ^ 12 + Z.of_N (hour t) * 10 ^ 10
  + Z.of_N (minute t) * 10 ^ 8 + Z.of_N (second t) * 10 ^ 6
  + Z.of_N (microsecond t).

(** The year has four digits, so that [%Y] prints it as it is, and every
    other field fits the width [strftime] pads it to. *)
Definition in_range (t : DateTime) : Prop :=
  (1000 <= year t < 10000)%N /\ (month t < 100)%N /\ (day t < 100)%N /\
  (hour t < 100)%N /\ (minute t < 100)%N /\ (second t < 100)%N /\
  (microsecond t < 1000000)%N.

Lemma strftime_micro_value t :
  in_range t ->
  length (Str.chars (strftime_micro t)) = 20%nat /\
  Str.int_of_digits (Str.chars (strftime_micro t)) = stamp t.
Proof.
  intros ([_ Hy] & Hmo & Hd & Hh & Hmi & Hs & Hu).
  unfold strftime_micro, strftime_date. rewrite !chars_app.
  rewrite !int_of_digits_app. unfold len. rewrite !length_app.
  rewrite (pad0_length 4), !(pad0_length 2), (pad0_length 6), !pad0_value;
    try (cbn [Z.of_nat Pos.of_succ_nat Pos.succ]; lia).
  split; [reflexivity|]. unfold stamp. cbn [Nat.add Z.of_nat Pos.of_succ_nat Pos.succ].
  lia.
Qed.

Lemma ascii_compare_refl c : Ascii.compare c c = Eq.
Proof. unfold Ascii.compare. apply N.compare_refl. Qed.

Lemma compare_prefix p x y :
  String.compare (p ++ x) (p ++ y) = String.compare x y.
Proof.
  induction p as [|c p IH]; [reflexivity|].
  simpl. by rewrite ascii_compare_refl.
Qed.

Lemma digit_val_N c : Str.digit_val c = Z.of_N (N_of_ascii c) - 48.
Proof. unfold Str.digit_val, nat_of_ascii. by rewrite N_nat_Z. Qed.

(** Two runs of digits of one length compare as the numbers they read as,
    whatever follows them. *)
Lemma digits_compare a : forall b x y,
  length a = length b ->
  forallb Str.is_digit a = true -> forallb Str.is_digit b = true ->
  Str.int_of_digits a < Str.int_of_digits b ->
  String.compare (Str.of_chars a ++ x) (Str.of_chars b ++ y) = Lt.
Proof.
  induction a as [|c a IH]; intros [|d b] x y Hlen Ha Hb Hlt; try discriminate.
  cbn [forallb] in Ha, Hb.
    apply andb_true_iff in Ha as [Hc Ha]. apply andb_true_iff in Hb as [Hd Hb].
    injection Hlen as Hlen.
    rewrite !int_of_digits_cons in Hlt. unfold len in Hlt. rewrite <- Hlen in Hlt.
    pose proof (int_of_digits_bound a Ha) as Hba.
    pose proof (int_of_digits_bound b Hb) as Hbb.
    pose proof (int_of_digits_nonneg a Ha) as Hna.
    pose proof (int_of_digits_nonneg b Hb) as Hnb.
    unfold len in Hba, Hbb. rewrite <- Hlen in Hbb.
    apply digit_range in Hc, Hd.
    simpl.
    unfold Ascii.compare. rewrite digit_val_N in Hlt, Hc, Hd.
    rewrite (digit_val_N d) in Hlt.
    destruct (N.compare_spec (N_of_ascii c) (N_of_ascii d)) as [Heq|Hcd|Hcd].
  - apply IH; [exact Hlen|exact Ha|exact Hb|]. rewrite Heq in Hlt. lia.
  - reflexivity.
  - exfalso. nia.
Qed.

Lemma sorted_before {A} (R : A -> A -> Prop) l1 a l2 b :
  StronglySorted R (l1 ++ a :: l2) -> b ∈ l1 -> R b a.
Proof.
  induction l1 as [|x l1 IH]; intros Hs Hb; [by apply elem_of_nil in Hb|].
  cbn [app] in Hs. apply StronglySorted_inv in Hs as [Hs Hx].
  apply elem_of_cons in Hb as [->|Hb]; [|by apply IH].
  rewrite Forall_forall in Hx. apply Hx, elem_of_app.
  right. by left.
Qed.

(** In a sorted list, a member that is not above another comes before it. *)
Lemma sorted_order l a b :
  a ∈ Str.sorted l -> b ∈ Str.sorted l -> Str.le b a = false ->
  exists l1 l2 l3, Str.sorted l = (l1 ++ a :: l2 ++ b :: l3)%list.
Proof.
  intros Ha Hb Hba.
  pose proof (sorted_ascending l) as Hs.
  apply list_elem_of_split in Ha as (l1 & l' & Hl). rewrite Hl in Hb, Hs |- *.
  apply elem_of_app in Hb as [Hb|Hb].
  - pose proof (sorted_before _ _ _ _ _ Hs Hb) as Hle.
    unfold ascending in Hle. congruence.
  - apply elem_of_cons in Hb as [->|Hb].
    + destruct (String.leb_total a a) as [H|H]; unfold Str.le in Hba; congruence.
    + apply list_elem_of_split in Hb as (l2 & l3 & ->). by exists l1, l2, l3.
Qed.

Lemma RETRY_QUEUE_lt t1 t2 n1 n2 :
  in_range t1 -> in_range t2 -> stamp t1 < stamp t2 ->
  String.compare (RETRY_QUEUE t1 n1) (RETRY_QUEUE t2 n2) = Lt.
Proof.
  intros H1 H2 Hlt. unfold RETRY_QUEUE. rewrite compare_prefix.
  destruct (strftime_micro_value t1 H1) as [Hl1 Hv1].
  destruct (strftime_micro_value t2 H2) as [Hl2 Hv2].
  rewrite <- (of_chars_chars (strftime_micro t1)), <- (of_chars_chars (strftime_micro t2)).
  apply digits_compare.
  - by rewrite Hl1, Hl2.
  - apply strftime_micro_digits.
  - apply strftime_micro_digits.
  - by rewrite Hv1, Hv2.
Qed.

(** X23.  Retry queues named after times with a four-digit year come out
    of [list_queues] in the order of those times: of two such queues that
    hold entries, the one named after the earlier time is listed first,
    whatever their attempt numbers, and last with [reverse=True]. *)
Theorem retry_queues_listed_oldest_first t1 t2 n1 n2 w :
  in_range t1 -> in_range t2 -> stamp t1 < stamp t2 ->
  Redis.contents (RETRY_QUEUE t1 n1) (db w) <> [] ->
  Redis.contents (RETRY_QUEUE t2 n2) (db w) <> [] ->
  Str.le (RETRY_QUEUE t2 n2) (RETRY_QUEUE t1 n1) = false /\
  (exists l1 l2 l3,
     fst (list_queues "retr_*" false w)
     = Ok (l1 ++ RETRY_QUEUE t1 n1 :: l2 ++ RETRY_QUEUE t2 n2 :: l3)%list) /\
  (exists l1 l2 l3,
     fst (list_queues "retr_*" true w)
     = Ok (l1 ++ RETRY_QUEUE t2 n2 :: l2 ++ RETRY_QUEUE t1 n1 :: l3)%list).
Proof.
  intros H1 H2 Hlt Hc1 Hc2.
  assert (Hle : Str.le (RETRY_QUEUE t2 n2) (RETRY_QUEUE t1 n1) = false).
  { unfold Str.le, String.leb.
    rewrite String.compare_antisym, (RETRY_QUEUE_lt t1 t2 n1 n2 H1 H2 Hlt).
    reflexivity. }
  split; [exact Hle|].
  assert (Hin : forall t n, Redis.contents (RETRY_QUEUE t n) (db w) <> [] ->
            RETRY_QUEUE t n ∈ Str.sorted (Redis.keys "retr_*" (db w))).
  { intros t n Hc. rewrite sorted_perm. apply keys_retr_iff. by split. }
  destruct (sorted_order _ _ _ (Hin _ _ Hc1) (Hin _ _ Hc2) Hle)
    as (l1 & l2 & l3 & Hs).
  assert (Hrun : forall reverse, fst (list_queues "retr_*" reverse w)
            = Ok (if reverse then rev (Str.sorted (Redis.keys "retr_*" (db w)))
                  else Str.sorted (Redis.keys "retr_*" (db w)))).
  { intros reverse. by destruct w. }
  split.
  - exists l1, l2, l3. by rewrite Hrun, Hs.
  - exists (rev l3), (rev l2), (rev l1). rewrite Hrun, Hs. f_equal.
    rewrite rev_app_distr. cbn [rev]. rewrite rev_app_distr. cbn [rev].
    by rewrite <- !app_assoc.
Qed.

End TimeOrder.

Module DemoOrder.

Definition t_old : DateTime := mkDateTime 2024 1 1 23 59 59 999999.
Definition t_new : DateTime := mkDateTime 2024 1 2 0 0 0 0.

(** The older batch is at its ninth attempt, the newer at its first. *)
Definition two_retries : World :=
  {| db := Redis.lpush (RETRY_QUEUE t_new 0) ["c"]
             (Redis.lpush (RETRY_QUEUE t_old 9) ["a"; "b"] Redis.empty);
     upload_timer := None;
     trace := [] |}.

End DemoOrder.

Lemma retry_queues_listed_oldest_first_witness :
  exists l1 l2 l3,
    fst (list_queues "retr_*" false DemoOrder.two_retries)
    = Ok (l1 ++ RETRY_QUEUE DemoOrder.t_old 9
             :: l2 ++ RETRY_QUEUE DemoOrder.t_new 0 :: l3)%list.
Proof.
  destruct (retry_queues_listed_oldest_first DemoOrder.t_old DemoOrder.t_new 9 0
              DemoOrder.two_retries) as (_ & H & _).
  - unfold in_range, DemoOrder.t_old. cbn. lia.
  - unfold in_range, DemoOrder.t_new. cbn. lia.
  - reflexivity.
  - vm_compute. discriminate.
  - vm_compute. discriminate.
  - exact H.
Defined.
